(** * Voxel Warfare: enemy AI, combat resolution and the enemy store

    A shallow embedding of the gameplay core of the repository:

    - [types/enemy.ts]            enemy data model and per-type configuration
    - [types/weapons.ts]          weapon data model and presets
    - [stores/enemyStore.ts]      the zustand enemy store (spawn, damage, respawn)
    - [stores/playerStore.ts]     the part of the player store the core touches,
                                  then the whole store
    - [systems/ai.ts]             the [EnemyAI] state machine and [checkEnemyHit]
    - [systems/combat.ts]         [performMeleeAttack]
    - [components/game/Projectile.tsx]  the per-frame projectile callback
    - [components/game/Enemy.tsx]       the effect and the frame callback
    - [hooks/useControls.ts]            the key state
    - [components/game/WeaponController.tsx]  the frame callback

    The file has four parts: the model of the code, the vocabulary in
    which the properties are stated, concrete scenarios, and the
    properties with their proofs; the last part ends with further
    properties of the stores, the AI over several frames and the
    components that drive them.

    Numbers.  A JavaScript [number] is modelled as an exact rational
    ([Q]): arithmetic is carried out without rounding and there is no
    NaN or infinity.  A Euclidean distance is in general irrational, so
    the value of [Vector3.distanceTo] is kept as a [root] (the
    non-negative square root of a rational radicand) and compared with
    rationals exactly; section [RootSound] relates these comparisons to
    the real square root.  The functions of three.js and of [Math] whose
    results are not rational ([normalize], [applyQuaternion], [atan2])
    are parameters of the sections that use them.

    State.  The stores are passed explicitly: a [World] for the enemy
    store, a [Player.t] for the player store.  An [EnemyAI] instance
    owns the record it was constructed with and updates it in place;
    the store is only changed through its actions.  A thrown
    [TypeError] is the result [None]. *)

From Stdlib Require Import Reals Qreals Lra.
From Stdlib Require Import QArith Qround Qabs Qpower Qminmax ZArith List String Bool Lia Lqa.
From Stdlib Require Import DecimalString DecimalN.
Import ListNotations.

Local Open Scope Q_scope.

(** ** JavaScript numbers and [Math] *)

Definition number := Q.

Definition Qlt_bool (a b : Q) : bool := negb (Qle_bool b a).

Notation "a <? b" := (Qlt_bool a b) (at level 70, no associativity) : Q_scope.
Notation "a <=? b" := (Qle_bool a b) (at level 70, no associativity) : Q_scope.
Notation "a >? b" := (Qlt_bool b a) (at level 70, no associativity) : Q_scope.

Definition Math_max (a b : number) : number := Qmax a b.
Definition Math_min (a b : number) : number := Qmin a b.
Definition Math_floor (a : number) : number := inject_Z (Qfloor a).

(** [v || d] on an optional number: [undefined] and [0] are falsy. *)
Definition or_default (v : option number) (d : number) : number :=
  match v with
  | None => d
  | Some q => if Qeq_bool q 0 then d else q
  end.

(** A default parameter value ([isCritical = false]). *)
Definition default_arg {A : Type} (d : A) (v : option A) : A :=
  match v with
  | None => d
  | Some a => a
  end.

(** ** Binary64 arithmetic

    The operations of an IEEE 754 double on the rationals: the exact
    result rounded to the nearest value with a 53-bit significand, ties
    to even, with gradual underflow below [2 ^ -1022].  Overflow, NaN
    and infinities are outside the model. *)

Module F64.

(** [2 ^ e] for an integer [e]. *)
Definition pow2 (e : Z) : Q :=
  match e with
  | Z0 => 1
  | Zpos p => inject_Z (2 ^ Zpos p)
  | Zneg p => 1 # (2 ^ p)
  end.

(** [floor (log2 |x|)], for [x] other than 0. *)
Definition mag (x : Q) : Z :=
  let n := Z.abs (Qnum x) in
  let d := Zpos (Qden x) in
  let e := (Z.log2 n - Z.log2 d)%Z in
  if Qle_bool (pow2 e) (Qabs x) then e else (e - 1)%Z.

(** The nearest integer, ties to even. *)
Definition nearest_even (x : Q) : Z :=
  let f := Qfloor x in
  match Qcompare (x - inject_Z f) (1 # 2) with
  | Lt => f
  | Gt => (f + 1)%Z
  | Eq => if Z.even f then f else (f + 1)%Z
  end.

(** The exponent of the last place of the double nearest to [x]: 53
    significant bits, and never below [2 ^ -1074]. *)
Definition exponent (x : Q) : Z := Z.max (mag x - 52) (-1074).

(** The double nearest to [x]. *)
Definition round (x : Q) : Q :=
  if Qeq_bool x 0 then 0
  else
    let e := exponent x in
    Qred (inject_Z (nearest_even (x * pow2 (- e))) * pow2 e).

Definition add (a b : Q) : Q := round (a + b).
Definition sub (a b : Q) : Q := round (a - b).
Definition mul (a b : Q) : Q := round (a * b).
Definition div (a b : Q) : Q := round (a / b).

(** [Math.sqrt] of a value that is not negative, correctly rounded:
    the significand is the integer square root of the scaled argument,
    moved up by one when the argument lies above the midpoint. *)
Definition sqrt (x : Q) : Q :=
  if Qle_bool x 0 then 0
  else
    let e := (Z.div (mag x) 2 - 52)%Z in
    let y := x * pow2 (- (2 * e)) in
    let m := Z.sqrt (Qfloor y) in
    let h := inject_Z m + (1 # 2) in
    let m' :=
      match Qcompare y (h * h) with
      | Lt => m
      | Gt => (m + 1)%Z
      | Eq => if Z.even m then m else (m + 1)%Z
      end in
    Qred (inject_Z m' * pow2 e).

End F64.

Arguments F64.round : simpl never.
Arguments F64.add : simpl never.
Arguments F64.sub : simpl never.
Arguments F64.mul : simpl never.
Arguments F64.div : simpl never.
Arguments F64.sqrt : simpl never.

(** ** three.js [Vector3] *)

(** The non-negative square root of [radicand]. *)
Record root := Sqrt { radicand : number }.

(** Exact comparison of a root with a rational:
    [sqrt s < r] iff [0 < r] and [s < r * r] (for [0 <= s]). *)
Definition root_ltb (d : root) (r : number) : bool :=
  (0 <? r) && (radicand d <? r * r).

Definition root_leb (d : root) (r : number) : bool :=
  (0 <=? r) && (radicand d <=? r * r).

Definition root_gtb (d : root) (r : number) : bool := negb (root_leb d r).

Module Vector3.

Record t := mk { x : number; y : number; z : number }.

Definition subVectors (a b : t) : t :=
  mk (x a - x b) (y a - y b) (z a - z b).

Definition add (a v : t) : t :=
  mk (x a + x v) (y a + y v) (z a + z v).

Definition multiplyScalar (a : t) (s : number) : t :=
  mk (x a * s) (y a * s) (z a * s).

Definition dot (a v : t) : number :=
  x a * x v + y a * y v + z a * z v.

Definition clone (a : t) : t := a.

Definition distanceToSquared (a v : t) : number :=
  let dx := x a - x v in
  let dy := y a - y v in
  let dz := z a - z v in
  dx * dx + dy * dy + dz * dz.

Definition distanceTo (a v : t) : root := Sqrt (distanceToSquared a v).

Definition lengthSq (a : t) : number := x a * x a + y a * y a + z a * z a.

Definition length (a : t) : root := Sqrt (lengthSq a).

End Vector3.

(** The methods of [Vector3] that [checkEnemyHit] calls, each
    arithmetic operation rounded as the engine rounds it; a sum of
    three products is evaluated from the left. *)
Module Vector3R.

Import Vector3.

Definition subVectors (a b : t) : t :=
  mk (F64.sub (x a) (x b)) (F64.sub (y a) (y b)) (F64.sub (z a) (z b)).

Definition add (a v : t) : t :=
  mk (F64.add (x a) (x v)) (F64.add (y a) (y v)) (F64.add (z a) (z v)).

Definition multiplyScalar (a : t) (s : number) : t :=
  mk (F64.mul (x a) s) (F64.mul (y a) s) (F64.mul (z a) s).

Definition dot (a v : t) : number :=
  F64.add (F64.add (F64.mul (x a) (x v)) (F64.mul (y a) (y v)))
          (F64.mul (z a) (z v)).

Definition distanceToSquared (a v : t) : number :=
  let dx := F64.sub (x a) (x v) in
  let dy := F64.sub (y a) (y v) in
  let dz := F64.sub (z a) (z v) in
  F64.add (F64.add (F64.mul dx dx) (F64.mul dy dy)) (F64.mul dz dz).

Definition distanceTo (a v : t) : number :=
  F64.sqrt (distanceToSquared a v).

End Vector3R.

(** ** JavaScript [Map] with string keys

    Iteration ([forEach], [values]) follows insertion order, and
    [set] on an existing key keeps the key's place; an association
    list with at most one entry per key. *)

Section JSMap.
Context {V : Type}.

Definition JSMap := list (string * V).

Fixpoint Map_get (k : string) (m : JSMap) : option V :=
  match m with
  | [] => None
  | (k', v) :: m' => if String.eqb k k' then Some v else Map_get k m'
  end.

Fixpoint Map_set (k : string) (v : V) (m : JSMap) : JSMap :=
  match m with
  | [] => [(k, v)]
  | (k', v') :: m' =>
      if String.eqb k k' then (k', v) :: m' else (k', v') :: Map_set k v m'
  end.

Fixpoint Map_delete (k : string) (m : JSMap) : JSMap :=
  match m with
  | [] => []
  | (k', v') :: m' =>
      if String.eqb k k' then m' else (k', v') :: Map_delete k m'
  end.

(** [m.forEach((v, k) => body)] with the loop's mutable variables
    gathered in [S]. *)
Definition Map_forEach {S : Type} (body : V -> string -> S -> S)
    (m : JSMap) (s : S) : S :=
  fold_left (fun acc kv => body (snd kv) (fst kv) acc) m s.

Definition Map_keys (m : JSMap) : list string := map fst m.
End JSMap.

Arguments JSMap V : clear implicits.

(** ** types/enemy.ts *)

Inductive EnemyType := ZOMBIE | BANDIT.

Inductive AIState := IDLE | PATROL | ALERT | CHASE | ATTACK | FLEE | DEAD.

Definition AIState_eqb (a b : AIState) : bool :=
  match a, b with
  | IDLE, IDLE | PATROL, PATROL | ALERT, ALERT | CHASE, CHASE
  | ATTACK, ATTACK | FLEE, FLEE | DEAD, DEAD => true
  | _, _ => false
  end.

Record EnemyStats := mkEnemyStats {
  health : number;
  maxHealth : number;
  speed : number;
  damage : number;
  attackRange : number;
  detectionRange : number;
  attackSpeed : number;
  defense : number
}.

Record EnemyData := mkEnemyData {
  id : string;
  type : EnemyType;
  position : Vector3.t;
  rotation : number;
  stats : EnemyStats;
  state : AIState;
  target : option string;
  patrolPoints : list Vector3.t;
  currentPatrolIndex : nat;
  attackCooldown : number;
  alertTime : number;
  lastDamageTime : number;
  respawnTime : number
}.

(** [ENEMY_CONFIGS[type]], an [Omit<EnemyStats, 'health'>]; spawning
    fills [health] with [maxHealth]. *)
Definition ENEMY_CONFIGS (t : EnemyType) : EnemyStats :=
  match t with
  | ZOMBIE => {| health := 100; maxHealth := 100; speed := 3; damage := 15;
                 attackRange := 2; detectionRange := 15;
                 attackSpeed := 0.8; defense := 5 |}
  | BANDIT => {| health := 80; maxHealth := 80; speed := 4; damage := 8;
                 attackRange := 5; detectionRange := 18;
                 attackSpeed := 1.0; defense := 3 |}
  end.

Definition EnemyType_value (t : EnemyType) : string :=
  match t with
  | ZOMBIE => "zombie"
  | BANDIT => "bandit"
  end.

Module DamageEvent.
Record t := mk {
  enemyId : string;
  damage : number;
  isCritical : bool;
  position : Vector3.t
}.
End DamageEvent.

(** Object spread with one field replaced: [{ ...e, field: v }]. *)
Definition with_position (v : Vector3.t) (e : EnemyData) : EnemyData :=
  mkEnemyData (id e) (type e) v (rotation e) (stats e) (state e) (target e)
    (patrolPoints e) (currentPatrolIndex e) (attackCooldown e) (alertTime e)
    (lastDamageTime e) (respawnTime e).

Definition with_rotation (v : number) (e : EnemyData) : EnemyData :=
  mkEnemyData (id e) (type e) (position e) v (stats e) (state e) (target e)
    (patrolPoints e) (currentPatrolIndex e) (attackCooldown e) (alertTime e)
    (lastDamageTime e) (respawnTime e).

Definition with_stats (v : EnemyStats) (e : EnemyData) : EnemyData :=
  mkEnemyData (id e) (type e) (position e) (rotation e) v (state e) (target e)
    (patrolPoints e) (currentPatrolIndex e) (attackCooldown e) (alertTime e)
    (lastDamageTime e) (respawnTime e).

Definition with_state (v : AIState) (e : EnemyData) : EnemyData :=
  mkEnemyData (id e) (type e) (position e) (rotation e) (stats e) v (target e)
    (patrolPoints e) (currentPatrolIndex e) (attackCooldown e) (alertTime e)
    (lastDamageTime e) (respawnTime e).

Definition with_target (v : option string) (e : EnemyData) : EnemyData :=
  mkEnemyData (id e) (type e) (position e) (rotation e) (stats e) (state e) v
    (patrolPoints e) (currentPatrolIndex e) (attackCooldown e) (alertTime e)
    (lastDamageTime e) (respawnTime e).

Definition with_currentPatrolIndex (v : nat) (e : EnemyData) : EnemyData :=
  mkEnemyData (id e) (type e) (position e) (rotation e) (stats e) (state e)
    (target e) (patrolPoints e) v (attackCooldown e) (alertTime e)
    (lastDamageTime e) (respawnTime e).

Definition with_attackCooldown (v : number) (e : EnemyData) : EnemyData :=
  mkEnemyData (id e) (type e) (position e) (rotation e) (stats e) (state e)
    (target e) (patrolPoints e) (currentPatrolIndex e) v (alertTime e)
    (lastDamageTime e) (respawnTime e).

Definition with_alertTime (v : number) (e : EnemyData) : EnemyData :=
  mkEnemyData (id e) (type e) (position e) (rotation e) (stats e) (state e)
    (target e) (patrolPoints e) (currentPatrolIndex e) (attackCooldown e) v
    (lastDamageTime e) (respawnTime e).

Definition with_lastDamageTime (v : number) (e : EnemyData) : EnemyData :=
  mkEnemyData (id e) (type e) (position e) (rotation e) (stats e) (state e)
    (target e) (patrolPoints e) (currentPatrolIndex e) (attackCooldown e)
    (alertTime e) v (respawnTime e).

Definition with_health (v : number) (s : EnemyStats) : EnemyStats :=
  mkEnemyStats v (maxHealth s) (speed s) (damage s) (attackRange s)
    (detectionRange s) (attackSpeed s) (defense s).

(** ** stores/enemyStore.ts

    The zustand state ([enemies], [damageEvents]) together with the two
    pieces of module state the actions use: the id counter and the
    timers armed with [setTimeout] (delay in milliseconds and the enemy
    to respawn when the timer fires). *)

Record World := mkWorld {
  enemies : JSMap EnemyData;
  damageEvents : list DamageEvent.t;
  enemyIdCounter : N;
  timeouts : list (Z * string)
}.

Definition initialWorld : World := mkWorld [] [] 0%N [].

Definition set_enemies (m : JSMap EnemyData) (w : World) : World :=
  mkWorld m (damageEvents w) (enemyIdCounter w) (timeouts w).

Definition setTimeout (ms : Z) (k : string) (w : World) : World :=
  mkWorld (enemies w) (damageEvents w) (enemyIdCounter w)
    (timeouts w ++ [(ms, k)]).

(** [Math.cos(angle)] and [Math.sin(angle)] at
    [angle = (i / numPoints) * Math.PI * 2] with [numPoints = 4]:
    the exact values at the quarter turns. *)
Definition cos_quarter (i : nat) : number :=
  match Nat.modulo i 4 with
  | 0%nat => 1
  | 2%nat => -1
  | _ => 0
  end.

Definition sin_quarter (i : nat) : number :=
  match Nat.modulo i 4 with
  | 1%nat => 1
  | 3%nat => -1
  | _ => 0
  end.

Definition spawnPatrolPoints (position : Vector3.t) : list Vector3.t :=
  let patrolRadius := 10 in
  let numPoints := 4%nat in
  map (fun i =>
         Vector3.mk (Vector3.x position + cos_quarter i * patrolRadius)
                   (Vector3.y position)
                   (Vector3.z position + sin_quarter i * patrolRadius))
      (seq 0 numPoints).

Definition spawnEnemy (type : EnemyType) (position : Vector3.t) (w : World)
  : string * World :=
  let counter := N.succ (enemyIdCounter w) in
  let id := ("enemy-" ++ EnemyType_value type ++ "-"
             ++ NilEmpty.string_of_uint (N.to_uint counter))%string in
  let config := ENEMY_CONFIGS type in
  let patrolPoints := spawnPatrolPoints position in
  let enemy :=
    {| id := id;
       type := type;
       position := Vector3.clone position;
       rotation := 0;
       stats := {| health := maxHealth config;
                   maxHealth := maxHealth config;
                   speed := speed config;
                   damage := damage config;
                   attackRange := attackRange config;
                   detectionRange := detectionRange config;
                   attackSpeed := attackSpeed config;
                   defense := defense config |};
       state := PATROL;
       target := None;
       patrolPoints := patrolPoints;
       currentPatrolIndex := 0;
       attackCooldown := 0;
       alertTime := 0;
       lastDamageTime := 0;
       respawnTime := 0 |} in
  (id, mkWorld (Map_set id enemy (enemies w)) (damageEvents w) counter
         (timeouts w)).

Definition removeEnemy (id : string) (w : World) : World :=
  set_enemies (Map_delete id (enemies w)) w.

(** [Partial<EnemyData>]: each field present or absent. *)
Record PartialEnemyData := mkPartial {
  p_id : option string;
  p_type : option EnemyType;
  p_position : option Vector3.t;
  p_rotation : option number;
  p_stats : option EnemyStats;
  p_state : option AIState;
  p_target : option (option string);
  p_patrolPoints : option (list Vector3.t);
  p_currentPatrolIndex : option nat;
  p_attackCooldown : option number;
  p_alertTime : option number;
  p_lastDamageTime : option number;
  p_respawnTime : option number
}.

Definition noUpdates : PartialEnemyData :=
  mkPartial None None None None None None None None None None None None None.

(** [{ ...enemy, ...updates }] *)
Definition spread (enemy : EnemyData) (updates : PartialEnemyData)
  : EnemyData :=
  {| id := default_arg (id enemy) (p_id updates);
     type := default_arg (type enemy) (p_type updates);
     position := default_arg (position enemy) (p_position updates);
     rotation := default_arg (rotation enemy) (p_rotation updates);
     stats := default_arg (stats enemy) (p_stats updates);
     state := default_arg (state enemy) (p_state updates);
     target := default_arg (target enemy) (p_target updates);
     patrolPoints := default_arg (patrolPoints enemy) (p_patrolPoints updates);
     currentPatrolIndex :=
       default_arg (currentPatrolIndex enemy) (p_currentPatrolIndex updates);
     attackCooldown :=
       default_arg (attackCooldown enemy) (p_attackCooldown updates);
     alertTime := default_arg (alertTime enemy) (p_alertTime updates);
     lastDamageTime :=
       default_arg (lastDamageTime enemy) (p_lastDamageTime updates);
     respawnTime := default_arg (respawnTime enemy) (p_respawnTime updates) |}.

Definition updateEnemy (id : string) (updates : PartialEnemyData) (w : World)
  : World :=
  match Map_get id (enemies w) with
  | None => w
  | Some enemy => set_enemies (Map_set id (spread enemy updates) (enemies w)) w
  end.

(** The mitigation arithmetic of [damageEnemy]: a division, a
    subtraction and a multiplication, each rounded, then the floor. *)
Definition finalDamage (defense damage : number) : number :=
  let damageReduction := F64.div defense (F64.add defense 100) in
  Math_max 1 (Math_floor (F64.mul damage (F64.sub 1 damageReduction))).

(** [now] is the value of [Date.now()]. *)
Definition damageEnemy (id : string) (damage : number)
    (isCritical : option bool) (now : number) (w : World) : World :=
  let isCritical := default_arg false isCritical in
  match Map_get id (enemies w) with
  | None => w
  | Some enemy =>
      if AIState_eqb (state enemy) DEAD then w
      else
        let finalDamage := finalDamage (defense (stats enemy)) damage in
        let newHealth := Math_max 0 (health (stats enemy) - finalDamage) in
        let damageEvent :=
          DamageEvent.mk id finalDamage isCritical (Vector3.clone (position enemy)) in
        let w :=
          match Map_get id (enemies w) with
          | None => w
          | Some updatedEnemy =>
              mkWorld
                (Map_set id
                   (with_state
                      (if newHealth <=? 0 then DEAD else state updatedEnemy)
                      (with_lastDamageTime now
                         (with_stats (with_health newHealth (stats updatedEnemy))
                            updatedEnemy)))
                   (enemies w))
                (damageEvents w ++ [damageEvent])
                (enemyIdCounter w) (timeouts w)
          end in
        if newHealth <=? 0 then setTimeout 30000 id w else w
  end.

Definition updateEnemyState (id : string) (state : AIState) (w : World)
  : World :=
  updateEnemy id (mkPartial None None None None None (Some state) None None
                    None None None None None) w.

Definition clearDamageEvents (w : World) : World :=
  mkWorld (enemies w) [] (enemyIdCounter w) (timeouts w).

(** [enemy.patrolPoints[0].clone()] throws a [TypeError] when the
    array is empty; the exception leaves the store as it was and is
    reported as [None]. *)
Definition respawnEnemy (id : string) (w : World) : option World :=
  match Map_get id (enemies w) with
  | None => Some w
  | Some enemy =>
      match nth_error (patrolPoints enemy) 0 with
      | None => None
      | Some spawnPosition =>
          Some (set_enemies
                  (Map_set id
                     (with_alertTime 0
                        (with_attackCooldown 0
                           (with_currentPatrolIndex 0
                              (with_target None
                                 (with_state PATROL
                                    (with_stats
                                       (with_health (maxHealth (stats enemy))
                                          (stats enemy))
                                       (with_position (Vector3.clone spawnPosition)
                                          enemy)))))))
                     (enemies w))
                  w)
      end
  end.

(** ** stores/playerStore.ts

    The fields of [PlayerState] read or written by the AI and by the
    projectiles; the movement, stamina and weapon fields play no role
    in the functions below. *)

Module ProjectileData.
Record t := mk {
  id : nat;
  startPosition : Vector3.t;
  direction : Vector3.t;
  speed : number;
  damage : number
}.
End ProjectileData.

Module Player.
Record t := mk {
  position : Vector3.t;
  health : number;
  maxHealth : number;
  projectiles : list ProjectileData.t
}.

Definition initial : t := mk (Vector3.mk 0 2 0) 100 100 [].

Definition takeDamage (amount : number) (s : t) : t :=
  mk (position s) (Math_max 0 (health s - amount)) (maxHealth s)
     (projectiles s).

Definition spawnProjectile (p : ProjectileData.t) (s : t) : t :=
  mk (position s) (health s) (maxHealth s) (projectiles s ++ [p]).

Definition removeProjectile (id : nat) (s : t) : t :=
  mk (position s) (health s) (maxHealth s)
     (filter (fun p => negb (Nat.eqb (ProjectileData.id p) id))
        (projectiles s)).
End Player.

(** ** systems/ai.ts *)

(** An [EnemyAI] instance: its private fields.  [update] mutates
    [this.enemy] in place and returns it, so the record an update
    returns is the [enemy] field of the instance afterwards. *)
Record EnemyAI := mkEnemyAI {
  enemy : EnemyData;
  playerPosition : option Vector3.t
}.

Definition new_EnemyAI (enemy : EnemyData) : EnemyAI := mkEnemyAI enemy None.

(** An assignment to fields of [this.enemy]. *)
Definition assign (f : EnemyData -> EnemyData) (ai : EnemyAI) : EnemyAI :=
  mkEnemyAI (f (enemy ai)) (playerPosition ai).

Section AI.

(** [Vector3.normalize] and [Math.atan2]. *)
Variable normalize : Vector3.t -> Vector3.t.
Variable Math_atan2 : number -> number -> number.

Definition transitionToState (newState : AIState) (ai : EnemyAI) : EnemyAI :=
  if AIState_eqb (state (enemy ai)) newState then ai
  else
    let ai := assign (with_state newState) ai in
    match newState with
    | ALERT => assign (with_alertTime 1.0) ai
    | CHASE => assign (with_target (Some "player"%string)) ai
    | PATROL => assign (with_target None) ai
    | _ => ai
    end.

(** [multiplyScalar] scales [direction] in place and returns it, so the
    length test and the rotation read the scaled vector. *)
Definition moveTowards (target : Vector3.t) (delta speed : number)
    (ai : EnemyAI) : EnemyAI :=
  let direction :=
    normalize (Vector3.subVectors target (position (enemy ai))) in
  let direction := Vector3.multiplyScalar direction (speed * delta) in
  let movement := direction in
  let ai := assign (fun e => with_position (Vector3.add (position e) movement) e)
              ai in
  if root_gtb (Vector3.length direction) 0.01
  then assign (with_rotation
                 (Math_atan2 (Vector3.x direction) (Vector3.z direction))) ai
  else ai.

Definition checkForPlayer (ai : EnemyAI) : EnemyAI :=
  match playerPosition ai with
  | None => ai
  | Some playerPosition =>
      let distance := Vector3.distanceTo (position (enemy ai)) playerPosition in
      if root_ltb distance (detectionRange (stats (enemy ai)))
      then transitionToState ALERT
             (assign (with_target (Some "player"%string)) ai)
      else ai
  end.

Definition idle (_delta : number) (ai : EnemyAI) : EnemyAI :=
  checkForPlayer (transitionToState PATROL ai).

(** [distanceTo(undefined)] throws when the patrol index is outside
    [patrolPoints]: [None]. *)
Definition patrol (delta : number) (ai : EnemyAI) : option EnemyAI :=
  match nth_error (patrolPoints (enemy ai)) (currentPatrolIndex (enemy ai)) with
  | None => None
  | Some targetPoint =>
      let distance := Vector3.distanceTo (position (enemy ai)) targetPoint in
      let ai :=
        if root_ltb distance 1
        then assign (fun e =>
                       with_currentPatrolIndex
                         (Nat.modulo (currentPatrolIndex e + 1)
                            (List.length (patrolPoints e))) e) ai
        else moveTowards targetPoint delta (speed (stats (enemy ai)) * 0.5) ai in
      Some (checkForPlayer ai)
  end.

Definition alert (_delta : number) (ai : EnemyAI) : EnemyAI :=
  let ai := assign (with_alertTime 1.0) ai in
  let ai :=
    match playerPosition ai with
    | None => ai
    | Some playerPosition =>
        let distance :=
          Vector3.distanceTo (position (enemy ai)) playerPosition in
        if root_ltb distance (detectionRange (stats (enemy ai)))
        then transitionToState CHASE ai
        else ai
    end in
  if alertTime (enemy ai) <=? 0 then transitionToState PATROL ai else ai.

Definition chase (delta : number) (ai : EnemyAI) : EnemyAI :=
  match playerPosition ai with
  | None => transitionToState PATROL ai
  | Some playerPosition =>
      let distance :=
        Vector3.distanceTo (position (enemy ai)) playerPosition in
      if health (stats (enemy ai)) <? maxHealth (stats (enemy ai)) * 0.2
      then transitionToState FLEE ai
      else if root_leb distance (attackRange (stats (enemy ai)))
      then transitionToState ATTACK ai
      else if root_gtb distance (detectionRange (stats (enemy ai)) * 1.5)
      then transitionToState PATROL (assign (with_target None) ai)
      else moveTowards playerPosition delta (speed (stats (enemy ai))) ai
  end.

Definition performAttack (ai : EnemyAI) (player : Player.t) : Player.t :=
  match playerPosition ai with
  | None => player
  | Some playerPosition =>
      let distance :=
        Vector3.distanceTo (position (enemy ai)) playerPosition in
      if root_gtb distance (attackRange (stats (enemy ai))) then player
      else Player.takeDamage (damage (stats (enemy ai))) player
  end.

Definition attack (_delta : number) (ai : EnemyAI) (player : Player.t)
  : EnemyAI * Player.t :=
  match playerPosition ai with
  | None => (transitionToState PATROL ai, player)
  | Some playerPosition =>
      let distance :=
        Vector3.distanceTo (position (enemy ai)) playerPosition in
      if root_gtb distance (attackRange (stats (enemy ai)) * 1.1)
      then (transitionToState CHASE ai, player)
      else if health (stats (enemy ai)) <? maxHealth (stats (enemy ai)) * 0.2
      then (transitionToState FLEE ai, player)
      else
        let direction :=
          normalize (Vector3.subVectors playerPosition (position (enemy ai))) in
        let ai :=
          assign (with_rotation
                    (Math_atan2 (Vector3.x direction) (Vector3.z direction)))
            ai in
        if attackCooldown (enemy ai) <=? 0
        then
          let player := performAttack ai player in
          (assign (fun e => with_attackCooldown (1 / attackSpeed (stats e)) e)
             ai,
           player)
        else (ai, player)
  end.

Definition flee (delta : number) (ai : EnemyAI) : EnemyAI :=
  match playerPosition ai with
  | None => transitionToState PATROL ai
  | Some playerPosition =>
      let fleeDirection :=
        normalize (Vector3.subVectors (position (enemy ai)) playerPosition) in
      let fleeTarget :=
        Vector3.add (Vector3.clone (position (enemy ai)))
          (Vector3.multiplyScalar fleeDirection 10) in
      let ai := moveTowards fleeTarget delta (speed (stats (enemy ai)) * 1.5) ai in
      let distance :=
        Vector3.distanceTo (position (enemy ai)) playerPosition in
      if root_gtb distance (detectionRange (stats (enemy ai)) * 2)
         || (health (stats (enemy ai)) >? maxHealth (stats (enemy ai)) * 0.5)
      then transitionToState PATROL ai
      else ai
  end.

(** The two timer updates at the head of [update]. *)
Definition updateTimers (delta : number) (ai : EnemyAI) : EnemyAI :=
  let ai :=
    if attackCooldown (enemy ai) >? 0
    then assign (fun e => with_attackCooldown (attackCooldown e - delta) e) ai
    else ai in
  if alertTime (enemy ai) >? 0
  then assign (fun e => with_alertTime (alertTime e - delta) e) ai
  else ai.

(** [update(delta)]: the instance and the player store afterwards, or
    [None] when a handler throws.  The value returned to the caller is
    [enemy] of the resulting instance. *)
Definition update (delta : number) (ai : EnemyAI) (player : Player.t)
  : option (EnemyAI * Player.t) :=
  if AIState_eqb (state (enemy ai)) DEAD then Some (ai, player)
  else
    let ai := mkEnemyAI (enemy ai) (Some (Player.position player)) in
    let ai := updateTimers delta ai in
    match state (enemy ai) with
    | IDLE => Some (idle delta ai, player)
    | PATROL => option_map (fun ai => (ai, player)) (patrol delta ai)
    | ALERT => Some (alert delta ai, player)
    | CHASE => Some (chase delta ai, player)
    | ATTACK => Some (attack delta ai player)
    | FLEE => Some (flee delta ai, player)
    | DEAD => Some (ai, player)
    end.

End AI.

Module Hit.
Record t := mk { enemyId : string; distance : number }.
End Hit.

(** [projectionLength < closestDistance], where [None] is
    [Number.POSITIVE_INFINITY]. *)
Definition lt_closest (a : number) (closestDistance : option number) : bool :=
  match closestDistance with
  | None => true
  | Some c => a <? c
  end.

(** The callback of [enemies.forEach] in [checkEnemyHit]; the pair is
    [(closestHit, closestDistance)]. *)
Definition checkEnemyHit_body (rayOrigin rayDirection : Vector3.t)
    (maxDistance : number) (enemy : EnemyData) (id : string)
    (acc : option Hit.t * option number) : option Hit.t * option number :=
  if AIState_eqb (state enemy) DEAD then acc
  else
    let enemyRadius := 1 in
    let toEnemy := Vector3R.subVectors (position enemy) rayOrigin in
    let projectionLength := Vector3R.dot toEnemy rayDirection in
    if projectionLength <? 0 then acc
    else if projectionLength >? maxDistance then acc
    else
      let closestPoint :=
        Vector3R.add (Vector3.clone rayOrigin)
          (Vector3R.multiplyScalar (Vector3.clone rayDirection)
             projectionLength) in
      let distanceToRay := Vector3R.distanceTo closestPoint (position enemy) in
      if (distanceToRay <=? enemyRadius)
         && lt_closest projectionLength (snd acc)
      then (Some (Hit.mk id projectionLength), Some projectionLength)
      else acc.

Definition checkEnemyHit (rayOrigin rayDirection : Vector3.t)
    (maxDistance : number) (w : World) : option Hit.t :=
  fst (Map_forEach (checkEnemyHit_body rayOrigin rayDirection maxDistance)
         (enemies w) (None, None)).

(** ** types/weapons.ts *)

Inductive WeaponType := melee | ranged.

Module Weapon.
Record t := mk {
  id : string;
  name : string;
  type : WeaponType;
  damage : number;
  range : number;
  attackSpeed : number;
  staminaCost : option number;
  ammo : option number;
  maxAmmo : option number;
  totalAmmo : option number;
  reloadTime : option number;
  critChance : option number;
  critMultiplier : option number
}.
End Weapon.

Definition WEAPONS_sword : Weapon.t :=
  {| Weapon.id := "sword"; Weapon.name := "Iron Sword"; Weapon.type := melee;
     Weapon.damage := 25; Weapon.range := 2; Weapon.attackSpeed := 1.5;
     Weapon.staminaCost := Some 10; Weapon.ammo := None;
     Weapon.maxAmmo := None; Weapon.totalAmmo := None;
     Weapon.reloadTime := None; Weapon.critChance := Some 0.15;
     Weapon.critMultiplier := Some 2.0 |}.

Definition WEAPONS_pistol : Weapon.t :=
  {| Weapon.id := "pistol"; Weapon.name := "9mm Pistol"; Weapon.type := ranged;
     Weapon.damage := 15; Weapon.range := 50; Weapon.attackSpeed := 3;
     Weapon.staminaCost := None; Weapon.ammo := Some 12;
     Weapon.maxAmmo := Some 12; Weapon.totalAmmo := Some 60;
     Weapon.reloadTime := Some 1.5; Weapon.critChance := Some 0.1;
     Weapon.critMultiplier := Some 2.5 |}.

(** ** systems/combat.ts *)

Module Quaternion.
Record t := mk { x : number; y : number; z : number; w : number }.
End Quaternion.

Module Camera.
Record t := mk { position : Vector3.t; quaternion : Quaternion.t }.
End Camera.

Module MeleeResult.
Record t := mk { hit : bool; damage : option number; isCrit : option bool }.
End MeleeResult.

(** The crit roll and the damage handed to [damageEnemy]; [random] is
    the value of [Math.random()]. *)
Definition rollCrit (weapon : Weapon.t) (random : number) : bool :=
  random <? or_default (Weapon.critChance weapon) 0.1.

Definition meleeDamage (weapon : Weapon.t) (isCrit : bool) : number :=
  let damage := Weapon.damage weapon in
  if isCrit then F64.mul damage (or_default (Weapon.critMultiplier weapon) 2.0)
  else damage.

Section Combat.

(** [Vector3.applyQuaternion] and [Vector3.normalize]. *)
Variable applyQuaternion : Vector3.t -> Quaternion.t -> Vector3.t.
Variable normalize : Vector3.t -> Vector3.t.

Definition performMeleeAttack (weapon : Weapon.t) (camera : Camera.t)
    (random now : number) (w : World) : MeleeResult.t * World :=
  let rayOrigin := Vector3.clone (Camera.position camera) in
  let rayDirection :=
    normalize (applyQuaternion (Vector3.mk 0 0 (-1)) (Camera.quaternion camera)) in
  match checkEnemyHit rayOrigin rayDirection (Weapon.range weapon) w with
  | Some hit =>
      let isCrit := rollCrit weapon random in
      let damage := meleeDamage weapon isCrit in
      let w := damageEnemy (Hit.enemyId hit) damage (Some isCrit) now w in
      (MeleeResult.mk true (Some damage) (Some isCrit), w)
  | None => (MeleeResult.mk false None None, w)
  end.

End Combat.

(** ** components/game/Projectile.tsx *)

(** [Set<string>] *)
Definition Set_has (k : string) (s : list string) : bool :=
  existsb (String.eqb k) s.

Definition Set_add (k : string) (s : list string) : list string :=
  if Set_has k s then s else s ++ [k].

(** The state and refs of one mounted [Projectile]. *)
Module Projectile.
Record t := mk {
  lifetime : number;
  hasExpired : bool;
  checkedEnemies : list string
}.

Definition initial : t := mk 5 false [].
End Projectile.

Definition set_hasExpired (p : Projectile.t) : Projectile.t :=
  Projectile.mk (Projectile.lifetime p) true (Projectile.checkedEnemies p).

(** What one frame acts on: the component's state, the enemy store and
    the player store (on which [onExpire] runs [removeProjectile]). *)
Definition FrameState := (Projectile.t * World * Player.t)%type.

(** [onExpire] as [ProjectileManager] passes it. *)
Definition onExpire (props : ProjectileData.t) (player : Player.t) : Player.t :=
  Player.removeProjectile (ProjectileData.id props) player.

(** The callback of [enemies.forEach] in the frame callback. *)
Definition projectile_body (props : ProjectileData.t) (pos : Vector3.t)
    (now : number) (enemy : EnemyData) (enemyId : string) (s : FrameState)
  : FrameState :=
  let '(p, w, player) := s in
  if AIState_eqb (state enemy) DEAD
     || Set_has enemyId (Projectile.checkedEnemies p)
  then s
  else
    let distance := Vector3.distanceTo pos (position enemy) in
    if root_ltb distance 1.5
    then
      let p := Projectile.mk (Projectile.lifetime p) (Projectile.hasExpired p)
                 (Set_add enemyId (Projectile.checkedEnemies p)) in
      let w := damageEnemy enemyId (ProjectileData.damage props) None now w in
      if negb (Projectile.hasExpired p)
      then (set_hasExpired p, w, onExpire props player)
      else (p, w, player)
    else s.


(** ** stores/playerStore.ts, the whole state

    [PlayerState] with all its fields and actions.  [Player.t] above is
    its restriction to the fields the enemies and the projectiles use;
    [PlayerState.core] is that restriction. *)

Module Euler.
Record t := mk { x : number; y : number; z : number }.
End Euler.

(** [{ ...weapon, ammo: v }] and [{ ...weapon, ammo: a, totalAmmo: r }]. *)
Definition Weapon_with_ammo (v : number) (w : Weapon.t) : Weapon.t :=
  Weapon.mk (Weapon.id w) (Weapon.name w) (Weapon.type w) (Weapon.damage w)
    (Weapon.range w) (Weapon.attackSpeed w) (Weapon.staminaCost w) (Some v)
    (Weapon.maxAmmo w) (Weapon.totalAmmo w) (Weapon.reloadTime w)
    (Weapon.critChance w) (Weapon.critMultiplier w).

Definition Weapon_with_totalAmmo (v : number) (w : Weapon.t) : Weapon.t :=
  Weapon.mk (Weapon.id w) (Weapon.name w) (Weapon.type w) (Weapon.damage w)
    (Weapon.range w) (Weapon.attackSpeed w) (Weapon.staminaCost w)
    (Weapon.ammo w) (Weapon.maxAmmo w) (Some v) (Weapon.reloadTime w)
    (Weapon.critChance w) (Weapon.critMultiplier w).

Definition WeaponType_eqb (a b : WeaponType) : bool :=
  match a, b with
  | melee, melee | ranged, ranged => true
  | _, _ => false
  end.

Module PlayerState.

Record t := mk {
  position : Vector3.t;
  rotation : Euler.t;
  velocity : Vector3.t;
  health : number;
  maxHealth : number;
  stamina : number;
  maxStamina : number;
  isGrounded : bool;
  isJumping : bool;
  isSprinting : bool;
  currentWeapon : option Weapon.t;
  weapons : list Weapon.t;
  attackCooldown : number;
  isReloading : bool;
  projectiles : list ProjectileData.t;
  level : number;
  experience : number;
  walkSpeed : number;
  sprintSpeed : number;
  jumpForce : number;
  gravity : number
}.

Definition with_position (v : Vector3.t) (s : t) : t :=
  mk v (rotation s) (velocity s) (health s) (maxHealth s) (stamina s)
    (maxStamina s) (isGrounded s) (isJumping s) (isSprinting s)
    (currentWeapon s) (weapons s) (attackCooldown s) (isReloading s)
    (projectiles s) (level s) (experience s) (walkSpeed s) (sprintSpeed s)
    (jumpForce s) (gravity s).

Definition with_rotation (v : Euler.t) (s : t) : t :=
  mk (position s) v (velocity s) (health s) (maxHealth s) (stamina s)
    (maxStamina s) (isGrounded s) (isJumping s) (isSprinting s)
    (currentWeapon s) (weapons s) (attackCooldown s) (isReloading s)
    (projectiles s) (level s) (experience s) (walkSpeed s) (sprintSpeed s)
    (jumpForce s) (gravity s).

Definition with_velocity (v : Vector3.t) (s : t) : t :=
  mk (position s) (rotation s) v (health s) (maxHealth s) (stamina s)
    (maxStamina s) (isGrounded s) (isJumping s) (isSprinting s)
    (currentWeapon s) (weapons s) (attackCooldown s) (isReloading s)
    (projectiles s) (level s) (experience s) (walkSpeed s) (sprintSpeed s)
    (jumpForce s) (gravity s).

Definition with_health (v : number) (s : t) : t :=
  mk (position s) (rotation s) (velocity s) v (maxHealth s) (stamina s)
    (maxStamina s) (isGrounded s) (isJumping s) (isSprinting s)
    (currentWeapon s) (weapons s) (attackCooldown s) (isReloading s)
    (projectiles s) (level s) (experience s) (walkSpeed s) (sprintSpeed s)
    (jumpForce s) (gravity s).

Definition with_stamina (v : number) (s : t) : t :=
  mk (position s) (rotation s) (velocity s) (health s) (maxHealth s) v
    (maxStamina s) (isGrounded s) (isJumping s) (isSprinting s)
    (currentWeapon s) (weapons s) (attackCooldown s) (isReloading s)
    (projectiles s) (level s) (experience s) (walkSpeed s) (sprintSpeed s)
    (jumpForce s) (gravity s).

Definition with_isGrounded (v : bool) (s : t) : t :=
  mk (position s) (rotation s) (velocity s) (health s) (maxHealth s)
    (stamina s) (maxStamina s) v (isJumping s) (isSprinting s)
    (currentWeapon s) (weapons s) (attackCooldown s) (isReloading s)
    (projectiles s) (level s) (experience s) (walkSpeed s) (sprintSpeed s)
    (jumpForce s) (gravity s).

Definition with_isJumping (v : bool) (s : t) : t :=
  mk (position s) (rotation s) (velocity s) (health s) (maxHealth s)
    (stamina s) (maxStamina s) (isGrounded s) v (isSprinting s)
    (currentWeapon s) (weapons s) (attackCooldown s) (isReloading s)
    (projectiles s) (level s) (experience s) (walkSpeed s) (sprintSpeed s)
    (jumpForce s) (gravity s).

Definition with_isSprinting (v : bool) (s : t) : t :=
  mk (position s) (rotation s) (velocity s) (health s) (maxHealth s)
    (stamina s) (maxStamina s) (isGrounded s) (isJumping s) v (currentWeapon
    s) (weapons s) (attackCooldown s) (isReloading s) (projectiles s) (level
    s) (experience s) (walkSpeed s) (sprintSpeed s) (jumpForce s) (gravity
    s).

Definition with_currentWeapon (v : option Weapon.t) (s : t) : t :=
  mk (position s) (rotation s) (velocity s) (health s) (maxHealth s)
    (stamina s) (maxStamina s) (isGrounded s) (isJumping s) (isSprinting s)
    v (weapons s) (attackCooldown s) (isReloading s) (projectiles s) (level
    s) (experience s) (walkSpeed s) (sprintSpeed s) (jumpForce s) (gravity
    s).

Definition with_weapons (v : list Weapon.t) (s : t) : t :=
  mk (position s) (rotation s) (velocity s) (health s) (maxHealth s)
    (stamina s) (maxStamina s) (isGrounded s) (isJumping s) (isSprinting s)
    (currentWeapon s) v (attackCooldown s) (isReloading s) (projectiles s)
    (level s) (experience s) (walkSpeed s) (sprintSpeed s) (jumpForce s)
    (gravity s).

Definition with_attackCooldown (v : number) (s : t) : t :=
  mk (position s) (rotation s) (velocity s) (health s) (maxHealth s)
    (stamina s) (maxStamina s) (isGrounded s) (isJumping s) (isSprinting s)
    (currentWeapon s) (weapons s) v (isReloading s) (projectiles s) (level
    s) (experience s) (walkSpeed s) (sprintSpeed s) (jumpForce s) (gravity
    s).

Definition with_isReloading (v : bool) (s : t) : t :=
  mk (position s) (rotation s) (velocity s) (health s) (maxHealth s)
    (stamina s) (maxStamina s) (isGrounded s) (isJumping s) (isSprinting s)
    (currentWeapon s) (weapons s) (attackCooldown s) v (projectiles s)
    (level s) (experience s) (walkSpeed s) (sprintSpeed s) (jumpForce s)
    (gravity s).

Definition with_projectiles (v : list ProjectileData.t) (s : t) : t :=
  mk (position s) (rotation s) (velocity s) (health s) (maxHealth s)
    (stamina s) (maxStamina s) (isGrounded s) (isJumping s) (isSprinting s)
    (currentWeapon s) (weapons s) (attackCooldown s) (isReloading s) v
    (level s) (experience s) (walkSpeed s) (sprintSpeed s) (jumpForce s)
    (gravity s).

Definition initial : t :=
  {| position := Vector3.mk 0 2 0;
     rotation := Euler.mk 0 0 0;
     velocity := Vector3.mk 0 0 0;
     health := 100;
     maxHealth := 100;
     stamina := 100;
     maxStamina := 100;
     isGrounded := false;
     isJumping := false;
     isSprinting := false;
     currentWeapon := Some WEAPONS_sword;
     weapons := [WEAPONS_sword; WEAPONS_pistol];
     attackCooldown := 0;
     isReloading := false;
     projectiles := [];
     level := 1;
     experience := 0;
     walkSpeed := 5;
     sprintSpeed := 8;
     jumpForce := 10;
     gravity := -30 |}.

Definition setPosition (position : Vector3.t) (s : t) : t :=
  with_position position s.

Definition setRotation (rotation : Euler.t) (s : t) : t :=
  with_rotation rotation s.

Definition setVelocity (velocity : Vector3.t) (s : t) : t :=
  with_velocity velocity s.

Definition setGrounded (grounded : bool) (s : t) : t :=
  with_isGrounded grounded s.

Definition setJumping (jumping : bool) (s : t) : t :=
  with_isJumping jumping s.

Definition setSprinting (sprinting : bool) (s : t) : t :=
  with_isSprinting sprinting s.

Definition drainStamina (amount : number) (s : t) : t :=
  with_stamina (Math_max 0 (stamina s - amount)) s.

Definition regenerateStamina (amount : number) (s : t) : t :=
  with_stamina (Math_min (maxStamina s) (stamina s + amount)) s.

Definition takeDamage (amount : number) (s : t) : t :=
  with_health (Math_max 0 (health s - amount)) s.

Definition heal (amount : number) (s : t) : t :=
  with_health (Math_min (maxHealth s) (health s + amount)) s.

Definition equipWeapon (weaponId : string) (s : t) : t :=
  match find (fun w => String.eqb (Weapon.id w) weaponId) (weapons s) with
  | None => s
  | Some weapon => with_currentWeapon (Some weapon) s
  end.

(** [state.weapons.map((w) => w.id === updatedWeapon.id ? updatedWeapon : w)] *)
Definition replaceWeapon (updatedWeapon : Weapon.t) (weapons : list Weapon.t)
  : list Weapon.t :=
  map (fun w =>
         if String.eqb (Weapon.id w) (Weapon.id updatedWeapon)
         then updatedWeapon else w)
    weapons.

Definition attack (s : t) : t :=
  match currentWeapon s with
  | None => s
  | Some weapon =>
      let cooldown := 1 / Weapon.attackSpeed weapon in
      match Weapon.type weapon with
      | ranged =>
          let newAmmo := Math_max 0 (or_default (Weapon.ammo weapon) 0 - 1) in
          let updatedWeapon := Weapon_with_ammo newAmmo weapon in
          let updatedWeapons := replaceWeapon updatedWeapon (weapons s) in
          with_attackCooldown cooldown
            (with_weapons updatedWeapons
               (with_currentWeapon (Some updatedWeapon) s))
      | melee => with_attackCooldown cooldown s
      end
  end.

(** [reload]: the new state and, when a reload starts, the delay in
    milliseconds of the timer that will run [reloadComplete]. *)
Definition reload (s : t) : t * option number :=
  match currentWeapon s with
  | None => (s, None)
  | Some weapon =>
      if negb (WeaponType_eqb (Weapon.type weapon) ranged) then (s, None)
      else
        let ammoNeeded :=
          or_default (Weapon.maxAmmo weapon) 0
          - or_default (Weapon.ammo weapon) 0 in
        let ammoAvailable := or_default (Weapon.totalAmmo weapon) 0 in
        if (ammoNeeded <=? 0) || (ammoAvailable <=? 0) then (s, None)
        else
          let ammoToReload := Math_min ammoNeeded ammoAvailable in
          let newAmmo := or_default (Weapon.ammo weapon) 0 + ammoToReload in
          let newTotalAmmo := ammoAvailable - ammoToReload in
          let updatedWeapon :=
            Weapon_with_totalAmmo newTotalAmmo
              (Weapon_with_ammo newAmmo weapon) in
          let updatedWeapons := replaceWeapon updatedWeapon (weapons s) in
          (with_isReloading true
             (with_weapons updatedWeapons
                (with_currentWeapon (Some updatedWeapon) s)),
           Some (or_default (Weapon.reloadTime weapon) 1 * 1000))
  end.

(** The timer callback of [reload]. *)
Definition reloadComplete (s : t) : t := with_isReloading false s.

Definition updateAttackCooldown (delta : number) (s : t) : t :=
  with_attackCooldown (Math_max 0 (attackCooldown s - delta)) s.

Definition spawnProjectile (projectile : ProjectileData.t) (s : t) : t :=
  with_projectiles (projectiles s ++ [projectile]) s.

Definition removeProjectile (id : nat) (s : t) : t :=
  with_projectiles
    (filter (fun p => negb (Nat.eqb (ProjectileData.id p) id)) (projectiles s))
    s.


End PlayerState.

(** ** components/game/Enemy.tsx

    The effect and the frame callback of a mounted [Enemy].  The
    component's [enemy], here [renderedEnemy], is the record of the
    store as of the last render, [rigidBody] says
    whether [rigidBodyRef.current] is set; the calls on the rigid body
    act on the physics world only. *)

(** [new EnemyAI(enemy)] replaces [aiRef.current] while the rendered
    state is [DEAD]. *)
Definition Enemy_useEffect (enemyState : AIState) (enemy : EnemyData)
    (aiRef : EnemyAI) : EnemyAI :=
  if AIState_eqb enemyState DEAD then new_EnemyAI enemy else aiRef.

(** [{ ...e }] as a [Partial<EnemyData>]: every field present. *)
Definition allFields (e : EnemyData) : PartialEnemyData :=
  mkPartial (Some (id e)) (Some (type e)) (Some (position e))
    (Some (rotation e)) (Some (stats e)) (Some (state e)) (Some (target e))
    (Some (patrolPoints e)) (Some (currentPatrolIndex e))
    (Some (attackCooldown e)) (Some (alertTime e)) (Some (lastDamageTime e))
    (Some (respawnTime e)).

Section EnemyComponent.

Variable normalize : Vector3.t -> Vector3.t.
Variable Math_atan2 : number -> number -> number.

Definition Enemy_useFrame (rigidBody : bool) (renderedEnemy : EnemyData)
    (delta : number) (aiRef : EnemyAI) (w : World) (player : Player.t)
  : option (EnemyAI * World * Player.t) :=
  if negb rigidBody || AIState_eqb (state renderedEnemy) DEAD
  then Some (aiRef, w, player)
  else
    match update normalize Math_atan2 delta aiRef player with
    | None => None
    | Some (aiRef, player) =>
        let updatedEnemy := enemy aiRef in
        let newPos :=
          Vector3.mk (Vector3.x (position updatedEnemy)) 1
            (Vector3.z (position updatedEnemy)) in
        Some (aiRef,
              updateEnemy (id updatedEnemy)
                (allFields (with_position newPos updatedEnemy)) w,
              player)
    end.

End EnemyComponent.

(** ** hooks/useControls.ts *)

Module KeyState.
Record t := mk {
  forward : bool;
  backward : bool;
  left : bool;
  right : bool;
  jump : bool;
  sprint : bool;
  attack : bool;
  weaponSlot1 : bool;
  weaponSlot2 : bool;
  reload : bool
}.
End KeyState.

(** ** components/game/WeaponController.tsx

    The frame callback of the mounted [WeaponController].  The values
    it destructures from [usePlayerStore()] ([currentWeapon],
    [attackCooldown], [isReloading], [stamina]) are those of the last
    render, here [rendered]; the actions it calls act on the store as
    it is, here [s]. *)

(** The three [prev...] refs. *)
Module WeaponRefs.
Record t := mk {
  prevWeaponSlot1 : bool;
  prevWeaponSlot2 : bool;
  prevReload : bool
}.
End WeaponRefs.

(** [currentWeapon?.type === 'ranged'] *)
Definition isRanged (currentWeapon : option Weapon.t) : bool :=
  match currentWeapon with
  | Some weapon => WeaponType_eqb (Weapon.type weapon) ranged
  | None => false
  end.

Section WeaponControllerFrame.

(** [Vector3.applyQuaternion], [Vector3.normalize] and
    [camera.getWorldDirection]. *)
Variable applyQuaternion : Vector3.t -> Quaternion.t -> Vector3.t.
Variable normalize : Vector3.t -> Vector3.t.
Variable getWorldDirection : Camera.t -> Vector3.t.

(** [random] and [now] are the values of [Math.random()] and
    [Date.now()] inside [performMeleeAttack], [projectileId] the value
    of [Date.now() + Math.random()] that names a new projectile.  The
    result carries the delay of the reload timer when one is armed. *)
Definition WeaponController_useFrame (keys : KeyState.t)
    (rendered : PlayerState.t) (camera : Camera.t)
    (delta random now : number) (projectileId : nat)
    (refs : WeaponRefs.t) (s : PlayerState.t) (w : World)
  : WeaponRefs.t * PlayerState.t * World * option number :=
  let s :=
    if PlayerState.attackCooldown rendered >? 0
    then PlayerState.updateAttackCooldown delta s
    else s in
  let s :=
    if KeyState.weaponSlot1 keys && negb (WeaponRefs.prevWeaponSlot1 refs)
    then PlayerState.equipWeapon "sword" s
    else s in
  let s :=
    if KeyState.weaponSlot2 keys && negb (WeaponRefs.prevWeaponSlot2 refs)
    then PlayerState.equipWeapon "pistol" s
    else s in
  let '(s, timer) :=
    if KeyState.reload keys && negb (WeaponRefs.prevReload refs)
       && isRanged (PlayerState.currentWeapon rendered)
       && negb (PlayerState.isReloading rendered)
    then PlayerState.reload s
    else (s, None) in
  let refs :=
    WeaponRefs.mk (KeyState.weaponSlot1 keys) (KeyState.weaponSlot2 keys)
      (KeyState.reload keys) in
  match PlayerState.currentWeapon rendered with
  | None => (refs, s, w, timer)
  | Some currentWeapon =>
      if negb (KeyState.attack keys)
         || (PlayerState.attackCooldown rendered >? 0)
         || PlayerState.isReloading rendered
      then (refs, s, w, timer)
      else
        match Weapon.type currentWeapon with
        | melee =>
            if PlayerState.stamina rendered
               <? or_default (Weapon.staminaCost currentWeapon) 0
            then (refs, s, w, timer)
            else
              let w :=
                snd (performMeleeAttack applyQuaternion normalize
                       currentWeapon camera random now w) in
              let s :=
                PlayerState.drainStamina
                  (or_default (Weapon.staminaCost currentWeapon) 0) s in
              let s := PlayerState.attack s in
              (refs, s, w, timer)
        | ranged =>
            if or_default (Weapon.ammo currentWeapon) 0 <=? 0
            then (refs, s, w, timer)
            else
              let startPos := Vector3.clone (Camera.position camera) in
              let direction := getWorldDirection camera in
              let startPos :=
                Vector3.add startPos
                  (Vector3.multiplyScalar (Vector3.clone direction) 0.5) in
              let newProjectile :=
                ProjectileData.mk projectileId startPos direction 50
                  (Weapon.damage currentWeapon) in
              let s := PlayerState.spawnProjectile newProjectile s in
              let s := PlayerState.attack s in
              (refs, s, w, timer)
        end
  end.

End WeaponControllerFrame.

(** * Specification vocabulary *)

(** What [damageEnemy] writes for a living enemy [e] stored under [id]. *)
Definition damaged (raw now : number) (e : EnemyData) : EnemyData :=
  let newHealth :=
    Math_max 0 (health (stats e) - finalDamage (defense (stats e)) raw) in
  with_state (if newHealth <=? 0 then DEAD else state e)
    (with_lastDamageTime now (with_stats (with_health newHealth (stats e)) e)).



(** The actions of the store that take no stats from the caller
    ([updateEnemy] writes whatever record it is given).  A timer firing
    is [RespawnEnemy]; an exception in it leaves the store as it was. *)
Inductive StoreAction :=
| SpawnEnemy (type : EnemyType) (position : Vector3.t)
| RemoveEnemy (id : string)
| DamageEnemy (id : string) (damage : number) (isCritical : option bool)
    (now : number)
| UpdateEnemyState (id : string) (state : AIState)
| ClearDamageEvents
| RespawnEnemy (id : string).

Definition dispatch (a : StoreAction) (w : World) : World :=
  match a with
  | SpawnEnemy type position => snd (spawnEnemy type position w)
  | RemoveEnemy id => removeEnemy id w
  | DamageEnemy id damage isCritical now =>
      damageEnemy id damage isCritical now w
  | UpdateEnemyState id state => updateEnemyState id state w
  | ClearDamageEvents => clearDamageEvents w
  | RespawnEnemy id =>
      match respawnEnemy id w with
      | Some w' => w'
      | None => w
      end
  end.


(** The record [respawnEnemy] stores for [e] when its first patrol
    point is [p0]. *)
Definition respawned (p0 : Vector3.t) (e : EnemyData) : EnemyData :=
  {| id := id e;
     type := type e;
     position := p0;
     rotation := rotation e;
     stats := {| health := maxHealth (stats e);
                 maxHealth := maxHealth (stats e);
                 speed := speed (stats e);
                 damage := damage (stats e);
                 attackRange := attackRange (stats e);
                 detectionRange := detectionRange (stats e);
                 attackSpeed := attackSpeed (stats e);
                 defense := defense (stats e) |};
     state := PATROL;
     target := None;
     patrolPoints := patrolPoints e;
     currentPatrolIndex := 0;
     attackCooldown := 0;
     alertTime := 0;
     lastDamageTime := lastDamageTime e;
     respawnTime := respawnTime e |}.

Section RayHitSpec.

Variables (rayOrigin rayDirection : Vector3.t) (maxDistance : number).

(** The projection [t] of [e.position - rayOrigin] onto the ray. *)
Definition projection (e : EnemyData) : number :=
  Vector3R.dot (Vector3R.subVectors (position e) rayOrigin) rayDirection.

(** The distance from [e.position] to the point of the ray at [t]. *)
Definition perpendicular (e : EnemyData) : number :=
  Vector3R.distanceTo
    (Vector3R.add rayOrigin
       (Vector3R.multiplyScalar rayDirection (projection e)))
    (position e).

Definition qualifies (e : EnemyData) : Prop :=
  state e <> DEAD
  /\ 0 <= projection e
  /\ projection e <= maxDistance
  /\ perpendicular e <= 1.

Definition qualifiesb (e : EnemyData) : bool :=
  negb (AIState_eqb (state e) DEAD)
  && negb (projection e <? 0)
  && negb (projection e >? maxDistance)
  && (perpendicular e <=? 1).

(** What the loop has established after the entries [seen]. *)
Definition hit_inv (seen : JSMap EnemyData)
    (acc : option Hit.t * option number) : Prop :=
  match fst acc with
  | None =>
      snd acc = None /\ forall k e, In (k, e) seen -> ~ qualifies e
  | Some h =>
      snd acc = Some (Hit.distance h)
      /\ exists e,
           In (Hit.enemyId h, e) seen
           /\ qualifies e
           /\ Hit.distance h = projection e
           /\ forall k' e', In (k', e') seen -> qualifies e' ->
                Hit.distance h <= projection e'
  end.

End RayHitSpec.



(** ** Histories of the enemy store *)

(** The id [spawnEnemy] gives to the [n]-th enemy created. *)
Definition enemyIdOf (type : EnemyType) (n : N) : string :=
  ("enemy-" ++ EnemyType_value type ++ "-"
   ++ NilEmpty.string_of_uint (N.to_uint n))%string.

(** Any call on the store: one of the actions above or an
    [updateEnemy] with arbitrary fields. *)
Inductive Action :=
| Store (a : StoreAction)
| UpdateEnemy (id : string) (updates : PartialEnemyData).

Definition perform (a : Action) (w : World) : World :=
  match a with
  | Store a => dispatch a w
  | UpdateEnemy id updates => updateEnemy id updates w
  end.

Definition performAll (actions : list Action) (w : World) : World :=
  fold_left (fun w a => perform a w) actions w.

(** The worlds a program can reach from the empty store. *)
Definition reachable (w : World) : Prop :=
  exists actions, w = performAll actions initialWorld.

(** Every key was produced by [spawnEnemy] at a counter value that is
    not beyond the current one. *)
Definition ids_bounded (w : World) : Prop :=
  forall k, In k (Map_keys (enemies w)) ->
            exists type n, k = enemyIdOf type n /\ (n <= enemyIdCounter w)%N.

(** [damageEnemy] applied once per element of [blows] (the raw damage,
    the critical flag and the clock of each call). *)
Definition damageRepeatedly (id : string)
    (blows : list (number * option bool * number)) (w : World) : World :=
  fold_left
    (fun w b => damageEnemy id (fst (fst b)) (snd (fst b)) (snd b) w)
    blows w.

(** The record [spawnEnemy] stores for the [n]-th enemy created. *)
Definition spawnedEnemy (type : EnemyType) (position : Vector3.t) (n : N)
  : EnemyData :=
  {| id := enemyIdOf type n;
     type := type;
     position := position;
     rotation := 0;
     stats := ENEMY_CONFIGS type;
     state := PATROL;
     target := None;
     patrolPoints := spawnPatrolPoints position;
     currentPatrolIndex := 0;
     attackCooldown := 0;
     alertTime := 0;
     lastDamageTime := 0;
     respawnTime := 0 |}.

(** The id [k] has been issued and is absent. *)
Definition retired (k : string) (w : World) : Prop :=
  Map_get k (enemies w) = None
  /\ exists type n, k = enemyIdOf type n /\ (n <= enemyIdCounter w)%N.

(** ** The player store *)

Definition vitals_ok (s : PlayerState.t) : Prop :=
  0 <= PlayerState.health s
  /\ PlayerState.health s <= PlayerState.maxHealth s
  /\ 0 <= PlayerState.stamina s
  /\ PlayerState.stamina s <= PlayerState.maxStamina s.

(** The actions of the player store; [Reload] drops the timer delay
    and [ReloadComplete] is the timer firing. *)
Inductive PlayerAction :=
| SetPosition (position : Vector3.t)
| SetRotation (rotation : Euler.t)
| SetVelocity (velocity : Vector3.t)
| SetGrounded (grounded : bool)
| SetJumping (jumping : bool)
| SetSprinting (sprinting : bool)
| DrainStamina (amount : number)
| RegenerateStamina (amount : number)
| TakeDamage (amount : number)
| Heal (amount : number)
| EquipWeapon (weaponId : string)
| Attack
| Reload
| ReloadComplete
| UpdateAttackCooldown (delta : number)
| SpawnProjectile (projectile : ProjectileData.t)
| RemoveProjectile (id : nat).

Definition playerStep (a : PlayerAction) (s : PlayerState.t) : PlayerState.t :=
  match a with
  | SetPosition position => PlayerState.setPosition position s
  | SetRotation rotation => PlayerState.setRotation rotation s
  | SetVelocity velocity => PlayerState.setVelocity velocity s
  | SetGrounded grounded => PlayerState.setGrounded grounded s
  | SetJumping jumping => PlayerState.setJumping jumping s
  | SetSprinting sprinting => PlayerState.setSprinting sprinting s
  | DrainStamina amount => PlayerState.drainStamina amount s
  | RegenerateStamina amount => PlayerState.regenerateStamina amount s
  | TakeDamage amount => PlayerState.takeDamage amount s
  | Heal amount => PlayerState.heal amount s
  | EquipWeapon weaponId => PlayerState.equipWeapon weaponId s
  | Attack => PlayerState.attack s
  | Reload => fst (PlayerState.reload s)
  | ReloadComplete => PlayerState.reloadComplete s
  | UpdateAttackCooldown delta => PlayerState.updateAttackCooldown delta s
  | SpawnProjectile projectile => PlayerState.spawnProjectile projectile s
  | RemoveProjectile id => PlayerState.removeProjectile id s
  end.

Definition playerRun (actions : list PlayerAction) (s : PlayerState.t)
  : PlayerState.t :=
  fold_left (fun s a => playerStep a s) actions s.

(** The amount an action carries is not negative. *)
Definition amount_ok (a : PlayerAction) : Prop :=
  match a with
  | DrainStamina amount | RegenerateStamina amount
  | TakeDamage amount | Heal amount => 0 <= amount
  | _ => True
  end.

(** Weapon ids are distinct and the weapon in hand is one of the list. *)
Definition arsenal_ok (s : PlayerState.t) : Prop :=
  NoDup (map Weapon.id (PlayerState.weapons s))
  /\ forall w, PlayerState.currentWeapon s = Some w ->
               In w (PlayerState.weapons s).

(** The rounds in the clip and in reserve, with absent counts as 0. *)
Definition clip (w : Weapon.t) : number := or_default (Weapon.ammo w) 0.
Definition reserve (w : Weapon.t) : number := or_default (Weapon.totalAmmo w) 0.
Definition clipSize (w : Weapon.t) : number := or_default (Weapon.maxAmmo w) 0.


(** ** The AI over several frames *)

(** The fields of its record an [EnemyAI] never assigns. *)
Definition untouched (e e' : EnemyData) : Prop :=
  id e' = id e
  /\ type e' = type e
  /\ stats e' = stats e
  /\ patrolPoints e' = patrolPoints e
  /\ lastDamageTime e' = lastDamageTime e
  /\ respawnTime e' = respawnTime e.

(** [patrolPoints[currentPatrolIndex]] exists. *)
Definition patrol_ok (e : EnemyData) : Prop :=
  (currentPatrolIndex e < List.length (patrolPoints e))%nat.

(** [target] is set exactly while the enemy is engaged. *)
Definition engaged_ok (e : EnemyData) : Prop :=
  match state e with
  | PATROL => target e = None
  | ALERT | CHASE | ATTACK | FLEE => target e = Some "player"%string
  | IDLE | DEAD => True
  end.

(** The transitions of the state machine in one step. *)
Definition may_follow (s s' : AIState) : bool :=
  match s, s' with
  | IDLE, (PATROL | ALERT)
  | PATROL, (PATROL | ALERT)
  | ALERT, (ALERT | CHASE)
  | CHASE, (CHASE | FLEE | ATTACK | PATROL)
  | ATTACK, (ATTACK | CHASE | FLEE)
  | FLEE, (FLEE | PATROL)
  | DEAD, DEAD => true
  | _, _ => false
  end.

(** The player store with the player moved to [p]. *)
Definition Player_at (p : Vector3.t) (player : Player.t) : Player.t :=
  Player.mk p (Player.health player) (Player.maxHealth player)
    (Player.projectiles player).

Section AIRun.

Variable normalize : Vector3.t -> Vector3.t.
Variable Math_atan2 : number -> number -> number.

(** One [update] per frame, the player standing at the frame's
    position; [None] as soon as an update throws. *)
Fixpoint aiRun (frames : list (number * Vector3.t)) (ai : EnemyAI)
    (player : Player.t) : option (EnemyAI * Player.t) :=
  match frames with
  | [] => Some (ai, player)
  | (delta, p) :: frames =>
      match update normalize Math_atan2 delta ai (Player_at p player) with
      | None => None
      | Some (ai, player) => aiRun frames ai player
      end
  end.

End AIRun.

(** ** A projectile in flight *)





(** ** The weapon controller *)

(** The attack key is down and the rendered store allows an attack. *)
Definition ready (keys : KeyState.t) (rendered : PlayerState.t) : bool :=
  KeyState.attack keys
  && negb (PlayerState.attackCooldown rendered >? 0)
  && negb (PlayerState.isReloading rendered).

(** [currentWeapon.staminaCost || 0] *)
Definition cost (weapon : Weapon.t) : number :=
  or_default (Weapon.staminaCost weapon) 0.

(** The projectile a shot with [weapon] creates. *)
Definition shot (getWorldDirection : Camera.t -> Vector3.t)
    (camera : Camera.t) (projectileId : nat) (weapon : Weapon.t)
  : ProjectileData.t :=
  ProjectileData.mk projectileId
    (Vector3.add (Camera.position camera)
       (Vector3.multiplyScalar (getWorldDirection camera) 0.5))
    (getWorldDirection camera) 50 (Weapon.damage weapon).

(** What the store's [attack] leaves in hand when [weapon] is equipped. *)
Definition charged (weapon : Weapon.t) : Weapon.t :=
  match Weapon.type weapon with
  | ranged => Weapon_with_ammo (Math_max 0 (clip weapon - 1)) weapon
  | melee => weapon
  end.

(** The fields the actions before the attack logic leave alone. *)
Definition same_body (s s' : PlayerState.t) : Prop :=
  PlayerState.position s' = PlayerState.position s
  /\ PlayerState.health s' = PlayerState.health s
  /\ PlayerState.stamina s' = PlayerState.stamina s
  /\ PlayerState.projectiles s' = PlayerState.projectiles s.

(** The store when the attack logic starts, with the timer of a reload. *)
Definition beforeAttack (keys : KeyState.t) (rendered : PlayerState.t)
    (delta : number) (refs : WeaponRefs.t) (s : PlayerState.t)
  : PlayerState.t * option number :=
  let s :=
    if PlayerState.attackCooldown rendered >? 0
    then PlayerState.updateAttackCooldown delta s
    else s in
  let s :=
    if KeyState.weaponSlot1 keys && negb (WeaponRefs.prevWeaponSlot1 refs)
    then PlayerState.equipWeapon "sword" s
    else s in
  let s :=
    if KeyState.weaponSlot2 keys && negb (WeaponRefs.prevWeaponSlot2 refs)
    then PlayerState.equipWeapon "pistol" s
    else s in
  if KeyState.reload keys && negb (WeaponRefs.prevReload refs)
     && isRanged (PlayerState.currentWeapon rendered)
     && negb (PlayerState.isReloading rendered)
  then PlayerState.reload s
  else (s, None).

(** ** The order of the enemies along a ray *)

Section RayOrderSpec.

Variables (rayOrigin rayDirection : Vector3.t) (maxDistance : number).

(** What the loop of [checkEnemyHit] has established after the entries
    [seen], with the place of the hit among them. *)
Definition first_inv (seen : JSMap EnemyData)
    (acc : option Hit.t * option number) : Prop :=
  match fst acc with
  | None =>
      snd acc = None
      /\ forall k e, In (k, e) seen ->
           ~ qualifies rayOrigin rayDirection maxDistance e
  | Some h =>
      snd acc = Some (Hit.distance h)
      /\ exists e before after,
           seen = before ++ (Hit.enemyId h, e) :: after
           /\ qualifies rayOrigin rayDirection maxDistance e
           /\ Hit.distance h = projection rayOrigin rayDirection e
           /\ (forall k' e', In (k', e') before ->
                 qualifies rayOrigin rayDirection maxDistance e' ->
                 projection rayOrigin rayDirection e
                 < projection rayOrigin rayDirection e')
           /\ (forall k' e', In (k', e') after ->
                 qualifies rayOrigin rayDirection maxDistance e' ->
                 projection rayOrigin rayDirection e
                 <= projection rayOrigin rayDirection e')
  end.

End RayOrderSpec.

(** The inputs of one frame of the weapon controller. *)
Module WeaponFrame.
Record t := mk {
  keys : KeyState.t;
  camera : Camera.t;
  delta : number;
  random : number;
  now : number;
  projectileId : nat
}.
End WeaponFrame.

Section WeaponRun.

Variable applyQuaternion : Vector3.t -> Quaternion.t -> Vector3.t.
Variable normalize : Vector3.t -> Vector3.t.
Variable getWorldDirection : Camera.t -> Vector3.t.


End WeaponRun.

(** * Scenarios *)

(** The first zombie of [Scene], spawned at [(10, 1, 0)]. *)
Definition sampleZombie : EnemyData :=
  {| id := "enemy-zombie-1";
     type := ZOMBIE;
     position := Vector3.mk 10 1 0;
     rotation := 0;
     stats := ENEMY_CONFIGS ZOMBIE;
     state := PATROL;
     target := None;
     patrolPoints := [Vector3.mk 20 1 0; Vector3.mk 10 1 10;
                      Vector3.mk 0 1 0; Vector3.mk 10 1 (-10)];
     currentPatrolIndex := 0;
     attackCooldown := 0;
     alertTime := 0;
     lastDamageTime := 0;
     respawnTime := 0 |}.

Definition zombieWorld : World :=
  mkWorld [("enemy-zombie-1"%string, sampleZombie)] [] 1 [].

(** Stand-ins for [normalize] and [Math.atan2] in scenarios whose
    handlers do not call them. *)
Definition no_normalize (v : Vector3.t) : Vector3.t := v.
Definition no_atan2 (_ _ : number) : number := 0.

(** The zombie killed by one blow of 2000. *)
Definition deadZombie : EnemyData :=
  with_state DEAD
    (with_stats (with_health 0 (stats sampleZombie)) sampleZombie).

Definition deadWorld : World :=
  mkWorld [("enemy-zombie-1"%string, deadZombie)]
    [DamageEvent.mk "enemy-zombie-1" 1904 false (Vector3.mk 10 1 0)] 1
    [(30000%Z, "enemy-zombie-1"%string)].

(** A zombie on alert, ten units from the player. *)
Definition alertZombie : EnemyAI :=
  mkEnemyAI (with_alertTime (1 # 2) (with_state ALERT sampleZombie)) None.


(** A zombie at 15% health chasing a player one unit away, well
    within its attack range of 2. *)
Definition woundedZombie : EnemyAI :=
  mkEnemyAI
    (with_position (Vector3.mk 1 2 0)
       (with_state CHASE
          (with_stats (with_health 15 (stats sampleZombie)) sampleZombie)))
    None.

(** Three enemies on the axis of a ray from the origin along
    [(0, 0, -1)]: behind the origin, one unit ahead, five units ahead. *)
Definition enemyAt (k : string) (p : Vector3.t) : string * EnemyData :=
  (k, mkEnemyData k ZOMBIE p 0 (ENEMY_CONFIGS ZOMBIE) PATROL None [p] 0 0 0 0 0).

Definition axisWorld : World :=
  mkWorld [enemyAt "behind" (Vector3.mk 0 0 1);
           enemyAt "far" (Vector3.mk 0 0 (-5));
           enemyAt "near" (Vector3.mk 0 0 (-1))] [] 3 [].

(** A sword configured never to crit and to add nothing on a crit. *)
Definition bluntSword : Weapon.t :=
  {| Weapon.id := "sword"; Weapon.name := "Iron Sword"; Weapon.type := melee;
     Weapon.damage := 25; Weapon.range := 2; Weapon.attackSpeed := 1.5;
     Weapon.staminaCost := Some 10; Weapon.ammo := None;
     Weapon.maxAmmo := None; Weapon.totalAmmo := None;
     Weapon.reloadTime := None; Weapon.critChance := Some 0;
     Weapon.critMultiplier := Some 0 |}.

(** The sword with a chance of -1: no value of [Math.random()] is
    below it. *)
Definition cursedSword : Weapon.t :=
  {| Weapon.id := "sword"; Weapon.name := "Iron Sword"; Weapon.type := melee;
     Weapon.damage := 25; Weapon.range := 2; Weapon.attackSpeed := 1.5;
     Weapon.staminaCost := Some 10; Weapon.ammo := None;
     Weapon.maxAmmo := None; Weapon.totalAmmo := None;
     Weapon.reloadTime := None; Weapon.critChance := Some (-1);
     Weapon.critMultiplier := Some 2.0 |}.

(** A weapon of damage 0.5 whose multiplier is the smallest positive
    double, [2 ^ -1074]. *)
Definition faintSword : Weapon.t :=
  {| Weapon.id := "sword"; Weapon.name := "Iron Sword"; Weapon.type := melee;
     Weapon.damage := 0.5; Weapon.range := 2; Weapon.attackSpeed := 1.5;
     Weapon.staminaCost := Some 10; Weapon.ammo := None;
     Weapon.maxAmmo := None; Weapon.totalAmmo := None;
     Weapon.reloadTime := None; Weapon.critChance := Some 0.15;
     Weapon.critMultiplier := Some (F64.pow2 (-1074)) |}.

(** Two zombies a unit apart and a bullet passing between them. *)
Definition pairWorld : World :=
  mkWorld [enemyAt "left" (Vector3.mk 0 1 0);
           enemyAt "right" (Vector3.mk 1 1 0)] [] 2 [].



(** A zombie in ATTACK with its cooldown run out, one unit from the
    player at [(0, 2, 0)]. *)
Definition strikingZombie : EnemyAI :=
  mkEnemyAI
    (with_position (Vector3.mk 1 2 0) (with_state ATTACK sampleZombie)) None.



(** [zombieWorld] with the zombie down to two health points. *)
Definition frailZombie : EnemyData :=
  with_stats (with_health 2 (stats sampleZombie)) sampleZombie.

Definition frailWorld : World :=
  mkWorld [("enemy-zombie-1"%string, frailZombie)] [] 1 [].



Definition switchAndAttack : KeyState.t :=
  KeyState.mk false false false false false false true false true false.

Definition noRefs : WeaponRefs.t := WeaponRefs.mk false false false.

(** A camera at the origin looking along [-z]; its rotation and its
    world direction as they are then. *)
Definition originCamera : Camera.t :=
  Camera.mk (Vector3.mk 0 0 0) (Quaternion.mk 0 0 0 1).

Definition no_rotation (v : Vector3.t) (_ : Quaternion.t) : Vector3.t := v.

Definition forwards (_ : Camera.t) : Vector3.t := Vector3.mk 0 0 (-1).



(** * Properties *)

Ltac case_if :=
  match goal with |- context [if ?c then _ else _] => destruct c eqn:? end.

(** ** Comparisons and [Math] *)

Lemma Qlt_bool_iff (a b : Q) : (a <? b) = true <-> a < b.
Proof.
  unfold Qlt_bool. rewrite negb_true_iff. split; intro H.
  - apply Qnot_le_lt. intro Hle. apply Qle_bool_iff in Hle. congruence.
  - destruct (Qle_bool b a) eqn:E; [|reflexivity].
    apply Qle_bool_iff in E. exfalso. revert E. apply Qlt_not_le. exact H.
Qed.

Lemma Qlt_bool_false (a b : Q) : (a <? b) = false <-> b <= a.
Proof.
  unfold Qlt_bool. rewrite negb_false_iff. apply Qle_bool_iff.
Qed.

Lemma Qle_bool_false (a b : Q) : (a <=? b) = false <-> b < a.
Proof.
  rewrite <- Qlt_bool_iff. unfold Qlt_bool.
  destruct (Qle_bool a b); simpl; split; congruence.
Qed.

Lemma Math_max_ge_l (a b : number) : a <= Math_max a b.
Proof. unfold Math_max. apply Q.le_max_l. Qed.

Lemma Math_max_ge_r (a b : number) : b <= Math_max a b.
Proof. unfold Math_max. apply Q.le_max_r. Qed.

Lemma Math_max_lub (a b c : number) : a <= c -> b <= c -> Math_max a b <= c.
Proof. unfold Math_max. apply Q.max_lub. Qed.

Lemma finalDamage_ge_1 (defense damage : number) : 1 <= finalDamage defense damage.
Proof. unfold finalDamage. apply Math_max_ge_l. Qed.

(** ** Binary64 rounding

    [F64.round] is rounding to nearest on a grid of multiples of
    [2 ^ F64.exponent x]: it is within half a last place of its
    argument, keeps the sign and the order, leaves the values of the
    grid (the doubles) as they are, and returns 0 only below half of
    the smallest double. *)

Lemma F64_pow2_spec (e : Z) : F64.pow2 e == 2 ^ e.
Proof.
  destruct e as [|p|p]; unfold F64.pow2.
  - reflexivity.
  - apply (Zpower_Qpower 2 (Zpos p)). lia.
  - change (2 ^ Zneg p) with (/ (2 ^ Zpos p)).
    rewrite <- (Zpower_Qpower 2 (Zpos p)) by lia.
    rewrite <- Pos2Z.inj_pow. reflexivity.
Qed.

Lemma F64_pow2_pos (e : Z) : 0 < F64.pow2 e.
Proof. rewrite F64_pow2_spec. apply Qpower_0_lt. reflexivity. Qed.

Lemma F64_pow2_add (a b : Z) : F64.pow2 (a + b) == F64.pow2 a * F64.pow2 b.
Proof. rewrite !F64_pow2_spec. apply Qpower_plus. discriminate. Qed.

Lemma F64_pow2_opp (a : Z) : F64.pow2 a * F64.pow2 (- a) == 1.
Proof.
  rewrite <- F64_pow2_add. rewrite Z.add_opp_diag_r. reflexivity.
Qed.

Lemma F64_pow2_le (a b : Z) : (a <= b)%Z -> F64.pow2 a <= F64.pow2 b.
Proof.
  intros H. rewrite !F64_pow2_spec. apply Qpower_le_compat_l; [exact H|].
  discriminate.
Qed.


Lemma F64_pow2_lt_inv (a b : Z) : F64.pow2 a < F64.pow2 b -> (a < b)%Z.
Proof.
  rewrite !F64_pow2_spec. intros H.
  apply (Qpower_lt_compat_l_inv 2); [exact H | reflexivity].
Qed.

Lemma F64_pow2_nonneg_Z (a : Z) : (0 <= a)%Z -> F64.pow2 a = inject_Z (2 ^ a).
Proof.
  destruct a as [|p|p]; intros H; [reflexivity | reflexivity | lia].
Qed.

Lemma F64_pow2_succ (a : Z) : F64.pow2 (a + 1) == 2 * F64.pow2 a.
Proof. rewrite F64_pow2_add. change (F64.pow2 1) with 2. ring. Qed.

Lemma F64_pow2_pred (a : Z) : 2 * F64.pow2 (a - 1) == F64.pow2 a.
Proof.
  rewrite <- F64_pow2_succ. replace (a - 1 + 1)%Z with a by lia. reflexivity.
Qed.

Lemma F64_mag_spec (x : Q) :
  ~ x == 0 ->
  F64.pow2 (F64.mag x) <= Qabs x /\ Qabs x < F64.pow2 (F64.mag x + 1).
Proof.
  intros Hx. unfold F64.mag.
  set (n := Z.abs (Qnum x)). set (d := Zpos (Qden x)).
  set (a := Z.log2 n). set (b := Z.log2 d).
  assert (Hn : (0 < n)%Z).
  { subst n. destruct x as [[|p|p] q]; simpl; try lia.
    exfalso. apply Hx. reflexivity. }
  assert (Hd : (0 < d)%Z) by (subst d; lia).
  destruct (Z.log2_spec n Hn) as [Ha1 Ha2]. fold a in Ha1, Ha2.
  destruct (Z.log2_spec d Hd) as [Hb1 Hb2]. fold b in Hb1, Hb2.
  assert (Ha0 : (0 <= a)%Z) by apply Z.log2_nonneg.
  assert (Hb0 : (0 <= b)%Z) by apply Z.log2_nonneg.
  assert (HX : Qabs x * inject_Z d == inject_Z n).
  { destruct x as [xn xd]. subst n d. simpl.
    unfold Qeq, Qmult, inject_Z. simpl. lia. }
  assert (HP : F64.pow2 (a - b) * F64.pow2 b == F64.pow2 a).
  { rewrite <- F64_pow2_add. replace (a - b + b)%Z with a by lia.
    reflexivity. }
  rewrite (F64_pow2_nonneg_Z a Ha0), (F64_pow2_nonneg_Z b Hb0) in HP.
  pose proof (F64_pow2_pos (a - b)) as HP0.
  assert (Qa1 : inject_Z (2 ^ a) <= inject_Z n)
    by (rewrite <- Zle_Qle; exact Ha1).
  assert (Qa2 : inject_Z n < 2 * inject_Z (2 ^ a)).
  { change 2 with (inject_Z 2). rewrite <- inject_Z_mult, <- Zlt_Qlt.
    rewrite Z.pow_succ_r in Ha2 by exact Ha0. exact Ha2. }
  assert (Qb1 : inject_Z (2 ^ b) <= inject_Z d)
    by (rewrite <- Zle_Qle; exact Hb1).
  assert (Qb2 : inject_Z d < 2 * inject_Z (2 ^ b)).
  { change 2 with (inject_Z 2). rewrite <- inject_Z_mult, <- Zlt_Qlt.
    rewrite Z.pow_succ_r in Hb2 by exact Hb0. exact Hb2. }
  assert (Qd0 : 0 < inject_Z d)
    by (change 0 with (inject_Z 0); rewrite <- Zlt_Qlt; exact Hd).
  assert (Qb0 : 0 < inject_Z (2 ^ b)).
  { change 0 with (inject_Z 0). rewrite <- Zlt_Qlt. lia. }
  pose proof (Qabs_nonneg x) as HX0.
  set (X := Qabs x) in *. set (P := F64.pow2 (a - b)) in *.
  set (D := inject_Z d) in *. set (N := inject_Z n) in *.
  set (A := inject_Z (2 ^ a)) in *. set (B := inject_Z (2 ^ b)) in *.
  assert (Hup : X < 2 * P).
  { apply (Qmult_lt_r _ _ D Qd0). nra. }
  assert (Hlo : P <= 2 * X).
  { apply (Qmult_le_r _ _ D Qd0). nra. }
  destruct (Qle_bool P X) eqn:E.
  - apply Qle_bool_iff in E. split; [exact E|].
    rewrite F64_pow2_succ. exact Hup.
  - assert (E' : X < P).
    { apply Qnot_le_lt. intros H. apply Qle_bool_iff in H. congruence. }
    split.
    + pose proof (F64_pow2_pred (a - b)) as Hpred. fold P in Hpred.
      lra.
    + replace (a - b - 1 + 1)%Z with (a - b)%Z by lia. exact E'.
Qed.

Lemma Qabs_le_0 (x : Q) : Qabs x <= 0 -> x == 0.
Proof.
  intros H. pose proof (Qle_Qabs x) as H1. pose proof (Qle_Qabs (- x)) as H2.
  rewrite Qabs_opp in H2. lra.
Qed.

Lemma F64_mag_unique (x : Q) (m : Z) :
  F64.pow2 m <= Qabs x -> Qabs x < F64.pow2 (m + 1) -> F64.mag x = m.
Proof.
  intros H1 H2.
  assert (Hx : ~ x == 0).
  { intros H0. rewrite H0 in H1. pose proof (F64_pow2_pos m).
    change (Qabs 0) with 0 in H1. lra. }
  destruct (F64_mag_spec x Hx) as [G1 G2].
  assert (A : (F64.mag x < m + 1)%Z)
    by (apply F64_pow2_lt_inv; lra).
  assert (B : (m < F64.mag x + 1)%Z)
    by (apply F64_pow2_lt_inv; lra).
  lia.
Qed.

Lemma F64_mag_comp (x y : Q) : x == y -> ~ x == 0 -> F64.mag x = F64.mag y.
Proof.
  intros Hxy Hx. symmetry. destruct (F64_mag_spec x Hx) as [G1 G2].
  apply F64_mag_unique; rewrite <- Hxy; assumption.
Qed.

Lemma F64_mag_le (x y : Q) :
  ~ x == 0 -> Qabs x <= Qabs y -> (F64.mag x <= F64.mag y)%Z.
Proof.
  intros Hx Hxy.
  assert (Hy : ~ y == 0).
  { intros H0. rewrite H0 in Hxy. change (Qabs 0) with 0 in Hxy.
    apply Hx. now apply Qabs_le_0. }
  destruct (F64_mag_spec x Hx) as [G1 _].
  destruct (F64_mag_spec y Hy) as [_ G2].
  assert (A : (F64.mag x < F64.mag y + 1)%Z)
    by (apply F64_pow2_lt_inv; lra).
  lia.
Qed.

(** ** Rounding to the nearest integer *)

Lemma F64_nearest_even_cases (y : Q) :
  let N := F64.nearest_even y in
  (inject_Z N - (1 # 2) < y /\ y < inject_Z N + (1 # 2))
  \/ ((y == inject_Z N - (1 # 2) \/ y == inject_Z N + (1 # 2))
      /\ Z.even N = true).
Proof.
  unfold F64.nearest_even.
  pose proof (Qfloor_le y) as H1. pose proof (Qlt_floor y) as H2.
  set (f := Qfloor y) in *.
  rewrite inject_Z_plus in H2. change (inject_Z 1) with 1 in H2.
  destruct (Qcompare_spec (y - inject_Z f) (1 # 2)) as [E|E|E].
  - destruct (Z.even f) eqn:Ev.
    + right. split; [right; lra | exact Ev].
    + right. rewrite inject_Z_plus. change (inject_Z 1) with 1.
      split; [left; lra|].
      rewrite Z.even_add, Ev. reflexivity.
  - left. lra.
  - left. rewrite inject_Z_plus. change (inject_Z 1) with 1. lra.
Qed.


Lemma F64_nearest_even_unique (y : Q) (N : Z) :
  (inject_Z N - (1 # 2) < y /\ y < inject_Z N + (1 # 2))
  \/ ((y == inject_Z N - (1 # 2) \/ y == inject_Z N + (1 # 2))
      /\ Z.even N = true) ->
  F64.nearest_even y = N.
Proof.
  intros HN. pose proof (F64_nearest_even_cases y) as HM. cbv zeta in HM.
  set (M := F64.nearest_even y) in *.
  assert (Hlt : forall a b : Z, inject_Z a < inject_Z b + 1 -> (a <= b)%Z).
  { intros a b H. change 1 with (inject_Z 1) in H.
    rewrite <- inject_Z_plus, <- Zlt_Qlt in H. lia. }
  assert (Heq : forall a b : Z, inject_Z a == inject_Z b + 1 -> a = (b + 1)%Z).
  { intros a b H. apply inject_Z_injective. rewrite inject_Z_plus. exact H. }
  assert (Hodd : forall a : Z, Z.even a = true -> Z.even (a + 1) = true -> False).
  { intros a Ha Hb. rewrite Z.even_add, Ha in Hb. discriminate. }
  destruct HN as [[N1 N2]|[[N1|N1] NE]]; destruct HM as [[M1 M2]|[[M1|M1] ME]].
  - assert (M <= N)%Z by (apply Hlt; lra).
    assert (N <= M)%Z by (apply Hlt; lra). lia.
  - assert (M <= N)%Z by (apply Hlt; lra).
    assert (N <= M)%Z by (apply Hlt; lra). lia.
  - assert (M <= N)%Z by (apply Hlt; lra).
    assert (N <= M)%Z by (apply Hlt; lra). lia.
  - assert (M <= N)%Z by (apply Hlt; lra).
    assert (N <= M)%Z by (apply Hlt; lra). lia.
  - apply inject_Z_injective. lra.
  - exfalso. apply (Hodd M ME). rewrite <- (Heq N M); [exact NE | lra].
  - assert (M <= N)%Z by (apply Hlt; lra).
    assert (N <= M)%Z by (apply Hlt; lra). lia.
  - exfalso. apply (Hodd N NE). rewrite <- (Heq M N); [exact ME | lra].
  - apply inject_Z_injective. lra.
Qed.

Lemma F64_nearest_even_comp (y y' : Q) :
  y == y' -> F64.nearest_even y = F64.nearest_even y'.
Proof.
  intros H. apply F64_nearest_even_unique. rewrite H.
  apply F64_nearest_even_cases.
Qed.

Lemma F64_nearest_even_Z (z : Z) : F64.nearest_even (inject_Z z) = z.
Proof. apply F64_nearest_even_unique. left. lra. Qed.

Lemma F64_nearest_even_opp (y : Q) :
  F64.nearest_even (- y) = (- F64.nearest_even y)%Z.
Proof.
  apply F64_nearest_even_unique. rewrite inject_Z_opp.
  destruct (F64_nearest_even_cases y) as [[H1 H2]|[[H|H] Ev]].
  - left. lra.
  - right. rewrite Z.even_opp. split; [right; lra | exact Ev].
  - right. rewrite Z.even_opp. split; [left; lra | exact Ev].
Qed.

Lemma F64_nearest_even_mono (y1 y2 : Q) :
  y1 <= y2 -> (F64.nearest_even y1 <= F64.nearest_even y2)%Z.
Proof.
  intros Hle.
  pose proof (F64_nearest_even_cases y1) as H1.
  pose proof (F64_nearest_even_cases y2) as H2. cbv zeta in H1, H2.
  set (N1 := F64.nearest_even y1) in *. set (N2 := F64.nearest_even y2) in *.
  assert (Hlt : forall a b : Z, inject_Z a < inject_Z b + 1 -> (a <= b)%Z).
  { intros a b H. change 1 with (inject_Z 1) in H.
    rewrite <- inject_Z_plus, <- Zlt_Qlt in H. lia. }
  destruct (Z_le_gt_dec N1 N2) as [Hok|Hgt]; [exact Hok|exfalso].
  assert (Hge : inject_Z N2 + 1 <= inject_Z N1).
  { change 1 with (inject_Z 1). rewrite <- inject_Z_plus, <- Zle_Qle. lia. }
  destruct H1 as [[A1 A2]|[[A|A] EA]]; destruct H2 as [[B1 B2]|[[B|B] EB]];
    try lra.
  (* both ties: y1 = N1 - 1/2 and y2 = N2 + 1/2, so N1 = N2 + 1 *)
  assert (E : N1 = (N2 + 1)%Z).
  { apply inject_Z_injective. rewrite inject_Z_plus.
    change (inject_Z 1) with 1. lra. }
  rewrite E, Z.even_add, EB in EA. discriminate.
Qed.

(** ** Rounding to a double *)

Lemma F64_round_zero_arg (x : Q) : x == 0 -> F64.round x = 0.
Proof.
  intros H. unfold F64.round. apply Qeq_bool_iff in H. now rewrite H.
Qed.

Lemma F64_round_nonzero (x : Q) :
  ~ x == 0 ->
  F64.round x
  == inject_Z (F64.nearest_even (x * F64.pow2 (- F64.exponent x)))
     * F64.pow2 (F64.exponent x).
Proof.
  intros H. unfold F64.round.
  destruct (Qeq_bool x 0) eqn:E.
  - apply Qeq_bool_iff in E. contradiction.
  - apply Qred_correct.
Qed.

Lemma F64_scaled (x : Q) (e : Z) :
  x * F64.pow2 (- e) * F64.pow2 e == x.
Proof.
  rewrite <- Qmult_assoc, (Qmult_comm (F64.pow2 (- e))), F64_pow2_opp.
  ring.
Qed.

Lemma F64_exponent_comp (x y : Q) :
  x == y -> ~ x == 0 -> F64.exponent x = F64.exponent y.
Proof.
  intros Hxy Hx. unfold F64.exponent. now rewrite (F64_mag_comp x y Hxy Hx).
Qed.

Lemma F64_round_comp (x y : Q) : x == y -> F64.round x == F64.round y.
Proof.
  intros Hxy. destruct (Qeq_dec x 0) as [H0|H0].
  - rewrite (F64_round_zero_arg x H0).
    rewrite (F64_round_zero_arg y); [reflexivity | lra].
  - assert (H0' : ~ y == 0) by (intros H; apply H0; lra).
    rewrite (F64_round_nonzero x H0), (F64_round_nonzero y H0').
    rewrite <- (F64_exponent_comp x y Hxy H0).
    rewrite (F64_nearest_even_comp (x * F64.pow2 (- F64.exponent x))
               (y * F64.pow2 (- F64.exponent x))); [reflexivity|].
    apply Qmult_comp; [exact Hxy | reflexivity].
Qed.


Lemma F64_round_nonneg (x : Q) : 0 <= x -> 0 <= F64.round x.
Proof.
  intros Hx. destruct (Qeq_dec x 0) as [H0|H0].
  - rewrite (F64_round_zero_arg x H0). apply Qle_refl.
  - rewrite (F64_round_nonzero x H0).
    apply Qmult_le_0_compat; [|apply Qlt_le_weak, F64_pow2_pos].
    change 0 with (inject_Z 0). rewrite <- Zle_Qle.
    rewrite <- (F64_nearest_even_Z 0). apply F64_nearest_even_mono.
    apply Qmult_le_0_compat; [exact Hx | apply Qlt_le_weak, F64_pow2_pos].
Qed.

Lemma F64_exponent_opp (x : Q) : F64.exponent (- x) = F64.exponent x.
Proof.
  unfold F64.exponent, F64.mag.
  destruct x as [n d]. simpl. rewrite Z.abs_opp. reflexivity.
Qed.

Lemma F64_round_opp (x : Q) : F64.round (- x) == - F64.round x.
Proof.
  destruct (Qeq_dec x 0) as [H0|H0].
  - rewrite (F64_round_zero_arg x H0).
    rewrite (F64_round_zero_arg (- x)); [reflexivity | lra].
  - assert (H0' : ~ - x == 0) by (intros H; apply H0; lra).
    rewrite (F64_round_nonzero x H0), (F64_round_nonzero _ H0').
    rewrite F64_exponent_opp.
    rewrite (F64_nearest_even_comp (- x * F64.pow2 (- F64.exponent x))
               (- (x * F64.pow2 (- F64.exponent x)))) by ring.
    rewrite F64_nearest_even_opp, inject_Z_opp. ring.
Qed.

Lemma F64_round_nonpos (x : Q) : x <= 0 -> F64.round x <= 0.
Proof.
  intros Hx. assert (H : 0 <= F64.round (- x)) by (apply F64_round_nonneg; lra).
  rewrite F64_round_opp in H. lra.
Qed.


Lemma F64_exponent_min (x : Q) : (-1074 <= F64.exponent x)%Z.
Proof. unfold F64.exponent. lia. Qed.

Lemma F64_exponent_mag (x : Q) : (F64.mag x - 52 <= F64.exponent x)%Z.
Proof. unfold F64.exponent. lia. Qed.

Lemma F64_pow2_Qabs (e : Z) (x : Q) :
  Qabs (x * F64.pow2 e) == Qabs x * F64.pow2 e.
Proof.
  rewrite Qabs_Qmult. rewrite (Qabs_pos (F64.pow2 e)); [reflexivity|].
  apply Qlt_le_weak, F64_pow2_pos.
Qed.

(** A multiple of the last place rounds to itself. *)
Lemma F64_round_fix (x : Q) (z : Z) :
  x * F64.pow2 (- F64.exponent x) == inject_Z z -> F64.round x == x.
Proof.
  intros Hz. destruct (Qeq_dec x 0) as [H0|H0].
  - rewrite (F64_round_zero_arg x H0). lra.
  - rewrite (F64_round_nonzero x H0).
    rewrite (F64_nearest_even_comp _ _ Hz), F64_nearest_even_Z, <- Hz.
    apply F64_scaled.
Qed.

Lemma F64_round_exact_lt (n k : Z) :
  (Z.abs n < 2 ^ 53)%Z -> (-1074 <= k)%Z ->
  F64.round (inject_Z n * F64.pow2 k) == inject_Z n * F64.pow2 k.
Proof.
  intros Hn Hk. set (x := inject_Z n * F64.pow2 k).
  destruct (Qeq_dec x 0) as [H0|H0].
  - rewrite (F64_round_zero_arg x H0). lra.
  - assert (He : (F64.exponent x <= k)%Z).
    { destruct (F64_mag_spec x H0) as [Hm _].
      assert (Hx : Qabs x < F64.pow2 (53 + k)).
      { unfold x. rewrite F64_pow2_Qabs, F64_pow2_add.
        apply Qmult_lt_compat_r; [apply F64_pow2_pos|].
        change (Qabs (inject_Z n)) with (inject_Z (Z.abs n)).
        change (F64.pow2 53) with (inject_Z (2 ^ 53)).
        rewrite <- Zlt_Qlt. exact Hn. }
      assert (Hlt : (F64.mag x < 53 + k)%Z) by (apply F64_pow2_lt_inv; lra).
      unfold F64.exponent. apply Z.max_lub; [|exact Hk].
      clear - Hlt. lia. }
    apply (F64_round_fix x (n * 2 ^ (k - F64.exponent x))).
    revert He. generalize (F64.exponent x) as e. intros e He.
    unfold x. rewrite <- Qmult_assoc, <- F64_pow2_add, inject_Z_mult.
    rewrite (F64_pow2_nonneg_Z (k + - e)) by lia.
    replace (k + - e)%Z with (k - e)%Z by lia.
    reflexivity.
Qed.

Lemma F64_round_pow2 (m : Z) :
  (-1074 <= m)%Z -> F64.round (F64.pow2 m) == F64.pow2 m.
Proof.
  intros Hm.
  rewrite (F64_round_comp (F64.pow2 m) (inject_Z 1 * F64.pow2 m))
    by (change (inject_Z 1) with 1; ring).
  rewrite (F64_round_exact_lt 1 m eq_refl Hm).
  change (inject_Z 1) with 1. ring.
Qed.

Lemma F64_round_le_pow2 (x : Q) (m : Z) :
  ~ x == 0 -> x <= F64.pow2 m -> (F64.exponent x <= m)%Z ->
  F64.round x <= F64.pow2 m.
Proof.
  intros H0 Hx He. rewrite (F64_round_nonzero x H0).
  set (e := F64.exponent x) in *.
  assert (Hy : x * F64.pow2 (- e) <= inject_Z (2 ^ (m - e))).
  { rewrite <- F64_pow2_nonneg_Z by lia.
    replace (m - e)%Z with (m + - e)%Z by lia. rewrite F64_pow2_add.
    apply Qmult_le_compat_r; [exact Hx | apply Qlt_le_weak, F64_pow2_pos]. }
  apply F64_nearest_even_mono in Hy. rewrite F64_nearest_even_Z in Hy.
  rewrite Zle_Qle in Hy.
  rewrite <- F64_pow2_nonneg_Z in Hy by lia.
  setoid_replace (F64.pow2 m) with (F64.pow2 (m - e) * F64.pow2 e)
    by (rewrite <- F64_pow2_add; replace (m - e + e)%Z with m by lia;
        reflexivity).
  apply Qmult_le_compat_r; [exact Hy | apply Qlt_le_weak, F64_pow2_pos].
Qed.

Lemma F64_round_ge_pow2 (x : Q) (m : Z) :
  F64.pow2 m <= x -> (F64.exponent x <= m)%Z ->
  F64.pow2 m <= F64.round x.
Proof.
  intros Hx He.
  assert (H0 : ~ x == 0).
  { intros H. pose proof (F64_pow2_pos m). lra. }
  rewrite (F64_round_nonzero x H0).
  set (e := F64.exponent x) in *.
  assert (Hy : inject_Z (2 ^ (m - e)) <= x * F64.pow2 (- e)).
  { rewrite <- F64_pow2_nonneg_Z by lia.
    replace (m - e)%Z with (m + - e)%Z by lia. rewrite F64_pow2_add.
    apply Qmult_le_compat_r; [exact Hx | apply Qlt_le_weak, F64_pow2_pos]. }
  apply F64_nearest_even_mono in Hy. rewrite F64_nearest_even_Z in Hy.
  rewrite Zle_Qle in Hy.
  rewrite <- F64_pow2_nonneg_Z in Hy by lia.
  setoid_replace (F64.pow2 m) with (F64.pow2 (m - e) * F64.pow2 e)
    by (rewrite <- F64_pow2_add; replace (m - e + e)%Z with m by lia;
        reflexivity).
  apply Qmult_le_compat_r; [exact Hy | apply Qlt_le_weak, F64_pow2_pos].
Qed.

Lemma F64_round_mono_pos (x y : Q) :
  0 < x -> x <= y -> F64.round x <= F64.round y.
Proof.
  intros Hx Hxy.
  assert (H0x : ~ x == 0) by (intros H; lra).
  assert (H0y : ~ y == 0) by (intros H; lra).
  assert (Hmag : (F64.mag x <= F64.mag y)%Z).
  { apply F64_mag_le; [exact H0x|]. rewrite !Qabs_pos by lra. exact Hxy. }
  destruct (Z.eq_dec (F64.exponent x) (F64.exponent y)) as [E|E].
  - rewrite (F64_round_nonzero x H0x), (F64_round_nonzero y H0y), E.
    apply Qmult_le_compat_r; [|apply Qlt_le_weak, F64_pow2_pos].
    rewrite <- Zle_Qle. apply F64_nearest_even_mono.
    apply Qmult_le_compat_r; [exact Hxy | apply Qlt_le_weak, F64_pow2_pos].
  - assert (Hlt : (F64.mag x < F64.mag y)%Z /\
                  F64.exponent y = (F64.mag y - 52)%Z /\
                  (F64.exponent x <= F64.mag y)%Z)
      by (unfold F64.exponent in *; lia).
    destruct Hlt as (Hlt & Ey & Ex).
    destruct (F64_mag_spec x H0x) as [_ Hx2].
    destruct (F64_mag_spec y H0y) as [Hy1 _].
    rewrite Qabs_pos in Hx2, Hy1 by lra.
    apply Qle_trans with (F64.pow2 (F64.mag y)).
    + apply F64_round_le_pow2; [exact H0x| |exact Ex].
      apply Qlt_le_weak. eapply Qlt_le_trans; [exact Hx2|].
      apply F64_pow2_le. lia.
    + apply F64_round_ge_pow2; [exact Hy1 | lia].
Qed.

(** Rounding keeps the order. *)
Lemma F64_round_mono (x y : Q) : x <= y -> F64.round x <= F64.round y.
Proof.
  intros Hxy.
  destruct (Qlt_le_dec 0 x) as [Hx|Hx].
  - now apply F64_round_mono_pos.
  - destruct (Qlt_le_dec y 0) as [Hy|Hy].
    + assert (H : F64.round (- y) <= F64.round (- x))
        by (apply F64_round_mono_pos; lra).
      rewrite !F64_round_opp in H. lra.
    + pose proof (F64_round_nonpos x Hx). pose proof (F64_round_nonneg y Hy).
      lra.
Qed.

(** Doubles: the values rounding leaves as they are. *)
Lemma F64_round_idem (x : Q) : F64.round (F64.round x) == F64.round x.
Proof.
  destruct (Qeq_dec x 0) as [H0|H0].
  - rewrite (F64_round_zero_arg x H0). reflexivity.
  - set (e := F64.exponent x).
    set (N := F64.nearest_even (x * F64.pow2 (- e))).
    assert (Hr : F64.round x == inject_Z N * F64.pow2 e)
      by apply (F64_round_nonzero x H0).
    assert (HN : (Z.abs N <= 2 ^ 53)%Z).
    { destruct (F64_mag_spec x H0) as [_ Hm].
      pose proof (F64_exponent_mag x) as He. fold e in He.
      assert (Hb : Qabs (x * F64.pow2 (- e)) <= inject_Z (2 ^ 53)).
      { rewrite F64_pow2_Qabs.
        change (inject_Z (2 ^ 53)) with (F64.pow2 53).
        setoid_replace (F64.pow2 53) with (F64.pow2 (53 + e) * F64.pow2 (- e))
          by (rewrite <- F64_pow2_add; replace (53 + e + - e)%Z with 53%Z by lia;
              reflexivity).
        apply Qmult_le_compat_r; [|apply Qlt_le_weak, F64_pow2_pos].
        apply Qlt_le_weak. eapply Qlt_le_trans; [exact Hm|].
        apply F64_pow2_le. lia. }
      apply Qabs_Qle_condition in Hb. destruct Hb as [Hb1 Hb2].
      apply F64_nearest_even_mono in Hb2. rewrite F64_nearest_even_Z in Hb2.
      rewrite <- inject_Z_opp in Hb1.
      apply F64_nearest_even_mono in Hb1. rewrite F64_nearest_even_Z in Hb1.
      fold N in Hb1, Hb2. lia. }
    rewrite (F64_round_comp _ _ Hr), Hr.
    destruct (Z.eq_dec (Z.abs N) (2 ^ 53)) as [E|E].
    + (* the significand carried into the next binade *)
      assert (E2 : inject_Z N * F64.pow2 e
                   == inject_Z (N / 2) * F64.pow2 (e + 1)).
      { rewrite F64_pow2_succ.
        assert (EN : N = (2 * (N / 2))%Z).
        { destruct (Z.abs_eq_or_opp N) as [A|A]; rewrite A in E.
          - rewrite E. reflexivity.
          - assert (N = (- 2 ^ 53)%Z) by lia. subst N. rewrite H. reflexivity. }
        rewrite EN at 1. rewrite inject_Z_mult. change (inject_Z 2) with 2.
        ring. }
      rewrite (F64_round_comp _ _ E2), E2.
      apply F64_round_exact_lt.
      * destruct (Z.abs_eq_or_opp N) as [A|A]; rewrite A in E.
        -- rewrite E. reflexivity.
        -- assert (H : N = (- 2 ^ 53)%Z) by lia. rewrite H. reflexivity.
      * pose proof (F64_exponent_min x). fold e in H. lia.
    + apply F64_round_exact_lt; [lia | apply F64_exponent_min].
Qed.

(** ** Roots and the real square root

    The comparisons of a [root] with a rational decide the comparisons
    of the real square root of its radicand, and the radicands that
    [distanceTo] and [length] produce are not negative. *)

Section RootSound.

Lemma sqrt_lt_iff (s r : R) :
  (0 <= s)%R -> ((0 < r /\ s < r * r) <-> sqrt s < r)%R.
Proof.
  intros Hs. split.
  - intros [Hr Hlt]. rewrite <- (sqrt_square r) by Lra.lra.
    apply sqrt_lt_1_alt. split; assumption.
  - intros Hlt. pose proof (sqrt_pos s) as Hp.
    split; [Lra.lra|].
    rewrite <- (sqrt_sqrt s Hs) at 1.
    apply Rmult_le_0_lt_compat; assumption.
Qed.

Lemma sqrt_le_iff (s r : R) :
  (0 <= s)%R -> ((0 <= r /\ s <= r * r) <-> sqrt s <= r)%R.
Proof.
  intros Hs. split.
  - intros [Hr Hle]. rewrite <- (sqrt_square r) by Lra.lra.
    apply sqrt_le_1_alt. assumption.
  - intros Hle. pose proof (sqrt_pos s) as Hp.
    split; [Lra.lra|].
    rewrite <- (sqrt_sqrt s Hs) at 1.
    apply Rmult_le_compat; assumption.
Qed.

Lemma Q2R_nonneg (s : Q) : 0 <= s -> (0 <= Q2R s)%R.
Proof. intros H. apply Qle_Rle in H. now rewrite RMicromega.Q2R_0 in H. Qed.

Lemma root_ltb_sqrt (s r : number) :
  0 <= s -> (root_ltb (Sqrt s) r = true <-> (sqrt (Q2R s) < Q2R r)%R).
Proof.
  intros Hs. unfold root_ltb. simpl.
  rewrite andb_true_iff, !Qlt_bool_iff, <- sqrt_lt_iff by now apply Q2R_nonneg.
  rewrite <- Q2R_mult, <- RMicromega.Q2R_0.
  split; intros [H1 H2]; split;
    auto using Qlt_Rlt, Rlt_Qlt.
Qed.

Lemma root_leb_sqrt (s r : number) :
  0 <= s -> (root_leb (Sqrt s) r = true <-> (sqrt (Q2R s) <= Q2R r)%R).
Proof.
  intros Hs. unfold root_leb. simpl.
  rewrite andb_true_iff, !Qle_bool_iff, <- sqrt_le_iff by now apply Q2R_nonneg.
  rewrite <- Q2R_mult, <- RMicromega.Q2R_0.
  split; intros [H1 H2]; split;
    auto using Qle_Rle, Rle_Qle.
Qed.

Lemma root_gtb_sqrt (s r : number) :
  0 <= s -> (root_gtb (Sqrt s) r = true <-> (Q2R r < sqrt (Q2R s))%R).
Proof.
  intros Hs. unfold root_gtb. rewrite negb_true_iff.
  pose proof (root_leb_sqrt s r Hs) as H.
  destruct (root_leb (Sqrt s) r); split; intros H'.
  - discriminate.
  - exfalso. apply (Rlt_not_le _ _ H'). now apply H.
  - apply Rnot_le_lt. intros Hle. apply H in Hle. discriminate.
  - reflexivity.
Qed.

Lemma square_nonneg (a : Q) : 0 <= a * a.
Proof.
  destruct (Qlt_le_dec a 0) as [Hn|Hp].
  - setoid_replace (a * a) with ((- a) * (- a)) by ring.
    apply Qmult_le_0_compat; lra.
  - now apply Qmult_le_0_compat.
Qed.

Lemma distanceToSquared_nonneg (a v : Vector3.t) :
  0 <= radicand (Vector3.distanceTo a v).
Proof.
  simpl. unfold Vector3.distanceToSquared.
  pose proof (square_nonneg (Vector3.x a - Vector3.x v)).
  pose proof (square_nonneg (Vector3.y a - Vector3.y v)).
  pose proof (square_nonneg (Vector3.z a - Vector3.z v)).
  cbv zeta. lra.
Qed.

Lemma length_nonneg (a : Vector3.t) : 0 <= radicand (Vector3.length a).
Proof.
  simpl. unfold Vector3.lengthSq.
  pose proof (square_nonneg (Vector3.x a)).
  pose proof (square_nonneg (Vector3.y a)).
  pose proof (square_nonneg (Vector3.z a)).
  lra.
Qed.

(** [a.distanceTo(v) < r] in the model is the comparison of the
    Euclidean distance with [r]. *)
Lemma distanceTo_lt (a v : Vector3.t) (r : number) :
  root_ltb (Vector3.distanceTo a v) r = true
  <-> (sqrt (Q2R (Vector3.distanceToSquared a v)) < Q2R r)%R.
Proof. apply root_ltb_sqrt. apply (distanceToSquared_nonneg a v). Qed.

Lemma distanceTo_le (a v : Vector3.t) (r : number) :
  root_leb (Vector3.distanceTo a v) r = true
  <-> (sqrt (Q2R (Vector3.distanceToSquared a v)) <= Q2R r)%R.
Proof. apply root_leb_sqrt. apply (distanceToSquared_nonneg a v). Qed.

End RootSound.

(** ** The map *)

Section JSMapFacts.
Context {V : Type}.
Implicit Types (m : JSMap V) (k : string) (v : V).

Lemma Map_get_set_same k v m : Map_get k (Map_set k v m) = Some v.
Proof.
  induction m as [|[k' v'] m IH]; simpl.
  - now rewrite String.eqb_refl.
  - destruct (String.eqb k k') eqn:E; simpl; rewrite E; auto.
Qed.

Lemma Map_get_set_other k k' v m :
  k <> k' -> Map_get k' (Map_set k v m) = Map_get k' m.
Proof.
  intros Hne. induction m as [|[k0 v0] m IH]; simpl.
  - destruct (String.eqb k' k) eqn:E; auto.
    apply String.eqb_eq in E. congruence.
  - destruct (String.eqb k k0) eqn:E; simpl.
    + apply String.eqb_eq in E. subst k0.
      destruct (String.eqb k' k) eqn:E'; auto.
      apply String.eqb_eq in E'. congruence.
    + now rewrite IH.
Qed.




Lemma Map_keys_set k v m :
  Map_get k m <> None -> Map_keys (Map_set k v m) = Map_keys m.
Proof.
  induction m as [|[k0 v0] m IH]; simpl; [congruence|].
  destruct (String.eqb k k0) eqn:E; simpl; auto.
  intros H. f_equal. now apply IH.
Qed.

End JSMapFacts.

Lemma AIState_eqb_eq (a b : AIState) : AIState_eqb a b = true <-> a = b.
Proof. destruct a, b; simpl; split; congruence. Qed.

Lemma AIState_eqb_neq (a b : AIState) : AIState_eqb a b = false <-> a <> b.
Proof. destruct a, b; simpl; split; congruence. Qed.

(** ** [damageEnemy] *)

Lemma damageEnemy_alive (id : string) (raw : number) (crit : option bool)
    (now : number) (w : World) (e : EnemyData) :
  Map_get id (enemies w) = Some e -> state e <> DEAD ->
  let w' := damageEnemy id raw crit now w in
  enemies w' = Map_set id (damaged raw now e) (enemies w)
  /\ damageEvents w' =
       damageEvents w ++
         [DamageEvent.mk id (finalDamage (defense (stats e)) raw)
            (default_arg false crit) (position e)]
  /\ enemyIdCounter w' = enemyIdCounter w
  /\ timeouts w' =
       if health (stats (damaged raw now e)) <=? 0
       then timeouts w ++ [(30000%Z, id)] else timeouts w.
Proof.
  intros Hget Halive. unfold damageEnemy. rewrite Hget.
  apply AIState_eqb_neq in Halive. rewrite Halive. simpl.
  destruct (Math_max 0 (health (stats e) - finalDamage (defense (stats e)) raw)
            <=? 0) eqn:E; simpl; unfold damaged; rewrite ?E; simpl; auto.
Qed.

Lemma damageEnemy_dead (id : string) (raw : number) (crit : option bool)
    (now : number) (w : World) (e : EnemyData) :
  Map_get id (enemies w) = Some e -> state e = DEAD ->
  damageEnemy id raw crit now w = w.
Proof.
  intros Hget Hdead. unfold damageEnemy. rewrite Hget, Hdead. reflexivity.
Qed.

Lemma damageEnemy_missing (id : string) (raw : number) (crit : option bool)
    (now : number) (w : World) :
  Map_get id (enemies w) = None -> damageEnemy id raw crit now w = w.
Proof. intros Hget. unfold damageEnemy. now rewrite Hget. Qed.

(** C1.  For an enemy [e] stored under [id] and not [DEAD],
    [damageEnemy id raw isCritical] leaves it with health
    [max 0 (health - finalDamage)], where
    [finalDamage = max 1 (floor (raw * (1 - defense / (defense + 100))))],
    the sum, the quotient, the difference and the product each rounded
    to a double as the code computes them, is also the amount the damage
    event reports; the new health is never below 0.  With defense 5 and
    raw damage 25 the final damage is 23; with defense 27 and raw damage
    127 it is 99, the product being the double just below 100; and for
    every defense [>= 0] and every positive raw damage the final damage
    is at least 1, never 0. *)
Theorem damageEnemy_mitigated_damage
    (w : World) (id : string) (e : EnemyData) (raw : number)
    (isCritical : option bool) (now : number)
    (Hget : Map_get id (enemies w) = Some e)
    (Halive : state e <> DEAD) :
  let mitigated (defense rawDamage : number) :=
    Math_max 1
      (Math_floor
         (F64.mul rawDamage
            (F64.sub 1 (F64.div defense (F64.add defense 100))))) in
  let w' := damageEnemy id raw isCritical now w in
  (exists e',
      Map_get id (enemies w') = Some e'
      /\ health (stats e')
         = Math_max 0 (health (stats e) - mitigated (defense (stats e)) raw)
      /\ 0 <= health (stats e')
      /\ exists ev, damageEvents w' = damageEvents w ++ [ev]
           /\ DamageEvent.enemyId ev = id
           /\ DamageEvent.damage ev = mitigated (defense (stats e)) raw)
  /\ (forall defense rawDamage,
        finalDamage defense rawDamage = mitigated defense rawDamage)
  /\ mitigated 5 25 == 23
  /\ mitigated 27 127 == 99
  /\ (forall defense rawDamage, 0 <= defense -> 0 < rawDamage ->
        1 <= mitigated defense rawDamage
        /\ ~ mitigated defense rawDamage == 0).
Proof.
  intros mitigated w'.
  destruct (damageEnemy_alive id raw isCritical now w e Hget Halive)
    as (Hen & Hev & _ & _).
  fold w' in Hen, Hev.
  split; [|split; [|split; [|split]]].
  - exists (damaged raw now e). rewrite Hen, Map_get_set_same.
    split; [reflexivity|]. split; [reflexivity|]. split.
    + simpl. apply Math_max_ge_l.
    + eexists. split; [exact Hev|]. split; reflexivity.
  - reflexivity.
  - vm_compute. reflexivity.
  - vm_compute. reflexivity.
  - intros d r _ _. split.
    + apply (finalDamage_ge_1 d r).
    + intros H0. pose proof (finalDamage_ge_1 d r) as H1.
      change (finalDamage d r == 0) in H0. rewrite H0 in H1.
      revert H1. apply Qlt_not_le. reflexivity.
Qed.

(** ** The health invariant *)








(** [damageEnemy] marks an enemy [DEAD] exactly when its health has
    reached 0. *)
Lemma damaged_dead_iff (raw now : number) (e : EnemyData) :
  state e <> DEAD ->
  (state (damaged raw now e) = DEAD <-> health (stats (damaged raw now e)) == 0).
Proof.
  intros Halive. unfold damaged. simpl.
  set (h := Math_max 0 (health (stats e) - finalDamage (defense (stats e)) raw)).
  pose proof (Math_max_ge_l 0 (health (stats e)
                               - finalDamage (defense (stats e)) raw)) as H0.
  fold h in H0.
  destruct (h <=? 0) eqn:E; simpl.
  - apply Qle_bool_iff in E. split; [intros _; now apply Qle_antisym | reflexivity].
  - apply Qle_bool_false in E. split; [contradiction|].
    intros Hz. rewrite Hz in E. exfalso. revert E. apply Qlt_irrefl.
Qed.




(** ** Dead enemies and respawn *)

Lemma update_dead (normalize : Vector3.t -> Vector3.t)
    (Math_atan2 : number -> number -> number) (delta : number)
    (ai : EnemyAI) (player : Player.t) :
  state (enemy ai) = DEAD ->
  update normalize Math_atan2 delta ai player = Some (ai, player).
Proof. intros Hdead. unfold update. now rewrite Hdead. Qed.

Lemma respawnEnemy_present (id : string) (w : World) (e : EnemyData)
    (p0 : Vector3.t) :
  Map_get id (enemies w) = Some e ->
  nth_error (patrolPoints e) 0 = Some p0 ->
  respawnEnemy id w
  = Some (set_enemies (Map_set id (respawned p0 e) (enemies w)) w).
Proof.
  intros Hget Hp. unfold respawnEnemy. rewrite Hget, Hp. reflexivity.
Qed.


(** C7.  [respawnEnemy id] on a stored enemy (whose [patrolPoints[0]]
    exists) replaces its record by one with [position = patrolPoints[0]],
    [health = maxHealth], [state = PATROL], [target = null],
    [currentPatrolIndex = 0], both timers 0, and every other field
    ([id], [type], [patrolPoints], the remaining stats, [rotation],
    [lastDamageTime], [respawnTime]) as before; the other enemies, the
    damage events, the id counter and the timers are untouched.  For an
    id that is not in the store it changes nothing. *)
Theorem respawnEnemy_resets_enemy (w : World) (eid : string) :
  (Map_get eid (enemies w) = None -> respawnEnemy eid w = Some w)
  /\ (forall e p0,
        Map_get eid (enemies w) = Some e ->
        nth_error (patrolPoints e) 0 = Some p0 ->
        exists w' e',
          respawnEnemy eid w = Some w'
          /\ Map_get eid (enemies w') = Some e'
          /\ position e' = p0
          /\ health (stats e') = maxHealth (stats e)
          /\ state e' = PATROL
          /\ target e' = None
          /\ currentPatrolIndex e' = 0%nat
          /\ attackCooldown e' = 0
          /\ alertTime e' = 0
          /\ id e' = id e
          /\ type e' = type e
          /\ patrolPoints e' = patrolPoints e
          /\ maxHealth (stats e') = maxHealth (stats e)
          /\ speed (stats e') = speed (stats e)
          /\ damage (stats e') = damage (stats e)
          /\ attackRange (stats e') = attackRange (stats e)
          /\ detectionRange (stats e') = detectionRange (stats e)
          /\ attackSpeed (stats e') = attackSpeed (stats e)
          /\ defense (stats e') = defense (stats e)
          /\ rotation e' = rotation e
          /\ lastDamageTime e' = lastDamageTime e
          /\ respawnTime e' = respawnTime e
          /\ (forall k, k <> eid ->
                Map_get k (enemies w') = Map_get k (enemies w))
          /\ Map_keys (enemies w') = Map_keys (enemies w)
          /\ damageEvents w' = damageEvents w
          /\ enemyIdCounter w' = enemyIdCounter w
          /\ timeouts w' = timeouts w).
Proof.
  split.
  - intros Hget. unfold respawnEnemy. now rewrite Hget.
  - intros e p0 Hget Hp. rewrite (respawnEnemy_present eid w e p0 Hget Hp).
    exists (set_enemies (Map_set eid (respawned p0 e) (enemies w)) w).
    exists (respawned p0 e).
    split; [reflexivity|]. simpl. rewrite Map_get_set_same.
    repeat (split; [reflexivity|]).
    split.
    + intros k Hk. now apply Map_get_set_other.
    + split; [|repeat split].
      apply Map_keys_set. congruence.
Qed.

(** ** The AI step *)

Section AIFacts.

Variable normalize : Vector3.t -> Vector3.t.
Variable Math_atan2 : number -> number -> number.

Lemma transitionToState_state (s : AIState) (ai : EnemyAI) :
  state (enemy (transitionToState s ai)) = s.
Proof.
  unfold transitionToState.
  destruct (AIState_eqb (state (enemy ai)) s) eqn:E.
  - now apply AIState_eqb_eq.
  - destruct s; reflexivity.
Qed.




Lemma alert_outcome (delta : number) (ai : EnemyAI) :
  state (enemy ai) = ALERT ->
  alertTime (enemy (alert delta ai)) = 1.0
  /\ state (enemy (alert delta ai))
     = match playerPosition ai with
       | Some p =>
           if root_ltb (Vector3.distanceTo (position (enemy ai)) p)
                (detectionRange (stats (enemy ai)))
           then CHASE else ALERT
       | None => ALERT
       end.
Proof.
  intros Halert. unfold alert.
  destruct (playerPosition ai) as [p|] eqn:Hp; simpl; rewrite ?Hp.
  - destruct (root_ltb (Vector3.distanceTo (position (enemy ai)) p)
                (detectionRange (stats (enemy ai)))) eqn:Hd.
    + unfold transitionToState; simpl. rewrite Halert; simpl. split; reflexivity.
    + simpl. split; [reflexivity | exact Halert].
  - split; [reflexivity | exact Halert].
Qed.

Lemma updateTimers_state (delta : number) (ai : EnemyAI) :
  state (enemy (updateTimers delta ai)) = state (enemy ai).
Proof.
  unfold updateTimers.
  destruct (attackCooldown (enemy ai) >? 0); simpl;
    match goal with |- context [if ?c then _ else _] => destruct c end;
    reflexivity.
Qed.

Lemma updateTimers_playerPosition (delta : number) (ai : EnemyAI) :
  playerPosition (updateTimers delta ai) = playerPosition ai.
Proof.
  unfold updateTimers.
  destruct (attackCooldown (enemy ai) >? 0); simpl;
    match goal with |- context [if ?c then _ else _] => destruct c end;
    reflexivity.
Qed.



Lemma updateTimers_stats (delta : number) (ai : EnemyAI) :
  stats (enemy (updateTimers delta ai)) = stats (enemy ai)
  /\ position (enemy (updateTimers delta ai)) = position (enemy ai).
Proof.
  unfold updateTimers.
  destruct (attackCooldown (enemy ai) >? 0); simpl;
    match goal with |- context [if ?c then _ else _] => destruct c end;
    split; reflexivity.
Qed.

(** C4.  A step of an enemy in state [ALERT] always succeeds, leaves
    the player store alone and ends in [ALERT] or [CHASE] ([CHASE]
    exactly when the player is within [detectionRange]), never in
    [PATROL], with [alertTime] re-armed to 1.0: the expiry test that
    guards the fallback to [PATROL] is never met, whatever [delta]. *)
Theorem alert_never_falls_back_to_patrol
    (delta : number) (ai : EnemyAI) (player : Player.t)
    (Halert : state (enemy ai) = ALERT) :
  exists ai',
    update normalize Math_atan2 delta ai player = Some (ai', player)
    /\ (state (enemy ai') = ALERT \/ state (enemy ai') = CHASE)
    /\ state (enemy ai') <> PATROL
    /\ alertTime (enemy ai') = 1.0
    /\ (alertTime (enemy ai') <=? 0) = false
    /\ state (enemy ai')
       = if root_ltb
              (Vector3.distanceTo (position (enemy ai)) (Player.position player))
              (detectionRange (stats (enemy ai)))
         then CHASE else ALERT.
Proof.
  unfold update. rewrite Halert. simpl.
  set (ai0 := updateTimers delta
                (mkEnemyAI (enemy ai) (Some (Player.position player)))).
  assert (Hs : state (enemy ai0) = ALERT)
    by (unfold ai0; now rewrite updateTimers_state).
  rewrite Hs. eexists. split; [reflexivity|].
  destruct (alert_outcome delta ai0 Hs) as [Ht Hst].
  unfold ai0 in Hst at 2 3 4.
  rewrite updateTimers_playerPosition in Hst.
  destruct (updateTimers_stats delta
              (mkEnemyAI (enemy ai) (Some (Player.position player))))
    as [Hstats Hpos].
  rewrite Hstats, Hpos in Hst. simpl in Hst.
  rewrite Ht, Hst.
  match goal with |- context [if ?c then _ else _] => destruct c end;
    repeat split; auto; discriminate.
Qed.












Lemma chase_low_health (delta : number) (ai : EnemyAI) (p : Vector3.t) :
  playerPosition ai = Some p ->
  health (stats (enemy ai)) < maxHealth (stats (enemy ai)) * 0.2 ->
  chase normalize Math_atan2 delta ai = transitionToState FLEE ai.
Proof.
  intros Hp Hlow. unfold chase. rewrite Hp.
  apply Qlt_bool_iff in Hlow. now rewrite Hlow.
Qed.

(** C9.  A step of an enemy in state [CHASE] whose health is below
    [0.2 * maxHealth] ends in [FLEE]: the low-health test comes before
    the attack-range test, so this holds wherever the player stands
    (within [attackRange] too); the enemy does not move or turn, and
    the player is not damaged. *)
Theorem chase_low_health_flees
    (delta : number) (ai : EnemyAI) (player : Player.t)
    (Hchase : state (enemy ai) = CHASE)
    (Hlow : health (stats (enemy ai)) < 0.2 * maxHealth (stats (enemy ai))) :
  exists ai',
    update normalize Math_atan2 delta ai player = Some (ai', player)
    /\ state (enemy ai') = FLEE
    /\ state (enemy ai') <> ATTACK
    /\ position (enemy ai') = position (enemy ai)
    /\ rotation (enemy ai') = rotation (enemy ai)
    /\ stats (enemy ai') = stats (enemy ai).
Proof.
  unfold update. rewrite Hchase. simpl.
  set (ai0 := updateTimers delta
                (mkEnemyAI (enemy ai) (Some (Player.position player)))).
  assert (Hs : state (enemy ai0) = CHASE)
    by (unfold ai0; now rewrite updateTimers_state).
  destruct (updateTimers_stats delta
              (mkEnemyAI (enemy ai) (Some (Player.position player))))
    as [Hstats Hpos].
  fold ai0 in Hstats, Hpos. simpl in Hstats, Hpos.
  rewrite Hs. eexists. split; [reflexivity|].
  rewrite (chase_low_health delta ai0 (Player.position player)).
  - unfold transitionToState. rewrite Hs. simpl.
    rewrite Hstats, Hpos.
    repeat split; try discriminate.
    unfold ai0, updateTimers. repeat case_if; reflexivity.
  - unfold ai0. now rewrite updateTimers_playerPosition.
  - rewrite Hstats. lra.
Qed.

End AIFacts.

(** ** The scenarios, and the claims at them *)

Example spawn_first_zombie :
  spawnEnemy ZOMBIE (Vector3.mk 10 1 0) initialWorld
  = ("enemy-zombie-1"%string, zombieWorld).
Proof. vm_compute. reflexivity. Qed.

Lemma damageEnemy_mitigated_damage_witness :
  Map_get "enemy-zombie-1" (enemies zombieWorld) = Some sampleZombie
  /\ state sampleZombie <> DEAD
  /\ exists e',
       Map_get "enemy-zombie-1"
         (enemies (damageEnemy "enemy-zombie-1" 25 None 0 zombieWorld))
       = Some e'
       /\ health (stats e') == 77.
Proof.
  split; [reflexivity|]. split; [discriminate|].
  destruct (damageEnemy_mitigated_damage zombieWorld "enemy-zombie-1"
              sampleZombie 25 None 0 eq_refl ltac:(discriminate))
    as [(e' & Hget & Hh & _) _].
  exists e'. split; [exact Hget|]. rewrite Hh. vm_compute. reflexivity.
Defined.



Example kill_zombie :
  damageEnemy "enemy-zombie-1" 2000 None 0 zombieWorld = deadWorld.
Proof. vm_compute. reflexivity. Qed.


Lemma respawnEnemy_resets_enemy_witness :
  Map_get "enemy-zombie-1" (enemies deadWorld) = Some deadZombie
  /\ nth_error (patrolPoints deadZombie) 0 = Some (Vector3.mk 20 1 0)
  /\ Map_get "enemy-zombie-9" (enemies deadWorld) = None
  /\ respawnEnemy "enemy-zombie-9" deadWorld = Some deadWorld
  /\ exists w' e',
       respawnEnemy "enemy-zombie-1" deadWorld = Some w'
       /\ Map_get "enemy-zombie-1" (enemies w') = Some e'
       /\ position e' = Vector3.mk 20 1 0
       /\ health (stats e') = 100
       /\ state e' = PATROL.
Proof.
  split; [reflexivity|]. split; [reflexivity|]. split; [reflexivity|].
  split.
  - exact (proj1 (respawnEnemy_resets_enemy deadWorld "enemy-zombie-9")
             eq_refl).
  - destruct (proj2 (respawnEnemy_resets_enemy deadWorld "enemy-zombie-1")
                deadZombie (Vector3.mk 20 1 0) eq_refl eq_refl)
      as (w' & e' & Hr & Hget & Hpos & Hh & Hst & _).
    exists w', e'. repeat split; assumption.
Defined.

Lemma alert_never_falls_back_to_patrol_witness :
  state (enemy alertZombie) = ALERT
  /\ exists ai',
       update no_normalize no_atan2 2 alertZombie Player.initial
       = Some (ai', Player.initial)
       /\ state (enemy ai') <> PATROL
       /\ alertTime (enemy ai') = 1.0.
Proof.
  split; [reflexivity|].
  destruct (alert_never_falls_back_to_patrol no_normalize no_atan2 2
              alertZombie Player.initial eq_refl)
    as (ai' & Hu & _ & Hnp & Ht & _).
  exists ai'. repeat split; assumption.
Defined.



Lemma chase_low_health_flees_witness :
  state (enemy woundedZombie) = CHASE
  /\ health (stats (enemy woundedZombie))
     < 0.2 * maxHealth (stats (enemy woundedZombie))
  /\ root_leb
       (Vector3.distanceTo (position (enemy woundedZombie))
          (Player.position Player.initial))
       (attackRange (stats (enemy woundedZombie))) = true
  /\ exists ai',
       update no_normalize no_atan2 (1 # 60) woundedZombie Player.initial
       = Some (ai', Player.initial)
       /\ state (enemy ai') = FLEE.
Proof.
  split; [reflexivity|]. split; [reflexivity|]. split; [reflexivity|].
  destruct (chase_low_health_flees no_normalize no_atan2 (1 # 60)
              woundedZombie Player.initial eq_refl eq_refl)
    as (ai' & Hu & Hs & _).
  exists ai'. split; assumption.
Defined.

(** At 20% health or more the same zombie attacks. *)
Example chase_healthy_attacks :
  option_map (fun r => state (enemy (fst r)))
    (update no_normalize no_atan2 (1 # 60)
       (assign (with_stats (with_health 20 (stats sampleZombie))) woundedZombie)
       Player.initial)
  = Some ATTACK.
Proof. vm_compute. reflexivity. Qed.

(** ** [checkEnemyHit] *)

Section RayHit.

Variables (rayOrigin rayDirection : Vector3.t) (maxDistance : number).

Lemma qualifiesb_iff (e : EnemyData) :
  qualifiesb rayOrigin rayDirection maxDistance e = true
  <-> qualifies rayOrigin rayDirection maxDistance e.
Proof.
  unfold qualifiesb, qualifies.
  rewrite !andb_true_iff, !negb_true_iff, !Qlt_bool_false, AIState_eqb_neq.
  rewrite Qle_bool_iff.
  tauto.
Qed.

Lemma checkEnemyHit_body_step (e : EnemyData) (k : string)
    (acc : option Hit.t * option number) :
  checkEnemyHit_body rayOrigin rayDirection maxDistance e k acc
  = if qualifiesb rayOrigin rayDirection maxDistance e
       && lt_closest (projection rayOrigin rayDirection e) (snd acc)
    then (Some (Hit.mk k (projection rayOrigin rayDirection e)),
          Some (projection rayOrigin rayDirection e))
    else acc.
Proof.
  unfold checkEnemyHit_body, qualifiesb, perpendicular, projection,
    Vector3.clone.
  cbv zeta.
  set (p := Vector3R.dot _ _).
  set (d := Vector3R.distanceTo _ _).
  destruct (AIState_eqb (state e) DEAD); cbn [negb andb]; [reflexivity|].
  destruct (p <? 0); cbn [negb andb]; [reflexivity|].
  destruct (p >? maxDistance); cbn [negb andb]; reflexivity.
Qed.

Lemma hit_inv_step (seen : JSMap EnemyData) (k : string) (e : EnemyData)
    (acc : option Hit.t * option number) :
  hit_inv rayOrigin rayDirection maxDistance seen acc ->
  hit_inv rayOrigin rayDirection maxDistance (seen ++ [(k, e)])
    (checkEnemyHit_body rayOrigin rayDirection maxDistance e k acc).
Proof.
  intros Hinv. rewrite checkEnemyHit_body_step.
  destruct acc as [[h|] cd]; unfold hit_inv in *; simpl in *.
  - destruct Hinv as (-> & e0 & Hin0 & Hq0 & Hd0 & Hmin). simpl.
    destruct (qualifiesb rayOrigin rayDirection maxDistance e) eqn:Hq; simpl.
    + apply qualifiesb_iff in Hq.
      destruct (projection rayOrigin rayDirection e <? Hit.distance h) eqn:Hlt; simpl.
      * apply Qlt_bool_iff in Hlt. split; [reflexivity|].
        exists e. split; [apply in_or_app; right; now left|].
        split; [exact Hq|]. split; [reflexivity|].
        intros k' e' Hin Hq'. apply in_app_or in Hin.
        destruct Hin as [Hin|[[= <- <-]|[]]]; [|apply Qle_refl].
        apply Qlt_le_weak. eapply Qlt_le_trans; [exact Hlt|]. eauto.
      * apply Qlt_bool_false in Hlt. split; [reflexivity|].
        exists e0. split; [apply in_or_app; now left|].
        split; [exact Hq0|]. split; [exact Hd0|].
        intros k' e' Hin Hq'. apply in_app_or in Hin.
        destruct Hin as [Hin|[[= <- <-]|[]]]; eauto.
    + split; [reflexivity|].
      exists e0. split; [apply in_or_app; now left|].
      split; [exact Hq0|]. split; [exact Hd0|].
      intros k' e' Hin Hq'. apply in_app_or in Hin.
      destruct Hin as [Hin|[[= <- <-]|[]]]; eauto.
      apply qualifiesb_iff in Hq'. congruence.
  - destruct Hinv as (-> & Hnone). simpl.
    destruct (qualifiesb rayOrigin rayDirection maxDistance e) eqn:Hq; simpl.
    + apply qualifiesb_iff in Hq. split; [reflexivity|].
      exists e. split; [apply in_or_app; right; now left|].
      split; [exact Hq|]. split; [reflexivity|].
      intros k' e' Hin Hq'. apply in_app_or in Hin.
      destruct Hin as [Hin|[[= <- <-]|[]]]; [|apply Qle_refl].
      exfalso. eapply Hnone; eauto.
    + split; [reflexivity|].
      intros k' e' Hin Hq'. apply in_app_or in Hin.
      destruct Hin as [Hin|[[= <- <-]|[]]]; [eapply Hnone; eauto|].
      apply qualifiesb_iff in Hq'. congruence.
Qed.

Lemma hit_inv_forEach (rest seen : JSMap EnemyData)
    (acc : option Hit.t * option number) :
  hit_inv rayOrigin rayDirection maxDistance seen acc ->
  hit_inv rayOrigin rayDirection maxDistance (seen ++ rest)
    (Map_forEach (checkEnemyHit_body rayOrigin rayDirection maxDistance)
       rest acc).
Proof.
  revert seen acc. induction rest as [|[k e] rest IH]; intros seen acc Hinv.
  - now rewrite app_nil_r.
  - unfold Map_forEach in *. simpl.
    replace (seen ++ (k, e) :: rest) with ((seen ++ [(k, e)]) ++ rest)
      by (rewrite <- app_assoc; reflexivity).
    apply IH. now apply hit_inv_step.
Qed.

Lemma checkEnemyHit_inv (w : World) :
  match checkEnemyHit rayOrigin rayDirection maxDistance w with
  | None =>
      forall k e, In (k, e) (enemies w) ->
                  ~ qualifies rayOrigin rayDirection maxDistance e
  | Some h =>
      exists e,
        In (Hit.enemyId h, e) (enemies w)
        /\ qualifies rayOrigin rayDirection maxDistance e
        /\ Hit.distance h = projection rayOrigin rayDirection e
        /\ forall k' e', In (k', e') (enemies w) ->
             qualifies rayOrigin rayDirection maxDistance e' ->
             Hit.distance h <= projection rayOrigin rayDirection e'
  end.
Proof.
  unfold checkEnemyHit.
  assert (H0 : hit_inv rayOrigin rayDirection maxDistance [] (None, None))
    by (split; [reflexivity | intros ? ? []]).
  pose proof (hit_inv_forEach (enemies w) [] (None, None) H0) as H.
  simpl in H. unfold hit_inv in H.
  destruct (fst (Map_forEach _ (enemies w) (None, None))) as [h|];
    tauto.
Qed.

End RayHit.

(** C3.  [checkEnemyHit] returns the nearest qualifying enemy along the
    ray.  An enemy qualifies when it is not [DEAD], its projection [t]
    onto the ray direction satisfies [0 <= t <= maxDistance] and its
    distance to the ray at [t] is at most 1.  A returned hit names a
    stored enemy that qualifies, reports its [t], and no qualifying
    enemy has a smaller [t] (whatever their distances to the ray);
    nothing is returned exactly when no enemy qualifies; for a lone
    enemy a hit is returned if and only if it qualifies.  With origin
    [(0,0,0)], direction [(0,0,-1)] and range 2, a living enemy at
    [(0,0,-1)] qualifies and enemies at [(0,0,1)] and [(0,0,-5)] do
    not, so of the three only the first is hit, at distance 1. *)
Theorem checkEnemyHit_nearest_qualifying
    (rayOrigin rayDirection : Vector3.t) (maxDistance : number) (w : World) :
  let ok := qualifies rayOrigin rayDirection maxDistance in
  let t := projection rayOrigin rayDirection in
  let result := checkEnemyHit rayOrigin rayDirection maxDistance w in
  (forall h, result = Some h ->
     exists e,
       In (Hit.enemyId h, e) (enemies w)
       /\ ok e
       /\ Hit.distance h = t e
       /\ forall k' e', In (k', e') (enemies w) -> ok e' ->
            Hit.distance h <= t e')
  /\ (result = None <-> forall k e, In (k, e) (enemies w) -> ~ ok e)
  /\ (forall k e,
        (exists h,
            checkEnemyHit rayOrigin rayDirection maxDistance
              (mkWorld [(k, e)] (damageEvents w) (enemyIdCounter w)
                 (timeouts w)) = Some h
            /\ Hit.enemyId h = k /\ Hit.distance h = t e)
        <-> ok e)
  /\ (let o := Vector3.mk 0 0 0 in
      let d := Vector3.mk 0 0 (-1) in
      (forall e, position e = Vector3.mk 0 0 (-1) -> state e <> DEAD ->
         qualifies o d 2 e /\ projection o d e == 1)
      /\ (forall e, position e = Vector3.mk 0 0 1 ->
            ~ qualifies o d 2 e)
      /\ (forall e, position e = Vector3.mk 0 0 (-5) ->
            ~ qualifies o d 2 e)
      /\ checkEnemyHit o d 2 axisWorld = Some (Hit.mk "near" 1)).
Proof.
  intros ok t result.
  pose proof (checkEnemyHit_inv rayOrigin rayDirection maxDistance w) as Hinv.
  fold result in Hinv.
  split; [|split; [|split]].
  - intros h Hr. rewrite Hr in Hinv. exact Hinv.
  - split.
    + intros Hr. rewrite Hr in Hinv. exact Hinv.
    + intros Hnone. destruct result as [h|]; [|reflexivity].
      destruct Hinv as (e & Hin & Hq & _). exfalso. eapply Hnone; eauto.
  - intros k e. unfold checkEnemyHit, Map_forEach. simpl.
    rewrite checkEnemyHit_body_step. simpl. rewrite andb_true_r.
    destruct (qualifiesb rayOrigin rayDirection maxDistance e) eqn:Hq; simpl.
    + apply qualifiesb_iff in Hq. split; [intros _; exact Hq|].
      intros _. eexists. repeat split.
    + split.
      * intros (h & Hh & _). discriminate.
      * intros Hq'.
        unfold ok in Hq'. apply qualifiesb_iff in Hq'. congruence.
  - intros o d. split; [|split; [|split]].
    + intros e Hpos Halive.
      unfold qualifies, perpendicular, projection. rewrite Hpos.
      split; [|vm_compute; reflexivity].
      split; [exact Halive|].
      split; [vm_compute; discriminate|].
      split; [vm_compute; discriminate|].
      vm_compute. discriminate.
    + intros e Hpos (_ & H & _). revert H.
      unfold projection. rewrite Hpos. vm_compute. intros H. now apply H.
    + intros e Hpos (_ & _ & H & _). revert H.
      unfold projection. rewrite Hpos. vm_compute. intros H. now apply H.
    + vm_compute. reflexivity.
Qed.

Lemma checkEnemyHit_nearest_qualifying_witness :
  checkEnemyHit (Vector3.mk 0 0 0) (Vector3.mk 0 0 (-1)) 2 axisWorld
  = Some (Hit.mk "near" 1)
  /\ exists e,
       In ("near"%string, e) (enemies axisWorld)
       /\ qualifies (Vector3.mk 0 0 0) (Vector3.mk 0 0 (-1)) 2 e
       /\ forall k' e', In (k', e') (enemies axisWorld) ->
            qualifies (Vector3.mk 0 0 0) (Vector3.mk 0 0 (-1)) 2 e' ->
            1 <= projection (Vector3.mk 0 0 0) (Vector3.mk 0 0 (-1)) e'.
Proof.
  split; [reflexivity|].
  destruct (proj1 (checkEnemyHit_nearest_qualifying (Vector3.mk 0 0 0)
                     (Vector3.mk 0 0 (-1)) 2 axisWorld)
              (Hit.mk "near" 1) eq_refl)
    as (e & Hin & Hq & _ & Hmin).
  exists e. split; [exact Hin|]. split; [exact Hq|]. exact Hmin.
Defined.

(** Nearest along the ray wins, not nearest to the ray: of two
    qualifying enemies the one with the smaller projection is hit,
    though the other lies exactly on the ray. *)
Example nearest_along_ray_wins :
  option_map Hit.enemyId
    (checkEnemyHit (Vector3.mk 0 0 0) (Vector3.mk 0 0 (-1)) 2
       (mkWorld [enemyAt "onAxis" (Vector3.mk 0 0 (-2));
                 enemyAt "offAxis" (Vector3.mk (9 # 10) 0 (-1))] [] 2 []))
  = Some "offAxis"%string.
Proof. vm_compute. reflexivity. Qed.

(** ** [performMeleeAttack] *)

Lemma or_default_zero (q d : number) : q == 0 -> or_default (Some q) d = d.
Proof.
  intros Hq. unfold or_default. apply Qeq_bool_iff in Hq. now rewrite Hq.
Qed.




(** C10 as stated fails twice.  A [critChance] of -1 is truthy, so it
    is not replaced by 0.1, and no [Math.random()] is below it: the
    weapon never crits.  And a multiplier that is not 0 can still give
    a product that is: 0.5 times the smallest double rounds to 0. *)
Lemma crit_never_or_zero_counterexample :
  (Weapon.critChance cursedSword = Some (-1)
   /\ (forall random, 0 <= random -> rollCrit cursedSword random = false)
   /\ ~ (exists random,
           0 <= random /\ random < 1 /\ rollCrit cursedSword random = true))
  /\ (~ Weapon.damage faintSword == 0
      /\ ~ or_default (Weapon.critMultiplier faintSword) 2.0 == 0
      /\ meleeDamage faintSword true == 0).
Proof.
  assert (H : forall random, 0 <= random -> rollCrit cursedSword random = false).
  { intros random Hr. unfold rollCrit. apply Qlt_bool_false.
    change (or_default (Weapon.critChance cursedSword) 0.1) with (-1).
    apply Qle_trans with 0; [discriminate | exact Hr]. }
  split; [split; [reflexivity|split; [exact H|]]|].
  - intros (random & H0 & _ & Hc). rewrite (H random H0) in Hc. discriminate.
  - split; [discriminate|]. split; [discriminate|].
    vm_compute. reflexivity.
Qed.



(** ** The projectile *)




Lemma Map_get_NoDup {V : Type} (k : string) (v : V) (m : JSMap V) :
  NoDup (Map_keys m) -> In (k, v) m -> Map_get k m = Some v.
Proof.
  induction m as [|[k0 v0] m IH]; simpl; [intros _ []|].
  intros Hnd [[= -> ->]|Hin].
  - now rewrite String.eqb_refl.
  - inversion Hnd as [|? ? Hnotin Hnd']; subst.
    destruct (String.eqb k k0) eqn:E.
    + apply String.eqb_eq in E. subst k0. exfalso. apply Hnotin.
      unfold Map_keys. change k with (fst (k, v)). now apply in_map.
    + now apply IH.
Qed.

Section ProjectileFacts.

Variables (props : ProjectileData.t) (pos : Vector3.t) (now : number).

Let body := projectile_body props pos now.





End ProjectileFacts.







(** * Further properties of the code *)

(** ** The enemy store: keys and ids *)

Lemma Map_keys_delete_incl {V : Type} (k k' : string) (m : JSMap V) :
  In k' (Map_keys (Map_delete k m)) -> In k' (Map_keys m).
Proof.
  induction m as [|[k0 v0] m IH]; simpl; auto.
  destruct (String.eqb k k0); simpl; intuition.
Qed.

Lemma Map_keys_delete_NoDup {V : Type} (k : string) (m : JSMap V) :
  NoDup (Map_keys m) -> NoDup (Map_keys (Map_delete k m)).
Proof.
  induction m as [|[k0 v0] m IH]; simpl; auto.
  intros Hnd. inversion Hnd as [|? ? Hk Hnd']; subst.
  destruct (String.eqb k k0); simpl; auto.
  constructor; auto. intros Hin. apply Hk.
  now apply Map_keys_delete_incl in Hin.
Qed.

Lemma Map_get_None_keys {V : Type} (k : string) (m : JSMap V) :
  Map_get k m = None <-> ~ In k (Map_keys m).
Proof.
  induction m as [|[k0 v0] m IH]; simpl; [tauto|].
  destruct (String.eqb k k0) eqn:E.
  - apply String.eqb_eq in E. subst. split; [discriminate | tauto].
  - apply String.eqb_neq in E. rewrite IH. split.
    + intros H [?|?]; [congruence | contradiction].
    + tauto.
Qed.

Lemma Map_keys_set_new {V : Type} (k : string) (v : V) (m : JSMap V) :
  Map_get k m = None -> Map_keys (Map_set k v m) = Map_keys m ++ [k].
Proof.
  induction m as [|[k0 v0] m IH]; simpl; [reflexivity|].
  destruct (String.eqb k k0) eqn:E; [discriminate|].
  intros H. simpl. f_equal. now apply IH.
Qed.

Lemma Map_get_delete_same {V : Type} (k : string) (m : JSMap V) :
  NoDup (Map_keys m) -> Map_get k (Map_delete k m) = None.
Proof.
  induction m as [|[k0 v0] m IH]; simpl; [reflexivity|].
  intros Hnd. inversion Hnd as [|? ? Hk Hnd']; subst.
  destruct (String.eqb k k0) eqn:E; simpl.
  - apply String.eqb_eq in E. subst. now apply Map_get_None_keys.
  - rewrite E. now apply IH.
Qed.

Lemma Map_get_delete_other {V : Type} (k k' : string) (m : JSMap V) :
  k <> k' -> Map_get k' (Map_delete k m) = Map_get k' m.
Proof.
  intros Hne. induction m as [|[k0 v0] m IH]; simpl; [reflexivity|].
  destruct (String.eqb k k0) eqn:E; simpl.
  - apply String.eqb_eq in E. subst k0.
    destruct (String.eqb k' k) eqn:E'; [|reflexivity].
    apply String.eqb_eq in E'. congruence.
  - now rewrite IH.
Qed.

Lemma Map_delete_missing {V : Type} (k : string) (m : JSMap V) :
  Map_get k m = None -> Map_delete k m = m.
Proof.
  induction m as [|[k0 v0] m IH]; simpl; [reflexivity|].
  destruct (String.eqb k k0); [discriminate|].
  intros H. f_equal. now apply IH.
Qed.

(** The keys after each action. *)
Lemma updateEnemy_keys (id : string) (updates : PartialEnemyData) (w : World) :
  Map_keys (enemies (updateEnemy id updates w)) = Map_keys (enemies w)
  /\ enemyIdCounter (updateEnemy id updates w) = enemyIdCounter w.
Proof.
  unfold updateEnemy. destruct (Map_get id (enemies w)) eqn:E; [|auto].
  simpl. split; [|reflexivity]. apply Map_keys_set. congruence.
Qed.

Lemma damageEnemy_keys (id : string) (raw : number) (crit : option bool)
    (now : number) (w : World) :
  Map_keys (enemies (damageEnemy id raw crit now w)) = Map_keys (enemies w)
  /\ enemyIdCounter (damageEnemy id raw crit now w) = enemyIdCounter w.
Proof.
  destruct (Map_get id (enemies w)) as [e|] eqn:Hget.
  - destruct (AIState_eqb (state e) DEAD) eqn:Hd.
    + apply AIState_eqb_eq in Hd.
      now rewrite (damageEnemy_dead _ _ _ _ _ e).
    + apply AIState_eqb_neq in Hd.
      destruct (damageEnemy_alive id raw crit now w e Hget Hd)
        as (Hen & _ & Hc & _).
      rewrite Hen, Hc. split; [|reflexivity]. apply Map_keys_set. congruence.
  - now rewrite damageEnemy_missing.
Qed.

Lemma respawnEnemy_keys (id : string) (w w' : World) :
  respawnEnemy id w = Some w' ->
  Map_keys (enemies w') = Map_keys (enemies w)
  /\ enemyIdCounter w' = enemyIdCounter w.
Proof.
  unfold respawnEnemy. destruct (Map_get id (enemies w)) as [e|] eqn:Hget.
  - destruct (nth_error (patrolPoints e) 0); [|discriminate].
    intros [= <-]. simpl. split; [|reflexivity].
    apply Map_keys_set. congruence.
  - now intros [= <-].
Qed.

Lemma spawnEnemy_id (type : EnemyType) (position : Vector3.t) (w : World) :
  fst (spawnEnemy type position w)
  = enemyIdOf type (N.succ (enemyIdCounter w)).
Proof. reflexivity. Qed.

Lemma spawnEnemy_world (type : EnemyType) (position : Vector3.t) (w : World) :
  snd (spawnEnemy type position w)
  = mkWorld
      (Map_set (enemyIdOf type (N.succ (enemyIdCounter w)))
         (spawnedEnemy type position (N.succ (enemyIdCounter w))) (enemies w))
      (damageEvents w) (N.succ (enemyIdCounter w)) (timeouts w).
Proof. destruct type; reflexivity. Qed.

Lemma enemyIdOf_inj (t t' : EnemyType) (n n' : N) :
  enemyIdOf t n = enemyIdOf t' n' -> t = t' /\ n = n'.
Proof.
  unfold enemyIdOf. destruct t, t'; simpl; intros H;
    try discriminate; injection H as H;
    (split; [reflexivity|]);
    apply DecimalN.Unsigned.to_uint_inj;
    assert (H' : Some (N.to_uint n) = Some (N.to_uint n'))
      by (rewrite <- !NilEmpty.usu; now rewrite H);
    now injection H'.
Qed.

Lemma perform_keys_cases (a : Action) (w : World) :
  (exists type position, a = Store (SpawnEnemy type position))
  \/ (enemyIdCounter (perform a w) = enemyIdCounter w
      /\ (Map_keys (enemies (perform a w)) = Map_keys (enemies w)
          \/ exists id, a = Store (RemoveEnemy id))).
Proof.
  destruct a as [[type position|id|id raw crit now|id s| |id]|id updates];
    simpl.
  - left. eauto.
  - right. split; [reflexivity|]. right. eauto.
  - right. destruct (damageEnemy_keys id raw crit now w). auto.
  - right. destruct (updateEnemy_keys id
                       (mkPartial None None None None None (Some s) None None
                          None None None None None) w). auto.
  - right. auto.
  - right. destruct (respawnEnemy id w) as [w'|] eqn:E; [|auto].
    destruct (respawnEnemy_keys id w w' E). auto.
  - right. destruct (updateEnemy_keys id updates w). auto.
Qed.

Lemma perform_ids_bounded (a : Action) (w : World) :
  ids_bounded w -> ids_bounded (perform a w).
Proof.
  intros Hb.
  destruct (perform_keys_cases a w)
    as [(type & position & ->)|[Hc [Hk|(id & ->)]]].
  - intros k Hin. cbn [perform dispatch] in *.
    rewrite spawnEnemy_world in *. cbn [enemies enemyIdCounter] in *.
    destruct (Map_get (enemyIdOf type (N.succ (enemyIdCounter w))) (enemies w))
      eqn:Hget.
    + rewrite Map_keys_set in Hin by congruence.
      destruct (Hb k Hin) as (t & n & -> & Hn).
      exists t, n. split; [reflexivity|]. lia.
    + rewrite Map_keys_set_new in Hin by exact Hget.
      apply in_app_or in Hin. destruct Hin as [Hin|[<-|[]]].
      * destruct (Hb k Hin) as (t & n & -> & Hn).
        exists t, n. split; [reflexivity|]. lia.
      * exists type, (N.succ (enemyIdCounter w)). split; [reflexivity|].
        lia.
  - intros k Hin. rewrite Hk in Hin. rewrite Hc. now apply Hb.
  - intros k Hin. simpl in *. apply Map_keys_delete_incl in Hin. now apply Hb.
Qed.

Lemma spawnEnemy_fresh (type : EnemyType) (position : Vector3.t) (w : World) :
  ids_bounded w ->
  Map_get (fst (spawnEnemy type position w)) (enemies w) = None.
Proof.
  intros Hb. rewrite spawnEnemy_id. apply Map_get_None_keys. intros Hin.
  destruct (Hb _ Hin) as (t & n & Heq & Hn).
  apply enemyIdOf_inj in Heq. destruct Heq as [_ <-]. lia.
Qed.

Lemma perform_keys_NoDup (a : Action) (w : World) :
  ids_bounded w ->
  NoDup (Map_keys (enemies w)) -> NoDup (Map_keys (enemies (perform a w))).
Proof.
  intros Hb Hnd.
  destruct (perform_keys_cases a w)
    as [(type & position & ->)|[Hc [Hk|(id & ->)]]].
  - cbn [perform dispatch]. rewrite spawnEnemy_world. cbn [enemies].
    pose proof (spawnEnemy_fresh type position w Hb) as Hfresh.
    rewrite spawnEnemy_id in Hfresh.
    rewrite Map_keys_set_new by exact Hfresh.
    apply NoDup_app; [exact Hnd | repeat constructor; intros [] |].
    intros k Hin [<-|[]]. apply Map_get_None_keys in Hfresh. contradiction.
  - now rewrite Hk.
  - simpl. now apply Map_keys_delete_NoDup.
Qed.

Lemma initialWorld_ids_bounded : ids_bounded initialWorld.
Proof. intros k []. Qed.

Lemma performAll_invariant (actions : list Action) (w : World) :
  ids_bounded w /\ NoDup (Map_keys (enemies w)) ->
  ids_bounded (performAll actions w)
  /\ NoDup (Map_keys (enemies (performAll actions w))).
Proof.
  revert w. induction actions as [|a actions IH]; intros w [Hb Hnd]; simpl.
  - auto.
  - apply IH. split; [now apply perform_ids_bounded|].
    now apply perform_keys_NoDup.
Qed.

Lemma reachable_invariant (w : World) :
  reachable w -> ids_bounded w /\ NoDup (Map_keys (enemies w)).
Proof.
  intros (actions & ->). apply performAll_invariant.
  split; [apply initialWorld_ids_bounded | constructor].
Qed.

Lemma reachable_perform (a : Action) (w : World) :
  reachable w -> reachable (perform a w).
Proof.
  intros (actions & ->). exists (actions ++ [a]).
  unfold performAll. now rewrite fold_left_app.
Qed.

(** X1.  Whatever calls were made on the store since it was created,
    no two enemies share a key, and [spawnEnemy] returns an id that is
    not in the store: the new enemy is added at the end, in state
    [PATROL] at full health, every record already stored is kept, and
    no entry is overwritten. *)
Theorem spawnEnemy_returns_fresh_id
    (w : World) (type : EnemyType) (position : Vector3.t)
    (Hreach : reachable w) :
  let r := spawnEnemy type position w in
  NoDup (Map_keys (enemies w))
  /\ Map_get (fst r) (enemies w) = None
  /\ Map_keys (enemies (snd r)) = Map_keys (enemies w) ++ [fst r]
  /\ NoDup (Map_keys (enemies (snd r)))
  /\ (forall k, k <> fst r ->
        Map_get k (enemies (snd r)) = Map_get k (enemies w))
  /\ (exists e, Map_get (fst r) (enemies (snd r)) = Some e
        /\ id e = fst r
        /\ state e = PATROL
        /\ health (stats e) = maxHealth (ENEMY_CONFIGS type)
        /\ List.length (patrolPoints e) = 4%nat)
  /\ damageEvents (snd r) = damageEvents w
  /\ timeouts (snd r) = timeouts w.
Proof.
  intros r. destruct (reachable_invariant w Hreach) as [Hb Hnd].
  pose proof (spawnEnemy_fresh type position w Hb) as Hfresh. fold r in Hfresh.
  pose proof (spawnEnemy_world type position w) as Hw. fold r in Hw.
  pose proof (spawnEnemy_id type position w) as Hid. fold r in Hid.
  rewrite <- Hid in Hw.
  assert (Hk : Map_keys (enemies (snd r)) = Map_keys (enemies w) ++ [fst r])
    by (rewrite Hw; cbn [enemies]; now apply Map_keys_set_new).
  split; [exact Hnd|]. split; [exact Hfresh|]. split; [exact Hk|].
  split.
  { destruct (reachable_invariant _
                (reachable_perform (Store (SpawnEnemy type position)) w Hreach))
      as [_ H]. exact H. }
  split.
  { intros k Hne. rewrite Hw. cbn [enemies]. apply Map_get_set_other. auto. }
  rewrite Hw. cbn [enemies damageEvents timeouts].
  split; [|split; reflexivity].
  rewrite Map_get_set_same. eexists. split; [reflexivity|].
  rewrite Hid. repeat split; try reflexivity. destruct type; reflexivity.
Qed.

Lemma set_enemies_same (w : World) : set_enemies (enemies w) w = w.
Proof. now destruct w. Qed.

Lemma removeEnemy_missing (k : string) (w : World) :
  Map_get k (enemies w) = None -> removeEnemy k w = w.
Proof.
  intros H. unfold removeEnemy. rewrite Map_delete_missing by exact H.
  apply set_enemies_same.
Qed.

Lemma updateEnemy_missing (k : string) (updates : PartialEnemyData) (w : World) :
  Map_get k (enemies w) = None -> updateEnemy k updates w = w.
Proof. intros H. unfold updateEnemy. now rewrite H. Qed.

Lemma respawnEnemy_missing (k : string) (w : World) :
  Map_get k (enemies w) = None -> respawnEnemy k w = Some w.
Proof. intros H. unfold respawnEnemy. now rewrite H. Qed.

Lemma perform_retired (k : string) (a : Action) (w : World) :
  retired k w -> retired k (perform a w).
Proof.
  intros (Hnone & t & n & -> & Hn).
  destruct (perform_keys_cases a w)
    as [(type & position & ->)|[Hc [Hk|(id & ->)]]].
  - cbn [perform dispatch]. rewrite spawnEnemy_world.
    split; cbn [enemies enemyIdCounter].
    + rewrite Map_get_set_other; [exact Hnone|].
      intros Heq. apply enemyIdOf_inj in Heq. destruct Heq as [_ Heq]. lia.
    + exists t, n. split; [reflexivity | lia].
  - split.
    + apply Map_get_None_keys. rewrite Hk. now apply Map_get_None_keys.
    + exists t, n. split; [reflexivity | lia].
  - split.
    + apply Map_get_None_keys. intros Hin. simpl in Hin.
      apply Map_keys_delete_incl in Hin. now apply Map_get_None_keys in Hnone.
    + exists t, n. split; [reflexivity | simpl in *; lia].
Qed.

Lemma performAll_retired (k : string) (actions : list Action) (w : World) :
  retired k w -> retired k (performAll actions w).
Proof.
  revert w. induction actions as [|a actions IH]; intros w H; simpl; auto.
  apply IH. now apply perform_retired.
Qed.

(** X2.  Ids are never reused: once an enemy of the store has been
    removed, no later sequence of calls (spawns included) brings its id
    back, and every later [damageEnemy], [updateEnemy], [respawnEnemy]
    (so also the respawn timer armed at its death) and [removeEnemy] on
    that id leaves the world exactly as it is. *)
Theorem removed_enemy_never_returns
    (w : World) (k : string) (actions : list Action)
    (Hreach : reachable w)
    (Hin : In k (Map_keys (enemies w))) :
  let w' := performAll actions (removeEnemy k w) in
  Map_get k (enemies w') = None
  /\ (forall damage isCritical now,
        damageEnemy k damage isCritical now w' = w')
  /\ (forall updates, updateEnemy k updates w' = w')
  /\ respawnEnemy k w' = Some w'
  /\ removeEnemy k w' = w'
  /\ fst (spawnEnemy ZOMBIE (Vector3.mk 0 0 0) w') <> k
  /\ fst (spawnEnemy BANDIT (Vector3.mk 0 0 0) w') <> k.
Proof.
  intros w'. destruct (reachable_invariant w Hreach) as [Hb Hnd].
  assert (Hret : retired k (removeEnemy k w)).
  { split.
    - simpl. now apply Map_get_delete_same.
    - destruct (Hb k Hin) as (t & n & -> & Hn). exists t, n. auto. }
  apply (performAll_retired k actions) in Hret. fold w' in Hret.
  destruct Hret as (Hnone & t & n & Hk & Hn).
  split; [exact Hnone|].
  split; [intros; now apply damageEnemy_missing|].
  split; [intros; now apply updateEnemy_missing|].
  split; [now apply respawnEnemy_missing|].
  split; [now apply removeEnemy_missing|].
  split; rewrite spawnEnemy_id, Hk; intros Heq;
    apply enemyIdOf_inj in Heq; destruct Heq as [_ Heq]; lia.
Qed.

(** ** The enemy store: damage, death and respawn *)

Lemma damageEnemy_get (id : string) (raw : number) (crit : option bool)
    (now : number) (w : World) (e : EnemyData) :
  Map_get id (enemies w) = Some e -> state e <> DEAD ->
  Map_get id (enemies (damageEnemy id raw crit now w))
  = Some (damaged raw now e).
Proof.
  intros Hget Halive.
  destruct (damageEnemy_alive id raw crit now w e Hget Halive) as (Hen & _).
  rewrite Hen. apply Map_get_set_same.
Qed.

Lemma damageRepeatedly_dead (id : string)
    (blows : list (number * option bool * number)) (w : World) (e : EnemyData) :
  Map_get id (enemies w) = Some e -> state e = DEAD ->
  damageRepeatedly id blows w = w.
Proof.
  intros Hget Hdead. induction blows as [|b blows IH]; simpl; [reflexivity|].
  unfold damageRepeatedly in *. simpl.
  now rewrite (damageEnemy_dead _ _ _ _ _ e Hget Hdead).
Qed.

Lemma damaged_alive_health (raw now : number) (e : EnemyData) :
  state (damaged raw now e) <> DEAD ->
  0 < health (stats (damaged raw now e))
  /\ health (stats (damaged raw now e)) <= health (stats e) - 1.
Proof.
  unfold damaged. simpl.
  set (x := health (stats e) - finalDamage (defense (stats e)) raw).
  pose proof (finalDamage_ge_1 (defense (stats e)) raw) as Hfd.
  destruct (Math_max 0 x <=? 0) eqn:E; simpl; [congruence|].
  intros _. apply Qle_bool_false in E. split; [exact E|].
  unfold Math_max in *.
  destruct (Q.max_spec 0 x) as [[Hlt Hmax]|[Hle Hmax]]; rewrite Hmax in *.
  - subst x. lra.
  - exfalso. revert E. apply Qlt_irrefl.
Qed.

(** X3.  Defense never makes an enemy unkillable: every blow takes at
    least one health point, so a living enemy whose health is at most
    [n] (with [n >= 1]) is [DEAD], at health 0, after any [n] calls of
    [damageEnemy], whatever their raw damage and however large its
    defense. *)
Theorem repeated_damage_kills
    (id : string) (blows : list (number * option bool * number))
    (w : World) (e : EnemyData)
    (Hget : Map_get id (enemies w) = Some e)
    (Halive : state e <> DEAD)
    (Hblows : (1 <= List.length blows)%nat)
    (Hhealth : health (stats e) <= inject_Z (Z.of_nat (List.length blows))) :
  exists e',
    Map_get id (enemies (damageRepeatedly id blows w)) = Some e'
    /\ state e' = DEAD
    /\ health (stats e') == 0.
Proof.
  revert w e Hget Halive Hblows Hhealth.
  induction blows as [|[[raw crit] now] blows IH];
    intros w e Hget Halive Hblows Hhealth; simpl in Hblows; [lia|].
  unfold damageRepeatedly. simpl.
  fold (damageRepeatedly id blows (damageEnemy id raw crit now w)).
  pose proof (damageEnemy_get id raw crit now w e Hget Halive) as Hget1.
  destruct (AIState_eqb (state (damaged raw now e)) DEAD) eqn:Hd.
  - apply AIState_eqb_eq in Hd.
    rewrite (damageRepeatedly_dead id blows _ _ Hget1 Hd).
    exists (damaged raw now e). split; [exact Hget1|]. split; [exact Hd|].
    now apply damaged_dead_iff.
  - apply AIState_eqb_neq in Hd.
    destruct (damaged_alive_health raw now e Hd) as [Hpos Hle].
    assert (Hle' : health (stats (damaged raw now e))
                   <= inject_Z (Z.of_nat (List.length blows))).
    { eapply Qle_trans; [exact Hle|].
      simpl List.length in Hhealth. rewrite Nat2Z.inj_succ in Hhealth.
      unfold Z.succ in Hhealth. rewrite inject_Z_plus in Hhealth.
      change (inject_Z 1) with 1 in Hhealth. lra. }
    apply (IH _ _ Hget1 Hd); [|exact Hle'].
    destruct blows; [|simpl; lia].
    exfalso. change (inject_Z (Z.of_nat (List.length (@nil
      (number * option bool * number))))) with 0 in Hle'.
    eapply Qlt_irrefl. eapply Qlt_le_trans; [exact Hpos | exact Hle'].
Qed.

(** X4.  A blow on a living enemy is recorded once and kills exactly
    when the mitigated damage reaches its health: [damageEnemy] appends
    one damage event, and it marks the enemy [DEAD] and arms one
    30-second respawn timer if and only if
    [health <= finalDamage]; otherwise state and timers are unchanged. *)
Theorem damageEnemy_kills_iff
    (id : string) (raw : number) (isCritical : option bool) (now : number)
    (w : World) (e : EnemyData)
    (Hget : Map_get id (enemies w) = Some e)
    (Halive : state e <> DEAD) :
  let w' := damageEnemy id raw isCritical now w in
  let lethal := health (stats e) <= finalDamage (defense (stats e)) raw in
  exists e',
    Map_get id (enemies w') = Some e'
    /\ List.length (damageEvents w') = S (List.length (damageEvents w))
    /\ (state e' = DEAD <-> lethal)
    /\ (lethal -> timeouts w' = timeouts w ++ [(30000%Z, id)])
    /\ (~ lethal -> timeouts w' = timeouts w /\ state e' = state e)
    /\ (0 <= health (stats e) -> health (stats e') <= health (stats e)).
Proof.
  intros w' lethal.
  destruct (damageEnemy_alive id raw isCritical now w e Hget Halive)
    as (Hen & Hev & _ & Ht).
  fold w' in Hen, Hev, Ht.
  exists (damaged raw now e).
  split; [rewrite Hen; apply Map_get_set_same|].
  split; [rewrite Hev, length_app; simpl; lia|].
  pose proof (finalDamage_ge_1 (defense (stats e)) raw) as Hfd.
  assert (Hiff : health (stats (damaged raw now e)) <= 0 <-> lethal).
  { unfold damaged, lethal, Math_max. simpl.
    destruct (Q.max_spec 0 (health (stats e)
                            - finalDamage (defense (stats e)) raw))
      as [[Hlt Hmax]|[Hle Hmax]]; rewrite Hmax; split; intros; lra. }
  assert (Hdead : state (damaged raw now e) = DEAD <-> lethal).
  { rewrite <- Hiff. rewrite (damaged_dead_iff raw now e Halive).
    split; intros H; [rewrite H; apply Qle_refl|].
    apply Qle_antisym; [exact H|]. unfold damaged. simpl. apply Math_max_ge_l. }
  split; [exact Hdead|].
  split.
  { intros Hl. rewrite Ht. apply Hiff, Qle_bool_iff in Hl. now rewrite Hl. }
  split.
  { intros Hnl. rewrite Ht.
    destruct (health (stats (damaged raw now e)) <=? 0) eqn:E.
    - apply Qle_bool_iff, Hiff in E. contradiction.
    - split; [reflexivity|]. unfold damaged in *. simpl in *. now rewrite E. }
  intros Hnonneg. unfold damaged, Math_max. simpl. apply Q.max_lub; lra.
Qed.

(** X5.  Death and respawn of a spawned enemy: a blow whose mitigated
    damage reaches [maxHealth] leaves it [DEAD] at health 0 with one
    respawn timer armed, and [respawnEnemy] then gives back the record
    it was spawned with, except that it now stands on its first patrol
    point, 10 units along [x] from where it was spawned (not at the
    spawn position), and keeps the time of the fatal blow. *)
Theorem respawn_after_death_restores_spawned_enemy
    (w : World) (type : EnemyType) (p : Vector3.t)
    (raw : number) (isCritical : option bool) (now : number)
    (Hlethal : maxHealth (ENEMY_CONFIGS type)
               <= finalDamage (defense (ENEMY_CONFIGS type)) raw) :
  let k := fst (spawnEnemy type p w) in
  let spawned := spawnedEnemy type p (N.succ (enemyIdCounter w)) in
  let w2 := damageEnemy k raw isCritical now (snd (spawnEnemy type p w)) in
  exists e2 w3 e3 q,
    Map_get k (enemies w2) = Some e2
    /\ state e2 = DEAD
    /\ health (stats e2) == 0
    /\ timeouts w2 = timeouts w ++ [(30000%Z, k)]
    /\ respawnEnemy k w2 = Some w3
    /\ Map_get k (enemies w3) = Some e3
    /\ e3 = with_lastDamageTime now (with_position q spawned)
    /\ Vector3.x q == Vector3.x p + 10
    /\ Vector3.y q = Vector3.y p
    /\ Vector3.z q == Vector3.z p
    /\ position e3 <> p
    /\ timeouts w3 = timeouts w2.
Proof.
  intros k spawned w2.
  pose proof (spawnEnemy_world type p w) as Hw1.
  pose proof (spawnEnemy_id type p w) as Hk. fold k in Hk.
  rewrite <- Hk in Hw1. fold spawned in Hw1.
  assert (Hget1 : Map_get k (enemies (snd (spawnEnemy type p w))) = Some spawned)
    by (rewrite Hw1; cbn [enemies]; apply Map_get_set_same).
  assert (Halive : state spawned <> DEAD) by discriminate.
  destruct (damageEnemy_kills_iff k raw isCritical now _ spawned Hget1 Halive)
    as (e2 & Hget2 & _ & Hdead & Htimer & _).
  fold w2 in Hget2, Hdead, Htimer.
  pose proof (damageEnemy_get k raw isCritical now _ spawned Hget1 Halive)
    as Hget2'. fold w2 in Hget2'.
  assert (He2 : e2 = damaged raw now spawned) by congruence.
  assert (Hl : health (stats spawned)
               <= finalDamage (defense (stats spawned)) raw)
    by (subst spawned; destruct type; exact Hlethal).
  set (q := Vector3.mk (Vector3.x p + 1 * 10) (Vector3.y p)
              (Vector3.z p + 0 * 10)).
  assert (Hq : nth_error (patrolPoints e2) 0 = Some q) by (now subst e2).
  exists e2, (set_enemies (Map_set k (respawned q e2) (enemies w2)) w2),
    (respawned q e2), q.
  split; [exact Hget2|]. split; [now apply Hdead|].
  split.
  { subst e2. apply damaged_dead_iff; [exact Halive | now apply Hdead]. }
  split.
  { rewrite (Htimer Hl). rewrite Hw1. reflexivity. }
  split; [now apply respawnEnemy_present|].
  split; [cbn [enemies set_enemies]; apply Map_get_set_same|].
  split.
  { subst e2 spawned. unfold respawned, damaged. simpl.
    destruct type; reflexivity. }
  split; [subst q; simpl; ring|].
  split; [reflexivity|].
  split; [subst q; simpl; ring|].
  split; [|reflexivity].
  simpl. intros Heq. apply (f_equal Vector3.x) in Heq. subst q. simpl in Heq.
  assert (H : Vector3.x p + 1 * 10 == Vector3.x p) by (now rewrite Heq).
  lra.
Qed.

(** ** The player store *)

Lemma Math_min_le_l (a b : number) : Math_min a b <= a.
Proof. unfold Math_min. apply Q.le_min_l. Qed.

Lemma Math_min_le_r (a b : number) : Math_min a b <= b.
Proof. unfold Math_min. apply Q.le_min_r. Qed.

Lemma Math_min_glb (a b c : number) : c <= a -> c <= b -> c <= Math_min a b.
Proof. unfold Math_min. apply Q.min_glb. Qed.

Lemma playerStep_vitals (a : PlayerAction) (s : PlayerState.t) :
  amount_ok a -> vitals_ok s -> vitals_ok (playerStep a s).
Proof.
  intros Ha (H1 & H2 & H3 & H4). unfold vitals_ok.
  destruct a; simpl in *; auto.
  - (* drainStamina *)
    split; [exact H1|]. split; [exact H2|].
    split; [apply Math_max_ge_l | apply Math_max_lub; lra].
  - (* regenerateStamina *)
    split; [exact H1|]. split; [exact H2|].
    split; [apply Math_min_glb; lra | apply Math_min_le_l].
  - (* takeDamage *)
    split; [apply Math_max_ge_l|]. split; [apply Math_max_lub; lra|].
    split; assumption.
  - (* heal *)
    split; [apply Math_min_glb; lra|]. split; [apply Math_min_le_l|].
    split; assumption.
  - (* equipWeapon *)
    unfold PlayerState.equipWeapon.
    destruct (find _ (PlayerState.weapons s)); simpl; auto.
  - (* attack *)
    unfold PlayerState.attack.
    destruct (PlayerState.currentWeapon s) as [w|]; simpl; auto.
    destruct (Weapon.type w); simpl; auto.
  - (* reload *)
    unfold PlayerState.reload.
    destruct (PlayerState.currentWeapon s) as [w|]; simpl; auto.
    destruct (negb (WeaponType_eqb (Weapon.type w) ranged)); simpl; auto.
    match goal with |- context [if ?c then _ else _] => destruct c end;
      simpl; auto.
Qed.

(** X6.  Health stays within [0, maxHealth] and stamina within
    [0, maxStamina] through every sequence of player-store actions
    whose damage, heal, drain and regeneration amounts are not
    negative: damage and drain stop at 0, healing and regeneration
    stop at the maximum. *)
Theorem player_vitals_stay_in_range
    (actions : list PlayerAction) (s : PlayerState.t)
    (Hamounts : Forall amount_ok actions)
    (Hok : vitals_ok s) :
  vitals_ok (playerRun actions s).
Proof.
  revert s Hok. induction Hamounts as [|a actions Ha _ IH]; intros s Hok.
  - exact Hok.
  - simpl. apply IH. now apply playerStep_vitals.
Qed.

Lemma replaceWeapon_ids (u : Weapon.t) (ws : list Weapon.t) :
  map Weapon.id (PlayerState.replaceWeapon u ws) = map Weapon.id ws.
Proof.
  unfold PlayerState.replaceWeapon. rewrite map_map. apply map_ext_in.
  intros w _. destruct (String.eqb (Weapon.id w) (Weapon.id u)) eqn:E;
    [|reflexivity].
  apply String.eqb_eq in E. now symmetry.
Qed.

Lemma replaceWeapon_In (u w : Weapon.t) (ws : list Weapon.t) :
  In w ws -> Weapon.id u = Weapon.id w ->
  In u (PlayerState.replaceWeapon u ws).
Proof.
  intros Hin Hid. unfold PlayerState.replaceWeapon.
  apply in_map_iff. exists w. split; [|exact Hin].
  rewrite <- Hid, String.eqb_refl. reflexivity.
Qed.

Lemma find_by_id (w : Weapon.t) (ws : list Weapon.t) :
  NoDup (map Weapon.id ws) -> In w ws ->
  find (fun w' => String.eqb (Weapon.id w') (Weapon.id w)) ws = Some w.
Proof.
  induction ws as [|w0 ws IH]; simpl; [intros _ []|].
  intros Hnd Hin. inversion Hnd as [|? ? Hnotin Hnd']; subst.
  destruct (String.eqb (Weapon.id w0) (Weapon.id w)) eqn:E.
  - destruct Hin as [->|Hin]; [reflexivity|].
    apply String.eqb_eq in E. exfalso. apply Hnotin. rewrite E.
    now apply in_map.
  - destruct Hin as [->|Hin]; [now rewrite String.eqb_refl in E|].
    now apply IH.
Qed.

Lemma playerStep_arsenal (a : PlayerAction) (s : PlayerState.t) :
  arsenal_ok s -> arsenal_ok (playerStep a s).
Proof.
  intros [Hnd Hcur]. unfold arsenal_ok.
  destruct a; simpl; auto.
  - (* equipWeapon *)
    unfold PlayerState.equipWeapon.
    destruct (find _ (PlayerState.weapons s)) as [w|] eqn:E; simpl; auto.
    split; [exact Hnd|]. intros w' [= <-]. now apply find_some in E.
  - (* attack *)
    unfold PlayerState.attack.
    destruct (PlayerState.currentWeapon s) as [w|] eqn:E; simpl;
      [|split; [exact Hnd|]; intros w' Hw'; rewrite E in Hw'; discriminate].
    destruct (Weapon.type w); simpl.
    + split; [exact Hnd|]. now rewrite E.
    + split; [now rewrite replaceWeapon_ids|].
      intros w' [= <-]. apply (replaceWeapon_In _ w); auto.
  - (* reload *)
    unfold PlayerState.reload.
    destruct (PlayerState.currentWeapon s) as [w|] eqn:E; simpl;
      [|split; [exact Hnd|]; intros w' Hw'; rewrite E in Hw'; discriminate].
    destruct (negb (WeaponType_eqb (Weapon.type w) ranged)); simpl;
      [split; [exact Hnd | now rewrite E]|].
    match goal with |- context [if ?c then _ else _] => destruct c end;
      simpl; [split; [exact Hnd | now rewrite E]|].
    split; [now rewrite replaceWeapon_ids|].
    intros w' [= <-]. apply (replaceWeapon_In _ w); auto.
Qed.

Lemma playerRun_arsenal (actions : list PlayerAction) (s : PlayerState.t) :
  arsenal_ok s -> arsenal_ok (playerRun actions s).
Proof.
  revert s. induction actions as [|a actions IH]; intros s H; simpl; auto.
  apply IH. now apply playerStep_arsenal.
Qed.

Lemma initial_arsenal_ok : arsenal_ok PlayerState.initial.
Proof.
  split.
  - simpl. repeat constructor; simpl; intuition discriminate.
  - intros w [= <-]. now left.
Qed.

(** X7.  The weapon in hand and the weapon list never drift apart:
    from the initial store, after any sequence of actions the weapon
    ids are distinct and the current weapon is an entry of the list.
    So rounds spent are not forgotten on a switch: after an [attack],
    switching to any weapon id and back gives the weapon in hand as the
    attack left it, and a ranged attack leaves [max 0 (clip - 1)]
    rounds in the clip. *)
Theorem current_weapon_stays_in_list
    (actions : list PlayerAction) (w : Weapon.t) (other : string) :
  let s := playerRun actions PlayerState.initial in
  arsenal_ok s
  /\ (PlayerState.currentWeapon s = Some w ->
      let s1 := PlayerState.attack s in
      (exists w1,
          PlayerState.currentWeapon s1 = Some w1
          /\ In w1 (PlayerState.weapons s1)
          /\ Weapon.id w1 = Weapon.id w
          /\ (Weapon.type w = ranged ->
              Weapon.ammo w1 = Some (Math_max 0 (clip w - 1)))
          /\ (Weapon.type w = melee -> w1 = w)
          /\ PlayerState.attackCooldown s1 = 1 / Weapon.attackSpeed w)
      /\ PlayerState.currentWeapon
           (PlayerState.equipWeapon (Weapon.id w)
              (PlayerState.equipWeapon other s1))
         = PlayerState.currentWeapon s1).
Proof.
  intros s.
  assert (Hok : arsenal_ok s)
    by (apply playerRun_arsenal, initial_arsenal_ok).
  split; [exact Hok|]. intros Hcur s1.
  assert (Hok1 : arsenal_ok s1) by (apply (playerStep_arsenal Attack), Hok).
  assert (H1 : exists w1,
             PlayerState.currentWeapon s1 = Some w1
             /\ Weapon.id w1 = Weapon.id w
             /\ (Weapon.type w = ranged ->
                 Weapon.ammo w1 = Some (Math_max 0 (clip w - 1)))
             /\ (Weapon.type w = melee -> w1 = w)
             /\ PlayerState.attackCooldown s1 = 1 / Weapon.attackSpeed w).
  { subst s1. unfold PlayerState.attack. rewrite Hcur.
    destruct (Weapon.type w) eqn:Ht; simpl.
    - exists w. rewrite Hcur. repeat split; auto; discriminate.
    - eexists. split; [reflexivity|]. repeat split; auto; discriminate. }
  destruct H1 as (w1 & Hc1 & Hid & Hammo & Hmelee & Hcd).
  destruct Hok1 as [Hnd1 Hin1].
  split.
  - exists w1. repeat split; auto.
  - rewrite <- Hid.
    assert (Hsame : forall s2, PlayerState.weapons s2 = PlayerState.weapons s1 ->
              PlayerState.currentWeapon (PlayerState.equipWeapon (Weapon.id w1) s2)
              = Some w1).
    { intros s2 Hw. unfold PlayerState.equipWeapon. rewrite Hw.
      rewrite (find_by_id w1) by auto. reflexivity. }
    rewrite Hc1. apply Hsame.
    unfold PlayerState.equipWeapon.
    destruct (find _ (PlayerState.weapons s1)); reflexivity.
Qed.

(** X8.  [reload] moves rounds from the reserve into the clip and
    loses none: with a ranged weapon in hand whose clip is short and
    whose reserve is not empty, the clip grows by
    [min (clipSize - clip) reserve], the reserve shrinks by as much (so
    their sum is kept, the clip does not exceed its size, the reserve
    does not go below 0, and afterwards the clip is full or the
    reserve empty), [isReloading] is set and a timer of
    [reloadTime || 1] seconds is armed; in every other case (no
    weapon, melee, full clip, empty reserve) nothing changes and no
    timer is armed. *)
Theorem reload_conserves_rounds (s : PlayerState.t) :
  let r := PlayerState.reload s in
  match PlayerState.currentWeapon s with
  | Some w =>
      if WeaponType_eqb (Weapon.type w) ranged
         && (clip w <? clipSize w) && (0 <? reserve w)
      then
        exists w',
          PlayerState.currentWeapon (fst r) = Some w'
          /\ clip w' + reserve w' == clip w + reserve w
          /\ clip w' <= clipSize w
          /\ 0 <= reserve w'
          /\ (clip w' == clipSize w \/ reserve w' == 0)
          /\ clip w < clip w'
          /\ PlayerState.isReloading (fst r) = true
          /\ PlayerState.weapons (fst r)
             = PlayerState.replaceWeapon w' (PlayerState.weapons s)
          /\ snd r = Some (or_default (Weapon.reloadTime w) 1 * 1000)
      else r = (s, None)
  | None => r = (s, None)
  end.
Proof.
  intros r. subst r. unfold PlayerState.reload.
  destruct (PlayerState.currentWeapon s) as [w|]; [|reflexivity].
  destruct (WeaponType_eqb (Weapon.type w) ranged); simpl; [|reflexivity].
  fold (clip w) (clipSize w) (reserve w).
  destruct (clip w <? clipSize w) eqn:Hc; simpl.
  - apply Qlt_bool_iff in Hc.
    destruct (0 <? reserve w) eqn:Hr; simpl.
    + apply Qlt_bool_iff in Hr.
      assert (H1 : (clipSize w - clip w <=? 0) = false)
        by (apply Qle_bool_false; lra).
      assert (H2 : (reserve w <=? 0) = false) by (apply Qle_bool_false; lra).
      rewrite H1, H2. simpl.
      set (n := Math_min (clipSize w - clip w) (reserve w)).
      assert (Hn1 : n <= clipSize w - clip w) by apply Math_min_le_l.
      assert (Hn2 : n <= reserve w) by apply Math_min_le_r.
      assert (Hn0 : 0 < n).
      { unfold n, Math_min.
        destruct (Q.min_spec (clipSize w - clip w) (reserve w))
          as [[_ ->]|[_ ->]]; lra. }
      assert (Hor : forall q, or_default (Some q) 0 == q).
      { intros q. unfold or_default. destruct (Qeq_bool q 0) eqn:E;
          [|reflexivity].
        apply Qeq_bool_iff in E. now rewrite E. }
      set (w' := Weapon_with_totalAmmo (reserve w - n)
                   (Weapon_with_ammo (clip w + n) w)).
      assert (Hclip : clip w' == clip w + n)
        by (unfold clip at 1, w'; simpl; apply Hor).
      assert (Hres : reserve w' == reserve w - n)
        by (unfold reserve at 1, w'; simpl; apply Hor).
      assert (Hfull : n == clipSize w - clip w \/ n == reserve w).
      { unfold n, Math_min.
        destruct (Q.min_spec (clipSize w - clip w) (reserve w))
          as [[_ ->]|[_ ->]]; [left | right]; reflexivity. }
      exists w'. split; [reflexivity|].
      split; [lra|]. split; [lra|]. split; [lra|].
      split; [destruct Hfull; [left | right]; lra|].
      split; [lra|]. repeat split.
    + apply Qlt_bool_false, Qle_bool_iff in Hr. rewrite Hr, orb_true_r.
      reflexivity.
  - apply Qlt_bool_false in Hc.
    assert (H1 : (clipSize w - clip w <=? 0) = true)
      by (apply Qle_bool_iff; lra).
    rewrite H1. reflexivity.
Qed.




(** ** The AI: what a step changes and what it cannot *)

Ltac ai_unfold :=
  unfold update, updateTimers, idle, patrol, alert, chase, attack, flee,
    checkForPlayer, moveTowards, performAttack, transitionToState, assign
    in *.

Ltac ai_simpl :=
  cbn [enemy playerPosition id type position rotation stats state target
       patrolPoints currentPatrolIndex attackCooldown alertTime
       lastDamageTime respawnTime with_position with_rotation with_stats
       with_state with_target with_currentPatrolIndex with_attackCooldown
       with_alertTime with_lastDamageTime AIState_eqb fst snd option_map
       negb] in *.

Ltac ai_case :=
  match goal with
  | |- context [match playerPosition ?a with _ => _ end] =>
      destruct (playerPosition a) eqn:?
  | |- context [if ?c then _ else _] =>
      lazymatch c with
      | context [if _ then _ else _] => fail
      | context [match playerPosition _ with _ => _ end] => fail
      | _ => destruct c eqn:?
      end
  end.

Ltac ai_crush :=
  repeat (ai_simpl; ai_case); ai_simpl;
  repeat split; auto; try congruence.

Ltac ai_crush_at H K :=
  repeat (ai_simpl; rewrite ?H, ?K; ai_case); ai_simpl; rewrite ?H, ?K;
  ai_simpl; repeat split; auto; try congruence.

Section AISteps.

Variable normalize : Vector3.t -> Vector3.t.
Variable Math_atan2 : number -> number -> number.

Lemma updateTimers_untouched (delta : number) (ai : EnemyAI) :
  untouched (enemy ai) (enemy (updateTimers delta ai))
  /\ currentPatrolIndex (enemy (updateTimers delta ai))
     = currentPatrolIndex (enemy ai)
  /\ target (enemy (updateTimers delta ai)) = target (enemy ai)
  /\ rotation (enemy (updateTimers delta ai)) = rotation (enemy ai).
Proof. unfold updateTimers, assign, untouched. ai_crush. Qed.

(** One step, handler by handler, on the instance [update] hands to
    the handler. *)
Lemma handler_facts (delta : number) (ai0 ai' : EnemyAI)
    (player player' : Player.t) (p : Vector3.t) :
  state (enemy ai0) <> DEAD ->
  playerPosition ai0 = Some p ->
  match state (enemy ai0) with
  | IDLE => Some (idle delta ai0, player)
  | PATROL =>
      option_map (fun ai => (ai, player))
        (patrol normalize Math_atan2 delta ai0)
  | ALERT => Some (alert delta ai0, player)
  | CHASE => Some (chase normalize Math_atan2 delta ai0, player)
  | ATTACK => Some (attack normalize Math_atan2 delta ai0 player)
  | FLEE => Some (flee normalize Math_atan2 delta ai0, player)
  | DEAD => Some (ai0, player)
  end = Some (ai', player') ->
  untouched (enemy ai0) (enemy ai')
  /\ may_follow (state (enemy ai0)) (state (enemy ai')) = true
  /\ playerPosition ai' = playerPosition ai0
  /\ (patrol_ok (enemy ai0) -> patrol_ok (enemy ai'))
  /\ (engaged_ok (enemy ai0) -> engaged_ok (enemy ai')).
Proof.
  intros Halive Hp. unfold untouched, patrol_ok, engaged_ok.
  destruct (state (enemy ai0)) eqn:Hs; try congruence.
  - (* IDLE *)
    intros [= <- <-]. ai_unfold. ai_crush_at Hs Hp.
  - (* PATROL *)
    ai_unfold.
    destruct (nth_error (patrolPoints (enemy ai0))
                (currentPatrolIndex (enemy ai0))) as [pt|] eqn:Hnth;
      [|discriminate].
    ai_simpl. intros [= <- <-].
    assert (Hlen : (0 < List.length (patrolPoints (enemy ai0)))%nat).
    { assert (currentPatrolIndex (enemy ai0)
              < List.length (patrolPoints (enemy ai0)))%nat
        by (apply nth_error_Some; congruence).
      lia. }
    ai_crush_at Hs Hp; intros _; apply Nat.mod_upper_bound; lia.
  - (* ALERT *)
    intros [= <- <-]. ai_unfold. ai_crush_at Hs Hp.
  - (* CHASE *)
    intros [= <- <-]. ai_unfold. ai_crush_at Hs Hp.
  - (* ATTACK *)
    ai_unfold.
    repeat (ai_simpl; rewrite ?Hs, ?Hp; ai_case); ai_simpl;
      intros [= <- <-]; ai_simpl; rewrite ?Hs, ?Hp; ai_simpl;
      repeat split; auto; try congruence.
  - (* FLEE *)
    intros [= <- <-]. ai_unfold. ai_crush_at Hs Hp.
Qed.

(** One [update] of a living enemy. *)
Lemma update_facts (delta : number) (ai ai' : EnemyAI)
    (player player' : Player.t) :
  state (enemy ai) <> DEAD ->
  update normalize Math_atan2 delta ai player = Some (ai', player') ->
  untouched (enemy ai) (enemy ai')
  /\ may_follow (state (enemy ai)) (state (enemy ai')) = true
  /\ playerPosition ai' = Some (Player.position player)
  /\ (patrol_ok (enemy ai) -> patrol_ok (enemy ai'))
  /\ (engaged_ok (enemy ai) -> engaged_ok (enemy ai')).
Proof.
  intros Halive Hup. unfold update in Hup.
  destruct (AIState_eqb (state (enemy ai)) DEAD) eqn:E.
  { apply AIState_eqb_eq in E. congruence. }
  set (ai0 := updateTimers delta
                (mkEnemyAI (enemy ai) (Some (Player.position player)))) in *.
  assert (Hs0 : state (enemy ai0) = state (enemy ai))
    by exact (updateTimers_state delta _).
  assert (Hp0 : playerPosition ai0 = Some (Player.position player))
    by exact (updateTimers_playerPosition delta _).
  destruct (updateTimers_untouched delta
              (mkEnemyAI (enemy ai) (Some (Player.position player))))
    as (Hu & Hidx & Htgt & _).
  fold ai0 in Hu, Hidx, Htgt. cbn [enemy] in Hu, Hidx, Htgt.
  destruct (handler_facts delta ai0 ai' player player'
              (Player.position player)) as (Hu' & Hf & Hp' & Hpat & Heng);
    [congruence | exact Hp0 | exact Hup |].
  unfold untouched, patrol_ok, engaged_ok in *.
  destruct Hu as (? & ? & ? & Hpts & ? & ?).
  destruct Hu' as (? & ? & ? & ? & ? & ?).
  rewrite Hs0, Hidx, Htgt, Hpts in *.
  repeat split; try congruence; auto.
Qed.

End AISteps.

Section AIFrames.

Variable normalize : Vector3.t -> Vector3.t.
Variable Math_atan2 : number -> number -> number.

Lemma untouched_refl (e : EnemyData) : untouched e e.
Proof. unfold untouched. repeat split. Qed.

Lemma untouched_trans (e1 e2 e3 : EnemyData) :
  untouched e1 e2 -> untouched e2 e3 -> untouched e1 e3.
Proof. unfold untouched. intuition congruence. Qed.

Lemma may_follow_alive (s s' : AIState) :
  may_follow s s' = true -> s <> DEAD -> s' <> DEAD.
Proof. destruct s, s'; simpl; congruence. Qed.

(** The instance the handlers see: the player's position stored, the
    timers advanced, everything else as before. *)
Lemma timers_view (delta : number) (ai : EnemyAI) (p : Vector3.t) :
  let ai0 := updateTimers delta (mkEnemyAI (enemy ai) (Some p)) in
  state (enemy ai0) = state (enemy ai)
  /\ playerPosition ai0 = Some p
  /\ position (enemy ai0) = position (enemy ai)
  /\ stats (enemy ai0) = stats (enemy ai)
  /\ patrolPoints (enemy ai0) = patrolPoints (enemy ai)
  /\ currentPatrolIndex (enemy ai0) = currentPatrolIndex (enemy ai)
  /\ attackCooldown (enemy ai0) = attackCooldown (enemy (updateTimers delta ai)).
Proof.
  unfold updateTimers, assign. ai_crush.
Qed.

Lemma update_None_inv (delta : number) (ai : EnemyAI) (player : Player.t) :
  update normalize Math_atan2 delta ai player = None
  <-> state (enemy ai) = PATROL
      /\ nth_error (patrolPoints (enemy ai)) (currentPatrolIndex (enemy ai))
         = None.
Proof.
  unfold update.
  destruct (AIState_eqb (state (enemy ai)) DEAD) eqn:E.
  { apply AIState_eqb_eq in E.
    split; [discriminate | intros [H _]; congruence]. }
  destruct (timers_view delta ai (Player.position player))
    as (Hs & _ & _ & _ & Hpts & Hidx & _).
  cbv zeta in Hs, Hpts, Hidx.
  set (ai0 := updateTimers delta
                (mkEnemyAI (enemy ai) (Some (Player.position player)))) in *.
  rewrite Hs.
  destruct (state (enemy ai)) eqn:Hst;
    try (split; [discriminate | intros [H _]; discriminate]).
  unfold patrol. rewrite Hpts, Hidx.
  destruct (nth_error (patrolPoints (enemy ai))
              (currentPatrolIndex (enemy ai))); cbn [option_map].
  - split; [discriminate | intros [_ H]; discriminate].
  - split; [auto | reflexivity].
Qed.

Lemma update_total (delta : number) (ai : EnemyAI) (player : Player.t) :
  patrol_ok (enemy ai) ->
  exists ai' player',
    update normalize Math_atan2 delta ai player = Some (ai', player').
Proof.
  intros Hok.
  destruct (update normalize Math_atan2 delta ai player) as [[ai' player']|]
    eqn:E; [eauto|].
  apply update_None_inv in E. destruct E as [_ E].
  apply nth_error_None in E. unfold patrol_ok in Hok. lia.
Qed.

(** One [update], of a living or a dead enemy. *)
Lemma update_step (delta : number) (ai ai' : EnemyAI)
    (player player' : Player.t) :
  update normalize Math_atan2 delta ai player = Some (ai', player') ->
  untouched (enemy ai) (enemy ai')
  /\ may_follow (state (enemy ai)) (state (enemy ai')) = true
  /\ (patrol_ok (enemy ai) -> patrol_ok (enemy ai'))
  /\ (engaged_ok (enemy ai) -> engaged_ok (enemy ai')).
Proof.
  intros Hup.
  destruct (AIState_eqb (state (enemy ai)) DEAD) eqn:E.
  - apply AIState_eqb_eq in E.
    rewrite (update_dead normalize Math_atan2 delta ai player E) in Hup.
    injection Hup as <- <-. rewrite E.
    split; [apply untouched_refl|]. split; [reflexivity|]. split; auto.
  - assert (Halive : state (enemy ai) <> DEAD)
      by (intros H; apply AIState_eqb_eq in H; congruence).
    destruct (update_facts normalize Math_atan2 delta ai ai' player player'
                Halive Hup) as (? & ? & _ & ? & ?).
    split; [assumption|]. split; [assumption|]. split; assumption.
Qed.

Lemma aiRun_facts (frames : list (number * Vector3.t)) :
  forall (ai : EnemyAI) (player : Player.t),
  patrol_ok (enemy ai) ->
  exists ai' player',
    aiRun normalize Math_atan2 frames ai player = Some (ai', player')
    /\ untouched (enemy ai) (enemy ai')
    /\ patrol_ok (enemy ai')
    /\ (state (enemy ai) <> DEAD -> state (enemy ai') <> DEAD)
    /\ (engaged_ok (enemy ai) -> engaged_ok (enemy ai')).
Proof.
  induction frames as [|[delta p] frames IH]; intros ai player Hok.
  - exists ai, player.
    split; [reflexivity|]. split; [apply untouched_refl|]. auto.
  - cbn [aiRun].
    destruct (update_total delta ai (Player_at p player) Hok)
      as (ai1 & player1 & Hup).
    rewrite Hup.
    destruct (update_step delta ai ai1 (Player_at p player) player1 Hup)
      as (Hu & Hf & Hp & He).
    destruct (IH ai1 player1 (Hp Hok)) as (ai' & player' & Hrun & Hu' & Hp' & Hd & He').
    exists ai', player'. split; [exact Hrun|].
    split; [eapply untouched_trans; eassumption|].
    split; [exact Hp'|]. split; [|auto].
    intros Halive. apply Hd. eapply may_follow_alive; eassumption.
Qed.

(** What the handlers do to the player store. *)
Lemma handler_player (delta : number) (ai0 ai' : EnemyAI)
    (player player' : Player.t) (p : Vector3.t) :
  playerPosition ai0 = Some p ->
  match state (enemy ai0) with
  | IDLE => Some (idle delta ai0, player)
  | PATROL =>
      option_map (fun ai => (ai, player))
        (patrol normalize Math_atan2 delta ai0)
  | ALERT => Some (alert delta ai0, player)
  | CHASE => Some (chase normalize Math_atan2 delta ai0, player)
  | ATTACK => Some (attack normalize Math_atan2 delta ai0 player)
  | FLEE => Some (flee normalize Math_atan2 delta ai0, player)
  | DEAD => Some (ai0, player)
  end = Some (ai', player') ->
  player' = player
  \/ (state (enemy ai0) = ATTACK
      /\ root_leb (Vector3.distanceTo (position (enemy ai0)) p)
           (attackRange (stats (enemy ai0))) = true
      /\ attackCooldown (enemy ai0) <= 0
      /\ (health (stats (enemy ai0)) <? maxHealth (stats (enemy ai0)) * 0.2)
         = false
      /\ player' = Player.takeDamage (damage (stats (enemy ai0))) player).
Proof.
  intros Hp.
  destruct (state (enemy ai0)) eqn:Hs;
    try (intros [= <- <-]; left; reflexivity).
  - destruct (patrol normalize Math_atan2 delta ai0); cbn [option_map];
      [intros [= <- <-]; left; reflexivity | discriminate].
  - unfold attack, performAttack, assign. rewrite ?Hp. ai_simpl. rewrite ?Hp.
    destruct (root_gtb (Vector3.distanceTo (position (enemy ai0)) p)
                (attackRange (stats (enemy ai0)) * 1.1)) eqn:Hfar;
      [intros [= <- <-]; left; reflexivity|].
    destruct (health (stats (enemy ai0))
              <? maxHealth (stats (enemy ai0)) * 0.2) eqn:Hlow;
      [intros [= <- <-]; left; reflexivity|].
    destruct (attackCooldown (enemy ai0) <=? 0) eqn:Hcd;
      [|intros [= <- <-]; left; reflexivity].
    destruct (root_gtb (Vector3.distanceTo (position (enemy ai0)) p)
                (attackRange (stats (enemy ai0)))) eqn:Hout;
      intros [= <- <-]; [left; reflexivity|].
    right. repeat split; auto.
    + unfold root_gtb in Hout. now apply negb_false_iff in Hout.
    + now apply Qle_bool_iff.
Qed.

End AIFrames.

(** X11. [update] throws exactly when the enemy is on patrol and its
    patrol index points outside [patrolPoints]; in every other state,
    and on patrol with a valid index, it returns. *)
Theorem update_throws_iff_patrol_point_missing
    (normalize : Vector3.t -> Vector3.t)
    (Math_atan2 : number -> number -> number)
    (delta : number) (ai : EnemyAI) (player : Player.t) :
  update normalize Math_atan2 delta ai player = None
  <-> state (enemy ai) = PATROL
      /\ nth_error (patrolPoints (enemy ai)) (currentPatrolIndex (enemy ai))
         = None.
Proof. apply update_None_inv. Qed.

(** X12. Started with a patrol index inside [patrolPoints], the AI
    never throws, whatever the frame times and the player's positions:
    every run of updates returns, the index stays inside the list, the
    fields [id], [type], [stats], [patrolPoints], [lastDamageTime] and
    [respawnTime] are never written, and a living enemy is never made
    [DEAD]. *)
Theorem ai_run_never_throws_and_keeps_record
    (normalize : Vector3.t -> Vector3.t)
    (Math_atan2 : number -> number -> number)
    (frames : list (number * Vector3.t)) (ai : EnemyAI) (player : Player.t)
    (Hindex : patrol_ok (enemy ai)) :
  exists ai' player',
    aiRun normalize Math_atan2 frames ai player = Some (ai', player')
    /\ untouched (enemy ai) (enemy ai')
    /\ patrol_ok (enemy ai')
    /\ (state (enemy ai) <> DEAD -> state (enemy ai') <> DEAD).
Proof.
  destruct (aiRun_facts normalize Math_atan2 frames ai player Hindex)
    as (ai' & player' & H1 & H2 & H3 & H4 & _).
  exists ai', player'. auto.
Qed.

Lemma ai_run_never_throws_and_keeps_record_witness :
  patrol_ok (enemy (new_EnemyAI sampleZombie))
  /\ exists ai' player',
       aiRun no_normalize no_atan2
         [(1 # 60, Vector3.mk 0 2 0); (1 # 60, Vector3.mk 40 2 0)]
         (new_EnemyAI sampleZombie) Player.initial
       = Some (ai', player')
       /\ stats (enemy ai') = stats sampleZombie
       /\ state (enemy ai') <> DEAD.
Proof.
  assert (Hok : patrol_ok (enemy (new_EnemyAI sampleZombie)))
    by (unfold patrol_ok; simpl; lia).
  split; [exact Hok|].
  destruct (ai_run_never_throws_and_keeps_record no_normalize no_atan2
              [(1 # 60, Vector3.mk 0 2 0); (1 # 60, Vector3.mk 40 2 0)]
              (new_EnemyAI sampleZombie) Player.initial Hok)
    as (ai' & player' & Hrun & Hu & _ & Hd).
  exists ai', player'. split; [exact Hrun|]. split.
  - apply Hu.
  - apply Hd. discriminate.
Defined.

(** X13. One [update] moves the state machine along its table only:
    IDLE to PATROL or ALERT, PATROL to ALERT or not at all, ALERT to
    CHASE or not at all, CHASE to FLEE, ATTACK, PATROL or not at all,
    ATTACK to CHASE, FLEE or not at all, FLEE to PATROL or not at all,
    DEAD nowhere. *)
Theorem update_follows_transition_table
    (normalize : Vector3.t -> Vector3.t)
    (Math_atan2 : number -> number -> number)
    (delta : number) (ai : EnemyAI) (player : Player.t)
    (Hindex : patrol_ok (enemy ai)) :
  exists ai' player',
    update normalize Math_atan2 delta ai player = Some (ai', player')
    /\ may_follow (state (enemy ai)) (state (enemy ai')) = true.
Proof.
  destruct (update_total normalize Math_atan2 delta ai player Hindex)
    as (ai' & player' & Hup).
  exists ai', player'. split; [exact Hup|].
  now destruct (update_step normalize Math_atan2 delta ai ai' player player'
                  Hup) as (_ & ? & _).
Qed.

Lemma update_follows_transition_table_witness :
  patrol_ok (enemy alertZombie)
  /\ exists ai' player',
       update no_normalize no_atan2 (1 # 60) alertZombie Player.initial
       = Some (ai', player')
       /\ may_follow ALERT (state (enemy ai')) = true.
Proof.
  assert (Hok : patrol_ok (enemy alertZombie))
    by (unfold patrol_ok; simpl; lia).
  split; [exact Hok|].
  exact (update_follows_transition_table no_normalize no_atan2 (1 # 60)
           alertZombie Player.initial Hok).
Defined.

(** X14. [target] follows the state over any run of updates: an enemy
    that starts with [target] unset on patrol, or set to the player in
    ALERT, CHASE, ATTACK or FLEE, is in that condition after every
    frame. *)
Theorem ai_run_keeps_target_consistent
    (normalize : Vector3.t -> Vector3.t)
    (Math_atan2 : number -> number -> number)
    (frames : list (number * Vector3.t)) (ai : EnemyAI) (player : Player.t)
    (Hindex : patrol_ok (enemy ai)) (Htarget : engaged_ok (enemy ai)) :
  exists ai' player',
    aiRun normalize Math_atan2 frames ai player = Some (ai', player')
    /\ engaged_ok (enemy ai').
Proof.
  destruct (aiRun_facts normalize Math_atan2 frames ai player Hindex)
    as (ai' & player' & H1 & _ & _ & _ & H5).
  exists ai', player'. split; auto.
Qed.

Lemma ai_run_keeps_target_consistent_witness :
  patrol_ok (enemy (new_EnemyAI sampleZombie))
  /\ engaged_ok (enemy (new_EnemyAI sampleZombie))
  /\ exists ai' player',
       aiRun no_normalize no_atan2
         [(1 # 60, Vector3.mk 0 2 0); (1 # 60, Vector3.mk 0 2 0)]
         (new_EnemyAI sampleZombie) Player.initial
       = Some (ai', player')
       /\ engaged_ok (enemy ai').
Proof.
  assert (Hok : patrol_ok (enemy (new_EnemyAI sampleZombie)))
    by (unfold patrol_ok; simpl; lia).
  assert (Heng : engaged_ok (enemy (new_EnemyAI sampleZombie)))
    by reflexivity.
  split; [exact Hok|]. split; [exact Heng|].
  exact (ai_run_keeps_target_consistent no_normalize no_atan2
           [(1 # 60, Vector3.mk 0 2 0); (1 # 60, Vector3.mk 0 2 0)]
           (new_EnemyAI sampleZombie) Player.initial Hok Heng).
Defined.



Section AIHandlers.

Variable normalize : Vector3.t -> Vector3.t.
Variable Math_atan2 : number -> number -> number.

Lemma root_leb_wider (d : root) (r : number) :
  root_leb d r = true -> root_leb d (r * 1.1) = true.
Proof.
  unfold root_leb. rewrite !andb_true_iff, !Qle_bool_iff.
  intros [H0 H]. split; [lra|].
  assert (r * r <= r * 1.1 * (r * 1.1)) by nra. lra.
Qed.



(** [IDLE], [ALERT] and [ATTACK] do not move the enemy. *)
Lemma handler_still (delta : number) (ai0 ai' : EnemyAI)
    (player player' : Player.t) (p : Vector3.t) :
  playerPosition ai0 = Some p ->
  state (enemy ai0) <> PATROL ->
  state (enemy ai0) <> CHASE ->
  state (enemy ai0) <> FLEE ->
  match state (enemy ai0) with
  | IDLE => Some (idle delta ai0, player)
  | PATROL =>
      option_map (fun ai => (ai, player))
        (patrol normalize Math_atan2 delta ai0)
  | ALERT => Some (alert delta ai0, player)
  | CHASE => Some (chase normalize Math_atan2 delta ai0, player)
  | ATTACK => Some (attack normalize Math_atan2 delta ai0 player)
  | FLEE => Some (flee normalize Math_atan2 delta ai0, player)
  | DEAD => Some (ai0, player)
  end = Some (ai', player') ->
  position (enemy ai') = position (enemy ai0).
Proof.
  intros Hp H1 H2 H3.
  destruct (state (enemy ai0)) eqn:Hs; try congruence.
  - intros [= <- <-]. ai_unfold. ai_crush_at Hs Hp.
  - intros [= <- <-]. ai_unfold. ai_crush_at Hs Hp.
  - ai_unfold.
    repeat (ai_simpl; rewrite ?Hs, ?Hp; ai_case); ai_simpl;
      intros [= <- <-]; reflexivity.
Qed.

End AIHandlers.





(** X18. Only PATROL, CHASE and FLEE move the enemy: an [update] in
    IDLE, ALERT, ATTACK or DEAD leaves [position] as it was. *)
Theorem update_moves_only_patrolling_chasing_fleeing
    (normalize : Vector3.t -> Vector3.t)
    (Math_atan2 : number -> number -> number)
    (delta : number) (ai : EnemyAI) (player : Player.t)
    (Hpatrol : state (enemy ai) <> PATROL)
    (Hchase : state (enemy ai) <> CHASE)
    (Hflee : state (enemy ai) <> FLEE) :
  exists ai' player',
    update normalize Math_atan2 delta ai player = Some (ai', player')
    /\ position (enemy ai') = position (enemy ai).
Proof.
  destruct (update normalize Math_atan2 delta ai player)
    as [[ai' player']|] eqn:Hup.
  2:{ apply update_None_inv in Hup. destruct Hup as [H _]. congruence. }
  exists ai', player'. split; [reflexivity|].
  destruct (AIState_eqb (state (enemy ai)) DEAD) eqn:E.
  { apply AIState_eqb_eq in E.
    rewrite (update_dead normalize Math_atan2 delta ai player E) in Hup.
    now injection Hup as <- <-. }
  unfold update in Hup. rewrite E in Hup.
  destruct (timers_view delta ai (Player.position player))
    as (Hs & Hp & Hpos & _).
  cbv zeta in Hs, Hp, Hpos.
  set (ai0 := updateTimers delta
                (mkEnemyAI (enemy ai) (Some (Player.position player)))) in *.
  rewrite <- Hpos.
  apply (handler_still normalize Math_atan2 delta ai0 ai' player player'
           (Player.position player) Hp); try (rewrite Hs; assumption).
  exact Hup.
Qed.

Lemma update_moves_only_patrolling_chasing_fleeing_witness :
  state (enemy strikingZombie) <> PATROL
  /\ state (enemy strikingZombie) <> CHASE
  /\ state (enemy strikingZombie) <> FLEE
  /\ exists ai' player',
       update no_normalize no_atan2 (1 # 60) strikingZombie Player.initial
       = Some (ai', player')
       /\ position (enemy ai') = Vector3.mk 1 2 0.
Proof.
  assert (H1 : state (enemy strikingZombie) <> PATROL) by discriminate.
  assert (H2 : state (enemy strikingZombie) <> CHASE) by discriminate.
  assert (H3 : state (enemy strikingZombie) <> FLEE) by discriminate.
  repeat (split; [assumption|]).
  exact (update_moves_only_patrolling_chasing_fleeing no_normalize no_atan2
           (1 # 60) strikingZombie Player.initial H1 H2 H3).
Defined.

(** X19. The AI built on a freshly spawned enemy never throws: for any
    frame times and player positions every run of updates returns, the
    stats stay those of the enemy's type and the enemy is never made
    [DEAD]. *)
Theorem spawned_enemy_ai_never_throws
    (normalize : Vector3.t -> Vector3.t)
    (Math_atan2 : number -> number -> number)
    (type : EnemyType) (p : Vector3.t) (w : World)
    (frames : list (number * Vector3.t)) (player : Player.t) :
  exists e ai' player',
    Map_get (fst (spawnEnemy type p w)) (enemies (snd (spawnEnemy type p w)))
    = Some e
    /\ aiRun normalize Math_atan2 frames (new_EnemyAI e) player
       = Some (ai', player')
    /\ stats (enemy ai') = ENEMY_CONFIGS type
    /\ id (enemy ai') = fst (spawnEnemy type p w)
    /\ state (enemy ai') <> DEAD.
Proof.
  rewrite spawnEnemy_world, spawnEnemy_id. cbn [enemies].
  rewrite Map_get_set_same.
  set (e := spawnedEnemy type p (N.succ (enemyIdCounter w))).
  assert (Hok : patrol_ok (enemy (new_EnemyAI e)))
    by (unfold patrol_ok; simpl; lia).
  destruct (aiRun_facts normalize Math_atan2 frames (new_EnemyAI e) player Hok)
    as (ai' & player' & Hrun & Hu & _ & Hd & _).
  exists e, ai', player'. split; [reflexivity|]. split; [exact Hrun|].
  destruct Hu as (Hid & _ & Hst & _).
  split; [exact Hst|]. split; [exact Hid|].
  apply Hd. discriminate.
Qed.

(** ** The [Enemy] component: what a frame commits to the store *)

Lemma spread_allFields (e e' : EnemyData) : spread e (allFields e') = e'.
Proof. destruct e'. reflexivity. Qed.

Lemma Enemy_useFrame_runs (normalize : Vector3.t -> Vector3.t)
    (Math_atan2 : number -> number -> number)
    (renderedEnemy : EnemyData) (delta : number) (aiRef ai' : EnemyAI)
    (w : World) (player player' : Player.t) :
  state renderedEnemy <> DEAD ->
  update normalize Math_atan2 delta aiRef player = Some (ai', player') ->
  Enemy_useFrame normalize Math_atan2 true renderedEnemy delta aiRef w player
  = Some (ai',
          updateEnemy (id (enemy ai'))
            (allFields
               (with_position
                  (Vector3.mk (Vector3.x (position (enemy ai'))) 1
                     (Vector3.z (position (enemy ai'))))
                  (enemy ai'))) w,
          player').
Proof.
  intros Hr Hup. unfold Enemy_useFrame.
  apply AIState_eqb_neq in Hr. rewrite Hr, Hup. reflexivity.
Qed.

Lemma updateEnemy_allFields (k : string) (e' stored : EnemyData) (w : World) :
  Map_get k (enemies w) = Some stored ->
  Map_get k (enemies (updateEnemy k (allFields e') w)) = Some e'
  /\ (forall k', k' <> k ->
        Map_get k' (enemies (updateEnemy k (allFields e') w))
        = Map_get k' (enemies w))
  /\ damageEvents (updateEnemy k (allFields e') w) = damageEvents w
  /\ timeouts (updateEnemy k (allFields e') w) = timeouts w.
Proof.
  intros Hget. unfold updateEnemy. rewrite Hget, spread_allFields.
  cbn [set_enemies enemies damageEvents timeouts].
  split; [apply Map_get_set_same|]. split; [|auto].
  intros k' Hne. apply Map_get_set_other. congruence.
Qed.

Lemma enemy_frame_commit
    (normalize : Vector3.t -> Vector3.t)
    (Math_atan2 : number -> number -> number)
    (renderedEnemy stored : EnemyData) (delta : number) (aiRef : EnemyAI)
    (w : World) (player : Player.t) :
  state renderedEnemy <> DEAD ->
  patrol_ok (enemy aiRef) ->
  Map_get (id (enemy aiRef)) (enemies w) = Some stored ->
  exists ai' w' player',
    Enemy_useFrame normalize Math_atan2 true renderedEnemy delta aiRef w player
    = Some (ai', w', player')
    /\ update normalize Math_atan2 delta aiRef player = Some (ai', player')
    /\ Map_get (id (enemy aiRef)) (enemies w')
       = Some (with_position
                 (Vector3.mk (Vector3.x (position (enemy ai'))) 1
                    (Vector3.z (position (enemy ai'))))
                 (enemy ai'))
    /\ untouched (enemy aiRef) (enemy ai')
    /\ (forall k, k <> id (enemy aiRef) ->
          Map_get k (enemies w') = Map_get k (enemies w))
    /\ damageEvents w' = damageEvents w
    /\ timeouts w' = timeouts w.
Proof.
  intros Hrendered Hindex Hstored.
  destruct (update_total normalize Math_atan2 delta aiRef player Hindex)
    as (ai' & player' & Hup).
  destruct (update_step normalize Math_atan2 delta aiRef ai' player player'
              Hup) as (Hu & _).
  pose proof Hu as (Hid & _).
  rewrite (Enemy_useFrame_runs normalize Math_atan2 renderedEnemy delta aiRef
             ai' w player player' Hrendered Hup).
  rewrite Hid.
  do 3 eexists. split; [reflexivity|]. split; [exact Hup|].
  destruct (updateEnemy_allFields (id (enemy aiRef))
              (with_position
                 (Vector3.mk (Vector3.x (position (enemy ai'))) 1
                    (Vector3.z (position (enemy ai'))))
                 (enemy ai')) stored w Hstored) as (H1 & H2 & H3 & H4).
  auto.
Qed.

(** X20. A frame of a mounted [Enemy] that runs (rigid body present,
    rendered state not [DEAD]) replaces the store's record of that
    enemy by the AI instance's own record with [position.y] set to 1,
    whatever the store held: every field, [stats] included, comes from
    the instance.  Other enemies, the damage events and the timers are
    left alone. *)
Theorem enemy_frame_overwrites_store_record
    (normalize : Vector3.t -> Vector3.t)
    (Math_atan2 : number -> number -> number)
    (renderedEnemy stored : EnemyData) (delta : number) (aiRef : EnemyAI)
    (w : World) (player : Player.t)
    (Hrendered : state renderedEnemy <> DEAD)
    (Hindex : patrol_ok (enemy aiRef))
    (Hstored : Map_get (id (enemy aiRef)) (enemies w) = Some stored) :
  exists ai' w' player',
    Enemy_useFrame normalize Math_atan2 true renderedEnemy delta aiRef w player
    = Some (ai', w', player')
    /\ update normalize Math_atan2 delta aiRef player = Some (ai', player')
    /\ Map_get (id (enemy aiRef)) (enemies w')
       = Some (with_position
                 (Vector3.mk (Vector3.x (position (enemy ai'))) 1
                    (Vector3.z (position (enemy ai'))))
                 (enemy ai'))
    /\ stats (enemy ai') = stats (enemy aiRef)
    /\ (forall k, k <> id (enemy aiRef) ->
          Map_get k (enemies w') = Map_get k (enemies w))
    /\ damageEvents w' = damageEvents w
    /\ timeouts w' = timeouts w.
Proof.
  destruct (enemy_frame_commit normalize Math_atan2 renderedEnemy stored delta
              aiRef w player Hrendered Hindex Hstored)
    as (ai' & w' & player' & H1 & H2 & H3 & (_ & _ & H4 & _) & H5 & H6 & H7).
  exists ai', w', player'. auto 10.
Qed.

Lemma enemy_frame_overwrites_store_record_witness :
  state sampleZombie <> DEAD
  /\ patrol_ok (enemy (new_EnemyAI sampleZombie))
  /\ Map_get (id (enemy (new_EnemyAI sampleZombie))) (enemies zombieWorld)
     = Some sampleZombie
  /\ exists ai' w' player',
       Enemy_useFrame no_normalize no_atan2 true sampleZombie (1 # 60)
         (new_EnemyAI sampleZombie) zombieWorld Player.initial
       = Some (ai', w', player')
       /\ Map_get "enemy-zombie-1" (enemies w')
          = Some (with_position
                    (Vector3.mk (Vector3.x (position (enemy ai'))) 1
                       (Vector3.z (position (enemy ai'))))
                    (enemy ai')).
Proof.
  assert (H1 : state sampleZombie <> DEAD) by discriminate.
  assert (H2 : patrol_ok (enemy (new_EnemyAI sampleZombie)))
    by (unfold patrol_ok; simpl; lia).
  assert (H3 : Map_get (id (enemy (new_EnemyAI sampleZombie)))
                 (enemies zombieWorld) = Some sampleZombie) by reflexivity.
  repeat (split; [assumption|]).
  destruct (enemy_frame_overwrites_store_record no_normalize no_atan2
              sampleZombie sampleZombie (1 # 60) (new_EnemyAI sampleZombie)
              zombieWorld Player.initial H1 H2 H3)
    as (ai' & w' & player' & Hf & _ & Hg & _).
  exists ai', w', player'. split; [exact Hf | exact Hg].
Defined.

(** X21. Damage that does not kill is undone by the enemy's next
    frame.  For a living enemy [e] stored under its id and the AI
    instance built on [e]: [damageEnemy] lowers the stored health, and
    the frame that follows stores the instance's stats again, so the
    health is back at what it was before the blow. *)
Theorem frame_undoes_nonlethal_damage
    (normalize : Vector3.t -> Vector3.t)
    (Math_atan2 : number -> number -> number)
    (w : World) (e : EnemyData) (raw : number) (isCritical : option bool)
    (now delta : number) (player : Player.t)
    (Hget : Map_get (id e) (enemies w) = Some e)
    (Halive : state e <> DEAD)
    (Hindex : patrol_ok e)
    (Hsurvives : finalDamage (defense (stats e)) raw < health (stats e)) :
  let w1 := damageEnemy (id e) raw isCritical now w in
  exists e1 ai' w2 player' e2,
    Map_get (id e) (enemies w1) = Some e1
    /\ state e1 <> DEAD
    /\ health (stats e1) < health (stats e)
    /\ Enemy_useFrame normalize Math_atan2 true e1 delta (new_EnemyAI e) w1
         player
       = Some (ai', w2, player')
    /\ Map_get (id e) (enemies w2) = Some e2
    /\ stats e2 = stats e
    /\ lastDamageTime e2 = lastDamageTime e.
Proof.
  intros w1. subst w1.
  pose proof (damageEnemy_get (id e) raw isCritical now w e Hget Halive)
    as Hget1.
  pose proof (finalDamage_ge_1 (defense (stats e)) raw) as Hfd.
  assert (Hpos : 0 < health (stats (damaged raw now e))
                 /\ health (stats (damaged raw now e)) < health (stats e)).
  { unfold damaged. cbn [stats with_state with_lastDamageTime with_stats
                         health with_health].
    unfold Math_max.
    destruct (Q.max_spec 0
                (health (stats e) - finalDamage (defense (stats e)) raw))
      as [[_ Hm] | [Hle _]]; [rewrite Hm; split; lra | lra]. }
  assert (Halive1 : state (damaged raw now e) <> DEAD).
  { intros Hd. apply (damaged_dead_iff raw now e Halive) in Hd.
    destruct Hpos as [Hpos _]. rewrite Hd in Hpos.
    revert Hpos. apply Qlt_irrefl. }
  destruct (enemy_frame_commit normalize Math_atan2 (damaged raw now e)
              (damaged raw now e) delta (new_EnemyAI e)
              (damageEnemy (id e) raw isCritical now w) player
              Halive1 Hindex Hget1)
    as (ai' & w2 & player' & Hf & _ & Hg & (_ & _ & Hst & _ & Hldt & _) & _).
  exists (damaged raw now e), ai', w2, player'. eexists.
  split; [exact Hget1|]. split; [exact Halive1|].
  split; [apply Hpos|]. split; [exact Hf|]. split; [exact Hg|].
  cbn [stats lastDamageTime with_position]. auto.
Qed.

Lemma frame_undoes_nonlethal_damage_witness :
  Map_get (id sampleZombie) (enemies zombieWorld) = Some sampleZombie
  /\ state sampleZombie <> DEAD
  /\ patrol_ok sampleZombie
  /\ finalDamage (defense (stats sampleZombie)) 20
     < health (stats sampleZombie)
  /\ exists e1 ai' w2 player' e2,
       Map_get "enemy-zombie-1"
         (enemies (damageEnemy "enemy-zombie-1" 20 None 0 zombieWorld))
       = Some e1
       /\ health (stats e1) < 100
       /\ Enemy_useFrame no_normalize no_atan2 true e1 (1 # 60)
            (new_EnemyAI sampleZombie)
            (damageEnemy "enemy-zombie-1" 20 None 0 zombieWorld)
            Player.initial
          = Some (ai', w2, player')
       /\ Map_get "enemy-zombie-1" (enemies w2) = Some e2
       /\ health (stats e2) = 100.
Proof.
  assert (H1 : Map_get (id sampleZombie) (enemies zombieWorld)
               = Some sampleZombie) by reflexivity.
  assert (H2 : state sampleZombie <> DEAD) by discriminate.
  assert (H3 : patrol_ok sampleZombie) by (unfold patrol_ok; simpl; lia).
  assert (H4 : finalDamage (defense (stats sampleZombie)) 20
               < health (stats sampleZombie)) by reflexivity.
  repeat (split; [assumption|]).
  destruct (frame_undoes_nonlethal_damage no_normalize no_atan2 zombieWorld
              sampleZombie 20 None 0 (1 # 60) Player.initial H1 H2 H3 H4)
    as (e1 & ai' & w2 & player' & e2 & G1 & _ & G2 & G3 & G4 & G5 & _).
  exists e1, ai', w2, player', e2.
  split; [exact G1|]. split; [exact G2|]. split; [exact G3|].
  split; [exact G4|]. now rewrite G5.
Defined.

(** X22. A respawned enemy is killed again by its own component.  When
    a blow kills [e], the effect replaces the AI instance by one built
    on the [DEAD] record; [respawnEnemy] then restores the stored
    record to PATROL at full health, which does not trigger the effect
    again; the next frame that runs finds the instance [DEAD], gets its
    record back unchanged from [update] and commits it, so the store
    holds the enemy [DEAD] with no health again, and no respawn timer
    is armed for it. *)
Theorem stale_ai_kills_respawned_enemy
    (normalize : Vector3.t -> Vector3.t)
    (Math_atan2 : number -> number -> number)
    (w : World) (e : EnemyData) (raw : number) (isCritical : option bool)
    (now delta : number) (player : Player.t) (aiRef : EnemyAI)
    (p0 : Vector3.t)
    (Hget : Map_get (id e) (enemies w) = Some e)
    (Halive : state e <> DEAD)
    (Hpoint : nth_error (patrolPoints e) 0 = Some p0)
    (Hlethal : health (stats e) <= finalDamage (defense (stats e)) raw) :
  let w1 := damageEnemy (id e) raw isCritical now w in
  exists dead w2 fresh w3 e3,
    Map_get (id e) (enemies w1) = Some dead
    /\ state dead = DEAD
    /\ respawnEnemy (id e) w1 = Some w2
    /\ Map_get (id e) (enemies w2) = Some fresh
    /\ state fresh = PATROL
    /\ health (stats fresh) = maxHealth (stats e)
    /\ let ai := Enemy_useEffect (state dead) dead aiRef in
       Enemy_useEffect (state fresh) fresh ai = ai
       /\ Enemy_useFrame normalize Math_atan2 true fresh delta ai w2 player
          = Some (ai, w3, player)
       /\ Map_get (id e) (enemies w3) = Some e3
       /\ state e3 = DEAD
       /\ health (stats e3) == 0
       /\ timeouts w3 = timeouts w2.
Proof.
  intros w1. subst w1.
  pose proof (damageEnemy_get (id e) raw isCritical now w e Hget Halive)
    as Hget1.
  assert (Hh : health (stats (damaged raw now e)) == 0).
  { unfold damaged. cbn [stats with_state with_lastDamageTime with_stats
                         health with_health].
    unfold Math_max.
    destruct (Q.max_spec 0
                (health (stats e) - finalDamage (defense (stats e)) raw))
      as [[Hlt _] | [_ Hm]]; [lra | exact Hm]. }
  assert (Hdead : state (damaged raw now e) = DEAD)
    by (apply (damaged_dead_iff raw now e Halive); exact Hh).
  assert (Hpoint1 : nth_error (patrolPoints (damaged raw now e)) 0 = Some p0)
    by exact Hpoint.
  pose proof (respawnEnemy_present (id e) _ _ p0 Hget1 Hpoint1) as Hres.
  set (w1 := damageEnemy (id e) raw isCritical now w) in *.
  set (dead := damaged raw now e) in *.
  set (w2 := set_enemies (Map_set (id e) (respawned p0 dead) (enemies w1)) w1)
    in *.
  assert (Hget2 : Map_get (id e) (enemies w2) = Some (respawned p0 dead))
    by apply Map_get_set_same.
  exists dead, w2, (respawned p0 dead). do 2 eexists.
  split; [exact Hget1|]. split; [exact Hdead|]. split; [exact Hres|].
  split; [exact Hget2|]. split; [reflexivity|]. split; [reflexivity|].
  cbv zeta. rewrite Hdead.
  change (Enemy_useEffect DEAD dead aiRef) with (new_EnemyAI dead).
  split; [reflexivity|].
  assert (Hup : update normalize Math_atan2 delta (new_EnemyAI dead) player
                = Some (new_EnemyAI dead, player))
    by (apply update_dead; exact Hdead).
  rewrite (Enemy_useFrame_runs normalize Math_atan2 (respawned p0 dead) delta
             (new_EnemyAI dead) (new_EnemyAI dead) w2 player player
             ltac:(discriminate) Hup).
  cbn [enemy new_EnemyAI].
  assert (Hid : id dead = id e) by reflexivity.
  rewrite Hid.
  destruct (updateEnemy_allFields (id e)
              (with_position
                 (Vector3.mk (Vector3.x (position dead)) 1
                    (Vector3.z (position dead))) dead)
              (respawned p0 dead) w2 Hget2) as (G1 & _ & _ & G4).
  split; [reflexivity|]. split; [exact G1|].
  split; [exact Hdead|]. split; [exact Hh | exact G4].
Qed.

Lemma stale_ai_kills_respawned_enemy_witness :
  Map_get (id sampleZombie) (enemies zombieWorld) = Some sampleZombie
  /\ state sampleZombie <> DEAD
  /\ nth_error (patrolPoints sampleZombie) 0 = Some (Vector3.mk 20 1 0)
  /\ health (stats sampleZombie)
     <= finalDamage (defense (stats sampleZombie)) 2000
  /\ exists w2 fresh w3 e3,
       respawnEnemy "enemy-zombie-1"
         (damageEnemy "enemy-zombie-1" 2000 None 0 zombieWorld)
       = Some w2
       /\ Map_get "enemy-zombie-1" (enemies w2) = Some fresh
       /\ state fresh = PATROL
       /\ Enemy_useFrame no_normalize no_atan2 true fresh (1 # 60)
            (new_EnemyAI deadZombie) w2 Player.initial
          = Some (new_EnemyAI deadZombie, w3, Player.initial)
       /\ Map_get "enemy-zombie-1" (enemies w3) = Some e3
       /\ state e3 = DEAD.
Proof.
  assert (H1 : Map_get (id sampleZombie) (enemies zombieWorld)
               = Some sampleZombie) by reflexivity.
  assert (H2 : state sampleZombie <> DEAD) by discriminate.
  assert (H3 : nth_error (patrolPoints sampleZombie) 0
               = Some (Vector3.mk 20 1 0)) by reflexivity.
  assert (H4 : health (stats sampleZombie)
               <= finalDamage (defense (stats sampleZombie)) 2000)
    by (vm_compute; discriminate).
  repeat (split; [assumption|]).
  destruct (stale_ai_kills_respawned_enemy no_normalize no_atan2 zombieWorld
              sampleZombie 2000 None 0 (1 # 60) Player.initial
              (new_EnemyAI sampleZombie) (Vector3.mk 20 1 0) H1 H2 H3 H4)
    as (dead & w2 & fresh & w3 & e3 & G1 & G2 & G3 & G4 & G5 & _ & G6).
  cbv zeta in G6. destruct G6 as (_ & G7 & G8 & G9 & _).
  assert (Hd : dead = with_lastDamageTime 0 deadZombie).
  { change (Map_get (id sampleZombie)
              (enemies (damageEnemy (id sampleZombie) 2000 None 0 zombieWorld)))
      with (Some (damaged 2000 0 sampleZombie)) in G1.
    injection G1 as <-. reflexivity. }
  exists w2, fresh, w3, e3.
  split; [exact G3|]. split; [exact G4|]. split; [exact G5|].
  split; [|split; [exact G8 | exact G9]].
  subst dead. exact G7.
Defined.


(** ** Instances of the store and player properties *)

Lemma spawnEnemy_returns_fresh_id_witness :
  reachable zombieWorld
  /\ Map_get (fst (spawnEnemy BANDIT (Vector3.mk 0 1 20) zombieWorld))
       (enemies zombieWorld) = None
  /\ Map_keys
       (enemies (snd (spawnEnemy BANDIT (Vector3.mk 0 1 20) zombieWorld)))
     = ["enemy-zombie-1"%string;
        fst (spawnEnemy BANDIT (Vector3.mk 0 1 20) zombieWorld)].
Proof.
  assert (Hreach : reachable zombieWorld)
    by (exists [Store (SpawnEnemy ZOMBIE (Vector3.mk 10 1 0))]; reflexivity).
  split; [exact Hreach|].
  destruct (spawnEnemy_returns_fresh_id zombieWorld BANDIT
              (Vector3.mk 0 1 20) Hreach) as (_ & Hfresh & Hkeys & _).
  split; [exact Hfresh | exact Hkeys].
Defined.

Lemma removed_enemy_never_returns_witness :
  reachable zombieWorld
  /\ In "enemy-zombie-1"%string (Map_keys (enemies zombieWorld))
  /\ Map_get "enemy-zombie-1"
       (enemies
          (performAll [Store (SpawnEnemy ZOMBIE (Vector3.mk 10 1 0))]
             (removeEnemy "enemy-zombie-1" zombieWorld)))
     = None.
Proof.
  assert (Hreach : reachable zombieWorld)
    by (exists [Store (SpawnEnemy ZOMBIE (Vector3.mk 10 1 0))]; reflexivity).
  assert (Hin : In "enemy-zombie-1"%string (Map_keys (enemies zombieWorld)))
    by (simpl; auto).
  split; [exact Hreach|]. split; [exact Hin|].
  exact (proj1 (removed_enemy_never_returns zombieWorld "enemy-zombie-1"
                  [Store (SpawnEnemy ZOMBIE (Vector3.mk 10 1 0))]
                  Hreach Hin)).
Defined.

Lemma repeated_damage_kills_witness :
  Map_get "enemy-zombie-1" (enemies frailWorld) = Some frailZombie
  /\ state frailZombie <> DEAD
  /\ (1 <= 2)%nat
  /\ health (stats frailZombie) <= 2
  /\ exists e',
       Map_get "enemy-zombie-1"
         (enemies
            (damageRepeatedly "enemy-zombie-1"
               [(0, None, 0); (0, None, 1)] frailWorld))
       = Some e'
       /\ state e' = DEAD
       /\ health (stats e') == 0.
Proof.
  assert (H1 : Map_get "enemy-zombie-1" (enemies frailWorld)
               = Some frailZombie) by reflexivity.
  assert (H2 : state frailZombie <> DEAD) by discriminate.
  assert (H3 : (1 <= 2)%nat) by lia.
  assert (H4 : health (stats frailZombie) <= 2) by (vm_compute; discriminate).
  repeat (split; [assumption|]).
  exact (repeated_damage_kills "enemy-zombie-1" [(0, None, 0); (0, None, 1)]
           frailWorld frailZombie H1 H2 H3 H4).
Defined.

Lemma damageEnemy_kills_iff_witness :
  Map_get "enemy-zombie-1" (enemies zombieWorld) = Some sampleZombie
  /\ state sampleZombie <> DEAD
  /\ exists e',
       Map_get "enemy-zombie-1"
         (enemies (damageEnemy "enemy-zombie-1" 20 None 0 zombieWorld))
       = Some e'
       /\ List.length
            (damageEvents (damageEnemy "enemy-zombie-1" 20 None 0 zombieWorld))
          = 1%nat
       /\ (state e' = DEAD
           <-> health (stats sampleZombie)
               <= finalDamage (defense (stats sampleZombie)) 20).
Proof.
  assert (H1 : Map_get "enemy-zombie-1" (enemies zombieWorld)
               = Some sampleZombie) by reflexivity.
  assert (H2 : state sampleZombie <> DEAD) by discriminate.
  repeat (split; [assumption|]).
  destruct (damageEnemy_kills_iff "enemy-zombie-1" 20 None 0 zombieWorld
              sampleZombie H1 H2) as (e' & G1 & G2 & G3 & _).
  exists e'. split; [exact G1|]. split; [exact G2 | exact G3].
Defined.

Lemma respawn_after_death_restores_spawned_enemy_witness :
  maxHealth (ENEMY_CONFIGS ZOMBIE)
  <= finalDamage (defense (ENEMY_CONFIGS ZOMBIE)) 2000
  /\ exists e2 w3 e3,
       Map_get "enemy-zombie-1"
         (enemies
            (damageEnemy "enemy-zombie-1" 2000 None 7
               (snd (spawnEnemy ZOMBIE (Vector3.mk 10 1 0) initialWorld))))
       = Some e2
       /\ state e2 = DEAD
       /\ respawnEnemy "enemy-zombie-1"
            (damageEnemy "enemy-zombie-1" 2000 None 7
               (snd (spawnEnemy ZOMBIE (Vector3.mk 10 1 0) initialWorld)))
          = Some w3
       /\ Map_get "enemy-zombie-1" (enemies w3) = Some e3
       /\ position e3 <> Vector3.mk 10 1 0.
Proof.
  assert (H1 : maxHealth (ENEMY_CONFIGS ZOMBIE)
               <= finalDamage (defense (ENEMY_CONFIGS ZOMBIE)) 2000)
    by (vm_compute; discriminate).
  split; [exact H1|].
  destruct (respawn_after_death_restores_spawned_enemy initialWorld ZOMBIE
              (Vector3.mk 10 1 0) 2000 None 7 H1)
    as (e2 & w3 & e3 & q & G1 & G2 & _ & _ & G5 & G6 & _ & _ & _ & _ & G11 & _).
  exists e2, w3, e3.
  split; [exact G1|]. split; [exact G2|]. split; [exact G5|].
  split; [exact G6 | exact G11].
Defined.

Lemma player_vitals_stay_in_range_witness :
  Forall amount_ok
    [TakeDamage 150; Heal 30; DrainStamina 500; RegenerateStamina 20]
  /\ vitals_ok PlayerState.initial
  /\ vitals_ok
       (playerRun
          [TakeDamage 150; Heal 30; DrainStamina 500; RegenerateStamina 20]
          PlayerState.initial).
Proof.
  assert (H1 : Forall amount_ok
                 [TakeDamage 150; Heal 30; DrainStamina 500;
                  RegenerateStamina 20])
    by (repeat constructor; vm_compute; discriminate).
  assert (H2 : vitals_ok PlayerState.initial)
    by (repeat split; vm_compute; discriminate).
  split; [exact H1|]. split; [exact H2|].
  exact (player_vitals_stay_in_range _ PlayerState.initial H1 H2).
Defined.


(** ** A melee attack, from the ray to the store *)

(** X23. [performMeleeAttack] damages the enemy the ray hits and
    nothing else.  For a store with distinct keys, either no enemy
    qualifies and the world is returned as it is with [hit: false], or
    the nearest qualifying enemy and only that one is damaged: it
    takes one [damageEnemy] of [weapon.damage], multiplied by
    [critMultiplier || 2.0] on a critical roll, one damage event
    carrying the mitigated amount is appended, and every other enemy
    keeps its record; the result reports the unmitigated damage. *)
Theorem melee_attack_damages_only_the_nearest_target
    (applyQuaternion : Vector3.t -> Quaternion.t -> Vector3.t)
    (normalize : Vector3.t -> Vector3.t)
    (weapon : Weapon.t) (camera : Camera.t) (random now : number) (w : World)
    (Huniq : NoDup (Map_keys (enemies w))) :
  let dir :=
    normalize
      (applyQuaternion (Vector3.mk 0 0 (-1)) (Camera.quaternion camera)) in
  let ok := qualifies (Camera.position camera) dir (Weapon.range weapon) in
  let t := projection (Camera.position camera) dir in
  let isCrit := rollCrit weapon random in
  let raw := meleeDamage weapon isCrit in
  let r := performMeleeAttack applyQuaternion normalize weapon camera random
             now w in
  (r = (MeleeResult.mk false None None, w)
   /\ forall k e, In (k, e) (enemies w) -> ~ ok e)
  \/ (exists k e,
        In (k, e) (enemies w)
        /\ ok e
        /\ (forall k' e', In (k', e') (enemies w) -> ok e' -> t e <= t e')
        /\ fst r = MeleeResult.mk true (Some raw) (Some isCrit)
        /\ Map_get k (enemies (snd r)) = Some (damaged raw now e)
        /\ (forall k', k' <> k ->
              Map_get k' (enemies (snd r)) = Map_get k' (enemies w))
        /\ damageEvents (snd r)
           = damageEvents w
             ++ [DamageEvent.mk k (finalDamage (defense (stats e)) raw)
                   isCrit (position e)]).
Proof.
  intros dir ok t isCrit raw r. subst r.
  pose proof (checkEnemyHit_inv (Camera.position camera) dir
                (Weapon.range weapon) w) as Hinv.
  unfold performMeleeAttack, Vector3.clone. fold dir.
  destruct (checkEnemyHit (Camera.position camera) dir (Weapon.range weapon) w)
    as [h|].
  - right. destruct Hinv as (e & Hin & Hok & Hd & Hmin).
    exists (Hit.enemyId h), e.
    assert (Hget : Map_get (Hit.enemyId h) (enemies w) = Some e)
      by (apply Map_get_NoDup; assumption).
    assert (Halive : state e <> DEAD) by apply Hok.
    destruct (damageEnemy_alive (Hit.enemyId h) raw (Some isCrit) now w e
                Hget Halive) as (Hen & Hev & _).
    split; [exact Hin|]. split; [exact Hok|].
    split; [intros k' e' Hin' Hok'; unfold t; rewrite <- Hd; now apply (Hmin k')|].
    split; [reflexivity|]. cbn [snd]. fold isCrit raw.
    split; [rewrite Hen; apply Map_get_set_same|].
    split; [|exact Hev].
    intros k' Hne. rewrite Hen. apply Map_get_set_other. congruence.
  - left. split; [reflexivity | exact Hinv].
Qed.

Lemma melee_attack_damages_only_the_nearest_target_witness :
  NoDup (Map_keys (enemies axisWorld))
  /\ exists e',
       Map_get "near"
         (enemies
            (snd (performMeleeAttack (fun v _ => v) no_normalize bluntSword
                    (Camera.mk (Vector3.mk 0 0 0) (Quaternion.mk 0 0 0 1))
                    (1 # 2) 0 axisWorld)))
       = Some e'
       /\ health (stats e') < 100.
Proof.
  assert (Huniq : NoDup (Map_keys (enemies axisWorld)))
    by (repeat constructor; simpl; intuition discriminate).
  split; [exact Huniq|].
  destruct (melee_attack_damages_only_the_nearest_target (fun v _ => v)
              no_normalize bluntSword
              (Camera.mk (Vector3.mk 0 0 0) (Quaternion.mk 0 0 0 1))
              (1 # 2) 0 axisWorld Huniq)
    as [[Hmiss _] | (k & e & _ & _ & _ & _ & Hget & _)].
  - exfalso.
    apply (f_equal (fun r => MeleeResult.hit (fst r))) in Hmiss.
    vm_compute in Hmiss. discriminate.
  - match goal with
    | |- exists e', ?m = Some e' /\ _ => destruct m as [e'|] eqn:E
    end.
    + exists e'. split; [reflexivity|].
      vm_compute in E. injection E as <-. vm_compute. reflexivity.
    + vm_compute in E. discriminate.
Defined.

(** ** A projectile that hits nothing *)

Section ProjectileFlight.

Variable props : ProjectileData.t.









End ProjectileFlight.



(** ** The weapon controller: what a frame does to the stores *)

Section WeaponFrames.

Variable applyQuaternion : Vector3.t -> Quaternion.t -> Vector3.t.
Variable normalize : Vector3.t -> Vector3.t.
Variable getWorldDirection : Camera.t -> Vector3.t.

Lemma same_body_refl (s : PlayerState.t) : same_body s s.
Proof. unfold same_body. auto. Qed.

Lemma same_body_trans (s1 s2 s3 : PlayerState.t) :
  same_body s1 s2 -> same_body s2 s3 -> same_body s1 s3.
Proof. unfold same_body. intuition congruence. Qed.

Lemma updateAttackCooldown_body (delta : number) (s : PlayerState.t) :
  same_body s (PlayerState.updateAttackCooldown delta s).
Proof. unfold same_body. auto. Qed.

Lemma equipWeapon_body (k : string) (s : PlayerState.t) :
  same_body s (PlayerState.equipWeapon k s).
Proof.
  unfold same_body, PlayerState.equipWeapon.
  destruct (find _ (PlayerState.weapons s)); auto.
Qed.

Lemma reload_body (s : PlayerState.t) :
  same_body s (fst (PlayerState.reload s)).
Proof.
  unfold same_body, PlayerState.reload.
  destruct (PlayerState.currentWeapon s) as [wp|]; [|auto].
  destruct (negb (WeaponType_eqb (Weapon.type wp) ranged)); [auto|].
  match goal with |- context [if ?c then _ else _] => destruct c end; auto.
Qed.

Lemma attack_body (s : PlayerState.t) :
  same_body s (PlayerState.attack s).
Proof.
  unfold same_body, PlayerState.attack.
  destruct (PlayerState.currentWeapon s) as [wp|]; [|auto].
  destruct (Weapon.type wp); auto.
Qed.

Lemma beforeAttack_body (keys : KeyState.t) (rendered : PlayerState.t)
    (delta : number) (refs : WeaponRefs.t) (s : PlayerState.t) :
  same_body s (fst (beforeAttack keys rendered delta refs s)).
Proof.
  unfold beforeAttack.
  repeat match goal with
         | |- context [if ?c then _ else _] => destruct c
         end;
    cbn [fst];
    repeat (first [ apply same_body_refl
                  | eapply same_body_trans; [|apply reload_body]
                  | eapply same_body_trans; [|apply equipWeapon_body]
                  | apply updateAttackCooldown_body ]).
Qed.

(** The frame as the attack logic applied to [beforeAttack]. *)
Lemma WeaponController_useFrame_split (keys : KeyState.t)
    (rendered : PlayerState.t) (camera : Camera.t)
    (delta random now : number) (projectileId : nat)
    (refs : WeaponRefs.t) (s : PlayerState.t) (w : World) :
  let s0 := fst (beforeAttack keys rendered delta refs s) in
  let timer := snd (beforeAttack keys rendered delta refs s) in
  let refs' :=
    WeaponRefs.mk (KeyState.weaponSlot1 keys) (KeyState.weaponSlot2 keys)
      (KeyState.reload keys) in
  WeaponController_useFrame applyQuaternion normalize getWorldDirection keys
    rendered camera delta random now projectileId refs s w
  = match PlayerState.currentWeapon rendered with
    | None => (refs', s0, w, timer)
    | Some weapon =>
        if ready keys rendered
        then
          match Weapon.type weapon with
          | melee =>
              if PlayerState.stamina rendered <? cost weapon
              then (refs', s0, w, timer)
              else
                (refs',
                 PlayerState.attack
                   (PlayerState.drainStamina (cost weapon) s0),
                 snd (performMeleeAttack applyQuaternion normalize weapon
                        camera random now w),
                 timer)
          | ranged =>
              if 0 <? clip weapon
              then
                (refs',
                 PlayerState.attack
                   (PlayerState.spawnProjectile
                      (shot getWorldDirection camera projectileId weapon) s0),
                 w, timer)
              else (refs', s0, w, timer)
          end
        else (refs', s0, w, timer)
    end.
Proof.
  intros s0 timer refs'. subst s0 timer refs'.
  unfold WeaponController_useFrame, beforeAttack, ready, cost, clip, shot,
    Vector3.clone.
  set (c1 := PlayerState.attackCooldown rendered >? 0).
  set (s1 := if c1 then PlayerState.updateAttackCooldown delta s else s).
  set (s2 := if KeyState.weaponSlot1 keys
                && negb (WeaponRefs.prevWeaponSlot1 refs)
             then PlayerState.equipWeapon "sword" s1 else s1).
  set (s3 := if KeyState.weaponSlot2 keys
                && negb (WeaponRefs.prevWeaponSlot2 refs)
             then PlayerState.equipWeapon "pistol" s2 else s2).
  set (r := if KeyState.reload keys && negb (WeaponRefs.prevReload refs)
               && isRanged (PlayerState.currentWeapon rendered)
               && negb (PlayerState.isReloading rendered)
            then PlayerState.reload s3 else (s3, None)).
  destruct r as [s4 timer]. cbn [fst snd].
  destruct (PlayerState.currentWeapon rendered) as [weapon|]; [|reflexivity].
  destruct (KeyState.attack keys), c1, (PlayerState.isReloading rendered);
    cbn [negb orb andb]; try reflexivity.
  destruct (Weapon.type weapon); [reflexivity|].
  change (0 <? or_default (Weapon.ammo weapon) 0)
    with (negb (or_default (Weapon.ammo weapon) 0 <=? 0)).
  destruct (or_default (Weapon.ammo weapon) 0 <=? 0); reflexivity.
Qed.

End WeaponFrames.

(** X25. What a frame of the weapon controller can do is decided by
    the store as last rendered.  It never changes the player's health
    or position and leaves the refs at the keys' values.  With a melee
    weapon rendered it spawns no projectile, and it swings, handing
    the enemy store to [performMeleeAttack] and draining the stamina
    cost whether or not the swing hits, exactly when the attack key is
    down, the rendered cooldown is not positive, no reload is rendered
    and the rendered stamina covers the cost.  With a ranged weapon
    rendered it touches neither the enemy store nor the stamina, and
    adds exactly one projectile, carrying that weapon's damage at speed
    50 from half a unit ahead of the camera, exactly when the attack is
    ready and the rendered clip is not empty. *)
Theorem weapon_frame_effects_are_gated
    (applyQuaternion : Vector3.t -> Quaternion.t -> Vector3.t)
    (normalize : Vector3.t -> Vector3.t)
    (getWorldDirection : Camera.t -> Vector3.t)
    (keys : KeyState.t) (rendered : PlayerState.t) (camera : Camera.t)
    (delta random now : number) (projectileId : nat)
    (refs : WeaponRefs.t) (s : PlayerState.t) (w : World) :
  let r := WeaponController_useFrame applyQuaternion normalize
             getWorldDirection keys rendered camera delta random now
             projectileId refs s w in
  let refs' := fst (fst (fst r)) in
  let s' := snd (fst (fst r)) in
  let w' := snd (fst r) in
  refs' = WeaponRefs.mk (KeyState.weaponSlot1 keys) (KeyState.weaponSlot2 keys)
            (KeyState.reload keys)
  /\ PlayerState.health s' = PlayerState.health s
  /\ PlayerState.position s' = PlayerState.position s
  /\ match PlayerState.currentWeapon rendered with
     | None =>
         w' = w
         /\ PlayerState.stamina s' = PlayerState.stamina s
         /\ PlayerState.projectiles s' = PlayerState.projectiles s
     | Some weapon =>
         match Weapon.type weapon with
         | melee =>
             PlayerState.projectiles s' = PlayerState.projectiles s
             /\ if ready keys rendered
                   && negb (PlayerState.stamina rendered <? cost weapon)
                then
                  w' = snd (performMeleeAttack applyQuaternion normalize
                              weapon camera random now w)
                  /\ PlayerState.stamina s'
                     = Math_max 0 (PlayerState.stamina s - cost weapon)
                else w' = w /\ PlayerState.stamina s' = PlayerState.stamina s
         | ranged =>
             w' = w
             /\ PlayerState.stamina s' = PlayerState.stamina s
             /\ PlayerState.projectiles s'
                = if ready keys rendered && (0 <? clip weapon)
                  then PlayerState.projectiles s
                       ++ [shot getWorldDirection camera projectileId weapon]
                  else PlayerState.projectiles s
         end
     end.
Proof.
  intros r refs' s' w'. subst refs' s' w' r.
  rewrite WeaponController_useFrame_split.
  destruct (beforeAttack_body keys rendered delta refs s)
    as (Hpos & Hhp & Hst & Hpr).
  set (s0 := fst (beforeAttack keys rendered delta refs s)) in *.
  set (timer := snd (beforeAttack keys rendered delta refs s)).
  destruct (PlayerState.currentWeapon rendered) as [weapon|];
    [|cbn [fst snd]; auto 10].
  destruct (ready keys rendered); cbn [andb];
    [|destruct (Weapon.type weapon); cbn [fst snd]; auto 10].
  destruct (Weapon.type weapon).
  - destruct (PlayerState.stamina rendered <? cost weapon); cbn [negb fst snd];
      [auto 10|].
    destruct (attack_body (PlayerState.drainStamina (cost weapon) s0))
      as (Hpos' & Hhp' & Hst' & Hpr').
    unfold PlayerState.drainStamina in *.
    cbn [PlayerState.with_stamina PlayerState.position PlayerState.health
         PlayerState.stamina PlayerState.projectiles] in Hpos', Hhp', Hst', Hpr'.
    repeat split; try congruence.
  - destruct (0 <? clip weapon); cbn [fst snd]; [|auto 10].
    destruct (attack_body
                (PlayerState.spawnProjectile
                   (shot getWorldDirection camera projectileId weapon) s0))
      as (Hpos' & Hhp' & Hst' & Hpr').
    unfold PlayerState.spawnProjectile in *.
    cbn [PlayerState.with_projectiles PlayerState.position PlayerState.health
         PlayerState.stamina PlayerState.projectiles] in Hpos', Hhp', Hst', Hpr'.
    repeat split; try congruence.
Qed.

Ltac ps_simpl :=
  cbn [PlayerState.position PlayerState.rotation PlayerState.velocity
       PlayerState.health PlayerState.maxHealth PlayerState.stamina
       PlayerState.maxStamina PlayerState.isGrounded PlayerState.isJumping
       PlayerState.isSprinting PlayerState.currentWeapon PlayerState.weapons
       PlayerState.attackCooldown PlayerState.isReloading
       PlayerState.projectiles PlayerState.with_position
       PlayerState.with_rotation PlayerState.with_velocity
       PlayerState.with_health PlayerState.with_stamina
       PlayerState.with_isGrounded PlayerState.with_isJumping
       PlayerState.with_isSprinting PlayerState.with_currentWeapon
       PlayerState.with_weapons PlayerState.with_attackCooldown
       PlayerState.with_isReloading PlayerState.with_projectiles
       fst snd] in *.

Lemma ready_inv (keys : KeyState.t) (rendered : PlayerState.t) :
  ready keys rendered = true ->
  KeyState.attack keys = true
  /\ (PlayerState.attackCooldown rendered >? 0) = false
  /\ PlayerState.isReloading rendered = false.
Proof.
  unfold ready.
  destruct (KeyState.attack keys),
    (PlayerState.attackCooldown rendered >? 0),
    (PlayerState.isReloading rendered); cbn; intros H;
    try discriminate; auto.
Qed.

(** [attack] on a store holding [next], whatever else was done to it. *)
Lemma attack_charges (next : Weapon.t) (s : PlayerState.t) :
  PlayerState.currentWeapon s = Some next ->
  PlayerState.currentWeapon (PlayerState.attack s) = Some (charged next)
  /\ PlayerState.attackCooldown (PlayerState.attack s)
     = 1 / Weapon.attackSpeed next.
Proof.
  intros Hcur. unfold PlayerState.attack, charged, clip. rewrite Hcur.
  destruct (Weapon.type next); ps_simpl; auto.
Qed.

(** X26. Switching weapon and attacking in the same frame attacks
    with the old weapon and charges the new one.  With the store as
    rendered, an attack ready and the key of the second slot just
    pressed, the frame swings the melee weapon that was in hand (or
    fires a projectile with the damage of the ranged weapon that was
    in hand), and the store's [attack] then acts on the weapon just
    equipped: the cooldown is that weapon's, and if it is ranged its
    clip loses a round although it fired nothing. *)
Theorem switch_and_attack_charges_the_new_weapon
    (applyQuaternion : Vector3.t -> Quaternion.t -> Vector3.t)
    (normalize : Vector3.t -> Vector3.t)
    (getWorldDirection : Camera.t -> Vector3.t)
    (keys : KeyState.t) (camera : Camera.t)
    (delta random now : number) (projectileId : nat)
    (refs : WeaponRefs.t) (s : PlayerState.t) (w : World)
    (held next : Weapon.t)
    (Hheld : PlayerState.currentWeapon s = Some held)
    (Hnext : find (fun w => String.eqb (Weapon.id w) "pistol")
               (PlayerState.weapons s) = Some next)
    (Hslot : KeyState.weaponSlot2 keys
             && negb (WeaponRefs.prevWeaponSlot2 refs) = true)
    (Hreload : KeyState.reload keys && negb (WeaponRefs.prevReload refs)
               = false)
    (Hready : ready keys s = true)
    (Hable : match Weapon.type held with
             | melee => cost held <= PlayerState.stamina s
             | ranged => 0 < clip held
             end) :
  let r := WeaponController_useFrame applyQuaternion normalize
             getWorldDirection keys s camera delta random now projectileId
             refs s w in
  let s' := snd (fst (fst r)) in
  let w' := snd (fst r) in
  PlayerState.currentWeapon s' = Some (charged next)
  /\ PlayerState.attackCooldown s' = 1 / Weapon.attackSpeed next
  /\ match Weapon.type held with
     | melee =>
         w' = snd (performMeleeAttack applyQuaternion normalize held camera
                     random now w)
         /\ PlayerState.projectiles s' = PlayerState.projectiles s
     | ranged =>
         w' = w
         /\ PlayerState.projectiles s'
            = PlayerState.projectiles s
              ++ [shot getWorldDirection camera projectileId held]
     end.
Proof.
  intros r s' w'. subst s' w' r.
  rewrite WeaponController_useFrame_split. rewrite Hheld, Hready.
  destruct (ready_inv keys s Hready) as (_ & Hcd & _).
  destruct (beforeAttack_body keys s delta refs s) as (_ & _ & _ & Hpr).
  assert (Hcur : PlayerState.currentWeapon
                   (fst (beforeAttack keys s delta refs s)) = Some next).
  { unfold beforeAttack. rewrite Hcd, Hslot, Hreload. cbn [andb fst].
    set (s2 := if KeyState.weaponSlot1 keys
                  && negb (WeaponRefs.prevWeaponSlot1 refs)
               then PlayerState.equipWeapon "sword" s else s).
    assert (Hw2 : PlayerState.weapons s2 = PlayerState.weapons s).
    { subst s2.
      destruct (KeyState.weaponSlot1 keys
                && negb (WeaponRefs.prevWeaponSlot1 refs)); [|reflexivity].
      unfold PlayerState.equipWeapon.
      destruct (find (fun w => String.eqb (Weapon.id w) "sword")
                  (PlayerState.weapons s)); reflexivity. }
    unfold PlayerState.equipWeapon. rewrite Hw2, Hnext. reflexivity. }
  set (s0 := fst (beforeAttack keys s delta refs s)) in *.
  destruct (Weapon.type held).
  - apply Qlt_bool_false in Hable. rewrite Hable. cbn [fst snd].
    destruct (attack_charges next (PlayerState.drainStamina (cost held) s0)
                Hcur) as [H1 H2].
    destruct (attack_body (PlayerState.drainStamina (cost held) s0))
      as (_ & _ & _ & H3).
    split; [exact H1|]. split; [exact H2|]. split; [reflexivity|].
    rewrite H3. exact Hpr.
  - apply Qlt_bool_iff in Hable. rewrite Hable. cbn [fst snd].
    destruct (attack_charges next
                (PlayerState.spawnProjectile
                   (shot getWorldDirection camera projectileId held) s0)
                Hcur) as [H1 H2].
    destruct (attack_body
                (PlayerState.spawnProjectile
                   (shot getWorldDirection camera projectileId held) s0))
      as (_ & _ & _ & H3).
    split; [exact H1|]. split; [exact H2|]. split; [reflexivity|].
    rewrite H3. unfold PlayerState.spawnProjectile. ps_simpl. now rewrite Hpr.
Qed.

Lemma switch_and_attack_charges_the_new_weapon_witness :
  PlayerState.currentWeapon PlayerState.initial = Some WEAPONS_sword
  /\ find (fun w => String.eqb (Weapon.id w) "pistol")
       (PlayerState.weapons PlayerState.initial) = Some WEAPONS_pistol
  /\ KeyState.weaponSlot2 switchAndAttack
     && negb (WeaponRefs.prevWeaponSlot2 noRefs) = true
  /\ KeyState.reload switchAndAttack && negb (WeaponRefs.prevReload noRefs)
     = false
  /\ ready switchAndAttack PlayerState.initial = true
  /\ cost WEAPONS_sword <= PlayerState.stamina PlayerState.initial
  /\ PlayerState.currentWeapon
       (snd (fst (fst (WeaponController_useFrame no_rotation no_normalize
                         forwards switchAndAttack PlayerState.initial
                         originCamera (1 # 60) (1 # 2) 0 7 noRefs
                         PlayerState.initial initialWorld))))
     = Some (Weapon_with_ammo (Math_max 0 (12 - 1)) WEAPONS_pistol)
  /\ PlayerState.projectiles
       (snd (fst (fst (WeaponController_useFrame no_rotation no_normalize
                         forwards switchAndAttack PlayerState.initial
                         originCamera (1 # 60) (1 # 2) 0 7 noRefs
                         PlayerState.initial initialWorld))))
     = [].
Proof.
  assert (H1 : PlayerState.currentWeapon PlayerState.initial
               = Some WEAPONS_sword) by reflexivity.
  assert (H2 : find (fun w => String.eqb (Weapon.id w) "pistol")
                 (PlayerState.weapons PlayerState.initial)
               = Some WEAPONS_pistol) by reflexivity.
  assert (H3 : KeyState.weaponSlot2 switchAndAttack
               && negb (WeaponRefs.prevWeaponSlot2 noRefs) = true)
    by reflexivity.
  assert (H4 : KeyState.reload switchAndAttack
               && negb (WeaponRefs.prevReload noRefs) = false)
    by reflexivity.
  assert (H5 : ready switchAndAttack PlayerState.initial = true)
    by reflexivity.
  assert (H6 : cost WEAPONS_sword <= PlayerState.stamina PlayerState.initial)
    by (vm_compute; discriminate).
  repeat (split; [assumption|]).
  destruct (switch_and_attack_charges_the_new_weapon no_rotation no_normalize
              forwards switchAndAttack originCamera (1 # 60) (1 # 2) 0 7
              noRefs PlayerState.initial initialWorld WEAPONS_sword
              WEAPONS_pistol H1 H2 H3 H4 H5 H6) as (G1 & _ & _ & G2).
  split; [exact G1 | exact G2].
Defined.

(** ** The AI and the player over several frames *)

Section AIStrikes.

Variable normalize : Vector3.t -> Vector3.t.
Variable Math_atan2 : number -> number -> number.



Lemma Player_at_health (p : Vector3.t) (player : Player.t) :
  Player.health (Player_at p player) = Player.health player
  /\ Player.maxHealth (Player_at p player) = Player.maxHealth player
  /\ Player.projectiles (Player_at p player) = Player.projectiles player.
Proof. unfold Player_at. cbn. auto. Qed.

(** One update never raises the player's health. *)
Lemma update_player_health (delta : number) (ai ai' : EnemyAI)
    (player player' : Player.t) :
  0 <= damage (stats (enemy ai)) ->
  0 <= Player.health player ->
  update normalize Math_atan2 delta ai player = Some (ai', player') ->
  0 <= Player.health player'
  /\ Player.health player' <= Player.health player
  /\ Player.maxHealth player' = Player.maxHealth player
  /\ Player.projectiles player' = Player.projectiles player
  /\ Player.position player' = Player.position player.
Proof.
  intros Hdmg Hh Hup.
  destruct (AIState_eqb (state (enemy ai)) DEAD) eqn:E.
  { apply AIState_eqb_eq in E.
    rewrite (update_dead normalize Math_atan2 delta ai player E) in Hup.
    injection Hup as <- <-. repeat split; auto. apply Qle_refl. }
  unfold update in Hup. rewrite E in Hup.
  destruct (timers_view delta ai (Player.position player))
    as (_ & Hp & _ & Hst & _).
  cbv zeta in Hp, Hst.
  set (ai0 := updateTimers delta
                (mkEnemyAI (enemy ai) (Some (Player.position player)))) in *.
  destruct (handler_player normalize Math_atan2 delta ai0 ai' player player'
              (Player.position player) Hp Hup)
    as [-> | (_ & _ & _ & _ & ->)].
  - repeat split; auto. apply Qle_refl.
  - rewrite Hst. unfold Player.takeDamage. cbn.
    split; [apply Math_max_ge_l|]. split; [|auto].
    apply Math_max_lub; lra.
Qed.

End AIStrikes.



(** X28. The AI only ever lowers the player's health, and never below
    0: over any run of updates of an enemy whose [stats.damage] is not
    negative, the player's health does not rise and stays at 0 or
    above, and [maxHealth] and the projectiles are not touched. *)
Theorem ai_run_only_lowers_player_health
    (normalize : Vector3.t -> Vector3.t)
    (Math_atan2 : number -> number -> number)
    (frames : list (number * Vector3.t)) (ai : EnemyAI) (player : Player.t)
    (Hindex : patrol_ok (enemy ai))
    (Hdamage : 0 <= damage (stats (enemy ai)))
    (Hhealth : 0 <= Player.health player) :
  exists ai' player',
    aiRun normalize Math_atan2 frames ai player = Some (ai', player')
    /\ 0 <= Player.health player'
    /\ Player.health player' <= Player.health player
    /\ Player.maxHealth player' = Player.maxHealth player
    /\ Player.projectiles player' = Player.projectiles player.
Proof.
  revert ai player Hindex Hdamage Hhealth.
  induction frames as [|[delta p] frames IH]; intros ai player Hok Hdmg Hh.
  - exists ai, player. repeat split; auto. apply Qle_refl.
  - cbn [aiRun].
    destruct (update_total normalize Math_atan2 delta ai (Player_at p player)
                Hok) as (ai1 & player1 & Hup).
    rewrite Hup.
    destruct (update_step normalize Math_atan2 delta ai ai1
                (Player_at p player) player1 Hup)
      as ((_ & _ & Hst & _) & _ & Hp & _).
    destruct (Player_at_health p player) as (A1 & A2 & A3).
    destruct (update_player_health normalize Math_atan2 delta ai ai1 (Player_at p player) player1
                Hdmg ltac:(rewrite A1; exact Hh) Hup)
      as (B1 & B2 & B3 & B4 & _).
    destruct (IH ai1 player1 (Hp Hok) ltac:(rewrite Hst; exact Hdmg) B1)
      as (ai' & player' & Hrun & C1 & C2 & C3 & C4).
    rewrite A1 in B2.
    exists ai', player'. split; [exact Hrun|]. split; [exact C1|].
    split; [lra|]. split; congruence.
Qed.

Lemma ai_run_only_lowers_player_health_witness :
  patrol_ok (enemy strikingZombie)
  /\ 0 <= damage (stats (enemy strikingZombie))
  /\ 0 <= Player.health Player.initial
  /\ exists ai' player',
       aiRun no_normalize no_atan2
         [(1 # 60, Vector3.mk 0 2 0); (2, Vector3.mk 0 2 0)]
         strikingZombie Player.initial
       = Some (ai', player')
       /\ 0 <= Player.health player'
       /\ Player.health player' <= 100.
Proof.
  assert (H1 : patrol_ok (enemy strikingZombie))
    by (unfold patrol_ok; simpl; lia).
  assert (H2 : 0 <= damage (stats (enemy strikingZombie)))
    by (vm_compute; discriminate).
  assert (H3 : 0 <= Player.health Player.initial)
    by (vm_compute; discriminate).
  repeat (split; [assumption|]).
  destruct (ai_run_only_lowers_player_health no_normalize no_atan2
              [(1 # 60, Vector3.mk 0 2 0); (2, Vector3.mk 0 2 0)]
              strikingZombie Player.initial H1 H2 H3)
    as (ai' & player' & G1 & G2 & G3 & _).
  exists ai', player'. split; [exact G1|]. split; [exact G2 | exact G3].
Defined.

(** ** [checkEnemyHit]: equally near enemies *)

Section RayOrder.

Variables (rayOrigin rayDirection : Vector3.t) (maxDistance : number).

Lemma first_inv_step (seen : JSMap EnemyData) (k : string) (e : EnemyData)
    (acc : option Hit.t * option number) :
  first_inv rayOrigin rayDirection maxDistance seen acc ->
  first_inv rayOrigin rayDirection maxDistance (seen ++ [(k, e)])
    (checkEnemyHit_body rayOrigin rayDirection maxDistance e k acc).
Proof.
  intros Hinv. rewrite checkEnemyHit_body_step.
  destruct acc as [[h|] cd]; unfold first_inv in *; cbn [fst snd] in *.
  - destruct Hinv as (-> & e0 & before & after & Hseen & Hq0 & Hd0 & Hb & Ha).
    cbn [lt_closest].
    assert (Hkeep :
      (forall e', qualifies rayOrigin rayDirection maxDistance e' ->
                  e' = e ->
                  projection rayOrigin rayDirection e0
                  <= projection rayOrigin rayDirection e') ->
      Some (Hit.distance h) = Some (Hit.distance h)
      /\ exists e1 before1 after1,
           seen ++ [(k, e)] = before1 ++ (Hit.enemyId h, e1) :: after1
           /\ qualifies rayOrigin rayDirection maxDistance e1
           /\ Hit.distance h = projection rayOrigin rayDirection e1
           /\ (forall k' e', In (k', e') before1 ->
                 qualifies rayOrigin rayDirection maxDistance e' ->
                 projection rayOrigin rayDirection e1
                 < projection rayOrigin rayDirection e')
           /\ (forall k' e', In (k', e') after1 ->
                 qualifies rayOrigin rayDirection maxDistance e' ->
                 projection rayOrigin rayDirection e1
                 <= projection rayOrigin rayDirection e')).
    { intros Hnew. split; [reflexivity|].
      exists e0, before, (after ++ [(k, e)]).
      split; [rewrite Hseen, <- app_assoc; reflexivity|].
      split; [exact Hq0|]. split; [exact Hd0|]. split; [exact Hb|].
      intros k' e' Hin Hq'. apply in_app_or in Hin.
      destruct Hin as [Hin|[Heq|[]]]; [exact (Ha k' e' Hin Hq')|].
      apply (f_equal snd) in Heq. cbn [snd] in Heq.
      apply Hnew; [exact Hq' | now symmetry]. }
    destruct (qualifiesb rayOrigin rayDirection maxDistance e) eqn:Hq;
      cbn [andb].
    + apply qualifiesb_iff in Hq.
      destruct (projection rayOrigin rayDirection e <? Hit.distance h)
        eqn:Hlt.
      * apply Qlt_bool_iff in Hlt. cbn [fst snd Hit.distance Hit.enemyId].
        split; [reflexivity|].
        exists e, seen, []. split; [reflexivity|].
        split; [exact Hq|]. split; [reflexivity|]. split; [|intros ? ? []].
        intros k' e' Hin Hq'. rewrite Hseen in Hin. apply in_app_or in Hin.
        rewrite Hd0 in Hlt.
        destruct Hin as [Hin|[Heq|Hin]].
        -- eapply Qlt_trans; [exact Hlt|]. eauto.
        -- apply (f_equal snd) in Heq. cbn [snd] in Heq. subst e'.
           exact Hlt.
        -- eapply Qlt_le_trans; [exact Hlt|]. eauto.
      * apply Qlt_bool_false in Hlt. apply Hkeep.
        intros e' _ ->. now rewrite <- Hd0.
    + apply Hkeep. intros e' Hq' ->. apply qualifiesb_iff in Hq'. congruence.
  - destruct Hinv as (-> & Hnone). cbn [lt_closest].
    rewrite andb_true_r.
    destruct (qualifiesb rayOrigin rayDirection maxDistance e) eqn:Hq.
    + apply qualifiesb_iff in Hq. cbn [fst snd Hit.distance Hit.enemyId].
      split; [reflexivity|].
      exists e, seen, []. split; [reflexivity|].
      split; [exact Hq|]. split; [reflexivity|]. split; [|intros ? ? []].
      intros k' e' Hin Hq'. exfalso. eapply Hnone; eauto.
    + cbn [fst snd]. split; [reflexivity|].
      intros k' e' Hin Hq'. apply in_app_or in Hin.
      destruct Hin as [Hin|[[= <- <-]|[]]]; [eapply Hnone; eauto|].
      apply qualifiesb_iff in Hq'. congruence.
Qed.

Lemma first_inv_forEach (rest seen : JSMap EnemyData)
    (acc : option Hit.t * option number) :
  first_inv rayOrigin rayDirection maxDistance seen acc ->
  first_inv rayOrigin rayDirection maxDistance (seen ++ rest)
    (Map_forEach (checkEnemyHit_body rayOrigin rayDirection maxDistance)
       rest acc).
Proof.
  revert seen acc. induction rest as [|[k e] rest IH]; intros seen acc Hinv.
  - now rewrite app_nil_r.
  - change (Map_forEach
              (checkEnemyHit_body rayOrigin rayDirection maxDistance)
              ((k, e) :: rest) acc)
      with (Map_forEach
              (checkEnemyHit_body rayOrigin rayDirection maxDistance) rest
              (checkEnemyHit_body rayOrigin rayDirection maxDistance e k acc)).
    replace (seen ++ (k, e) :: rest) with ((seen ++ [(k, e)]) ++ rest)
      by (rewrite <- app_assoc; reflexivity).
    apply IH. now apply first_inv_step.
Qed.

End RayOrder.

(** X29. Of the qualifying enemies that are equally near along the
    ray, [checkEnemyHit] returns the one stored first: the enemy hit
    is strictly nearer than every qualifying enemy before it in the
    store's insertion order and at least as near as every qualifying
    enemy after it. *)
Theorem checkEnemyHit_tie_goes_to_first_stored
    (rayOrigin rayDirection : Vector3.t) (maxDistance : number) (w : World)
    (h : Hit.t)
    (Hhit : checkEnemyHit rayOrigin rayDirection maxDistance w = Some h) :
  let ok := qualifies rayOrigin rayDirection maxDistance in
  let t := projection rayOrigin rayDirection in
  exists e before after,
    enemies w = before ++ (Hit.enemyId h, e) :: after
    /\ ok e
    /\ Hit.distance h = t e
    /\ (forall k' e', In (k', e') before -> ok e' -> t e < t e')
    /\ (forall k' e', In (k', e') after -> ok e' -> t e <= t e').
Proof.
  intros ok t. unfold checkEnemyHit in Hhit.
  assert (H0 : first_inv rayOrigin rayDirection maxDistance [] (None, None))
    by (split; [reflexivity | intros ? ? []]).
  pose proof (first_inv_forEach rayOrigin rayDirection maxDistance
                (enemies w) [] (None, None) H0) as H.
  cbn [app] in H. unfold first_inv in H. rewrite Hhit in H.
  destruct H as (_ & e & before & after & H1 & H2 & H3 & H4 & H5).
  exists e, before, after. auto.
Qed.

Lemma checkEnemyHit_tie_goes_to_first_stored_witness :
  exists h,
    checkEnemyHit (Vector3.mk (1 # 2) 1 10) (Vector3.mk 0 0 (-1)) 50 pairWorld
    = Some h
    /\ Hit.enemyId h = "left"%string
    /\ exists e before after,
         enemies pairWorld = before ++ ("left"%string, e) :: after
         /\ before = []
         /\ forall k' e', In (k', e') after ->
              qualifies (Vector3.mk (1 # 2) 1 10) (Vector3.mk 0 0 (-1)) 50 e' ->
              projection (Vector3.mk (1 # 2) 1 10) (Vector3.mk 0 0 (-1)) e
              <= projection (Vector3.mk (1 # 2) 1 10) (Vector3.mk 0 0 (-1)) e'.
Proof.
  destruct (checkEnemyHit (Vector3.mk (1 # 2) 1 10) (Vector3.mk 0 0 (-1)) 50
              pairWorld) as [h|] eqn:Hhit;
    [|vm_compute in Hhit; discriminate].
  assert (Hid : Hit.enemyId h = "left"%string).
  { pose proof Hhit as Hc. vm_compute in Hc. injection Hc as <-.
    reflexivity. }
  exists h. split; [reflexivity|]. split; [exact Hid|].
  destruct (checkEnemyHit_tie_goes_to_first_stored (Vector3.mk (1 # 2) 1 10)
              (Vector3.mk 0 0 (-1)) 50 pairWorld h Hhit)
    as (e & before & after & H1 & _ & _ & _ & H5).
  rewrite Hid in H1.
  exists e, before, after. split; [exact H1|]. split; [|exact H5].
  destruct before as [|[k0 e0] before]; [reflexivity|].
  exfalso. cbn in H1. injection H1 as Hk _ Hrest.
  destruct before as [|[k1 e1] before]; cbn in Hrest.
  - injection Hrest as Hk' _. discriminate.
  - injection Hrest as _ _ Hrest. destruct before; discriminate.
Defined.

(** ** The weapon controller over several frames *)





